(** * Requantization of TFLite-Micro flatbuffer models from int8 to int16

    A shallow embedding of
    [tensorflow/lite/micro/tools/requantize_flatbuffer_utils.py]
    and the verification of its specification.

    Python floats and NumPy [float64] arrays are IEEE-754 binary64 numbers:
    they are modelled by Rocq's primitive floats, whose operations compute
    the same correctly rounded results.  Python integers are unbounded and
    are modelled by [Z].  The model graph (tensors, buffers) is mutated in
    place by the source; here it is a heap threaded through a state and
    exception monad, tensors being referred to by their position in the
    heap. *)

From Stdlib Require Import ZArith List Floats Lia Bool String Reals Lra.
From Stdlib.Strings Require Import Byte.
From stdpp Require Import base list.
Import ListNotations.

#[local] Set Warnings "-inexact-float".
#[local] Open Scope Z_scope.

(* ===================================================================== *)
(** ** Numbers *)
(* ===================================================================== *)

Module Num.

(** A Python number, as far as this program computes with them: an [int]
    or a [float]. *)
Inductive pynum :=
| PyInt (n : Z)
| PyFloat (x : float).

(** Exceptions the program can raise. *)
Inductive exn :=
| RuntimeError (msg : string)
| IndexError
| KeyError
| ValueError
| OverflowError.

(** The correctly rounded binary64 value of an integer
    (round to nearest, ties to even; infinite when out of range). *)
Definition Z2float (n : Z) : float :=
  SF2Prim (binary_normalize prec emax n 0 false).

(** [float(n)] for a Python [int]: an integer too large for binary64 raises
    [OverflowError]. *)
Definition py_float (n : Z) : exn + float :=
  match binary_normalize prec emax n 0 false with
  | S754_infinity _ => inl OverflowError
  | _ => inr (Z2float n)
  end.

(** The integer nearest to [m / d] for [d > 0], ties to the even one. *)
Definition round_half_even_div (m d : Z) : Z :=
  let q := m / d in
  match 2 * (m mod d) ?= d with
  | Lt => q
  | Gt => q + 1
  | Eq => if Z.even q then q else q + 1
  end.

(** [np.round] on one [float64] (no decimals): the nearest integer, ties to
    the even one, the sign being kept; infinities and NaN are returned as
    they are. *)
Definition np_round (x : float) : float :=
  match Prim2SF x with
  | S754_finite s m e =>
      if 0 <=? e then x
      else
        let r := Z2float (round_half_even_div (Zpos m) (2 ^ (- e))) in
        if s then (- r)%float else r
  | _ => x
  end.

(** Python's builtin [max(a, b)] on floats keeps [a] unless [b > a]. *)
Definition py_max (a b : float) : float :=
  if (a <? b)%float then b else a.

(** [np.maximum] and [np.minimum] on [float64]: a NaN operand wins. *)
Definition np_maximum (a b : float) : float :=
  if (b <=? a)%float || is_nan a then a else b.

Definition np_minimum (a b : float) : float :=
  if (a <=? b)%float || is_nan a then a else b.

(** [a.max()] and [a.min()]; the reduction of an empty array raises
    [ValueError]. *)
Definition np_max (a : list float) : exn + float :=
  match a with
  | [] => inl ValueError
  | x :: l => inr (fold_left np_maximum l x)
  end.

Definition np_min (a : list float) : exn + float :=
  match a with
  | [] => inl ValueError
  | x :: l => inr (fold_left np_minimum l x)
  end.

(** One element of [np.clip(a, lo, hi)], which is
    [minimum(maximum(x, lo), hi)] with a NaN [x] kept. *)
Definition np_clip1 (lo hi x : float) : float :=
  let y := if is_nan x then x else if (lo <? x)%float then x else lo in
  if is_nan y then y else if (y <? hi)%float then y else hi.

(** [2 ** e] in Python: an [int] for [e >= 0], a [float] otherwise. *)
Definition py_pow2 (e : Z) : pynum :=
  if 0 <=? e then PyInt (2 ^ e) else PyFloat (Z.ldexp 1 e).

Definition py_neg (a : pynum) : pynum :=
  match a with
  | PyInt n => PyInt (- n)
  | PyFloat x => PyFloat (- x)
  end.

Definition py_pred (a : pynum) : pynum :=
  match a with
  | PyInt n => PyInt (n - 1)
  | PyFloat x => PyFloat (x - 1)
  end.

(** A Python scalar used with a [float64] array is converted to [float64]. *)
Definition as_float64 (a : pynum) : exn + float :=
  match a with
  | PyInt n => py_float n
  | PyFloat x => inr x
  end.

(** Two's complement wrap-around of NumPy's fixed-width integers. *)
Definition wrap (w : Z) (n : Z) : Z :=
  (n + 2 ^ (w - 1)) mod 2 ^ w - 2 ^ (w - 1).

Definition in_int (w : Z) (n : Z) : bool :=
  (- 2 ^ (w - 1) <=? n) && (n <? 2 ^ (w - 1)).

(** The integer a finite float truncates to. *)
Definition trunc (x : float) : option Z :=
  match Prim2SF x with
  | S754_zero _ => Some 0
  | S754_finite s m e =>
      let a := if 0 <=? e then Zpos m * 2 ^ e else Zpos m / 2 ^ (- e) in
      Some (if s then - a else a)
  | _ => None
  end.

(** [astype(np.int64)] on one [float64]: the C conversion, which truncates.
    C leaves the conversion of a NaN or of a value outside the 64-bit range
    undefined; x86-64, on which NumPy yields the "integer indefinite" value
    [-2^63], is modelled. *)
Definition astype_int64 (x : float) : Z :=
  match trunc x with
  | Some n => if in_int 64 n then n else - 2 ^ 63
  | None => - 2 ^ 63
  end.

(** The integer value of a float, when it is an integer. *)
Definition float_to_Z (x : float) : option Z :=
  match Prim2SF x with
  | S754_zero _ => Some 0
  | S754_finite s m e =>
      if 0 <=? e then Some ((if s then -1 else 1) * (Zpos m * 2 ^ e))
      else if Zpos m mod 2 ^ (- e) =? 0
           then Some ((if s then -1 else 1) * (Zpos m / 2 ^ (- e)))
           else None
  | _ => None
  end.

End Num.
Export Num.

(* ===================================================================== *)
(** ** The model graph *)
(* ===================================================================== *)

Module Schema.

(** Modelled from the spec: the tensor-type enumeration [TensorType] of the
    schema-generated module [schema_py_generated], which is not part of the
    sources; a closed enumeration, of which the program uses the entries
    its table [TENSOR_CODE_TYPE] lists. *)
Inductive TensorType :=
| FLOAT32 | FLOAT16 | INT32 | UINT8 | INT64 | STRING | BOOL | INT16
| COMPLEX64 | INT8 | FLOAT64 | COMPLEX128 | UINT64 | RESOURCE | VARIANT
| UINT32 | UINT16 | INT4.

(** The values of the table [TENSOR_CODE_TYPE]: NumPy's scalar types, and
    the strings that stand for the types NumPy does not have. *)
Inductive dtype :=
| np_float32 | np_float16 | np_int32 | np_uint8 | np_int64 | np_string_
| np_bool_ | np_int16 | np_complex64 | np_int8 | np_float64 | np_complex128
| np_uint64 | np_uint32 | np_uint16
| marker (s : string).

#[global] Instance TensorType_eq_dec : EqDecision TensorType.
Proof. solve_decision. Defined.

#[global] Instance dtype_eq_dec : EqDecision dtype.
Proof. unfold EqDecision, Decision. decide equality. apply string_dec. Defined.

(** The quantization record of a tensor. *)
Record QuantizationParameters := {
  scale : list float;
  zeroPoint : list Z;
  quantizedDimension : Z
}.

Record Tensor := {
  type : TensorType;
  buffer : Z;
  name : string;
  quantization : QuantizationParameters
}.

Record Buffer := { data : list byte }.

Record Operator := {
  inputs : list Z;
  outputs : list Z
}.

(** The part of the loaded model the program works on, and the log it
    writes to.  A tensor object is referred to by its position in
    [tensors], a buffer object by its position in [buffers]. *)
Record Heap := {
  tensors : list Tensor;
  buffers : list Buffer;
  logs : list string
}.

(** Heaps that differ from [h] by one tensor, one buffer or one more line
    of the log. *)
Definition heap_set_tensor (r : nat) (t : Tensor) (h : Heap) : Heap :=
  {| tensors := <[r := t]> (tensors h); buffers := buffers h;
     logs := logs h |}.

Definition heap_set_buffer (r : nat) (b : Buffer) (h : Heap) : Heap :=
  {| tensors := tensors h; buffers := <[r := b]> (buffers h);
     logs := logs h |}.

Definition heap_log (msg : string) (h : Heap) : Heap :=
  {| tensors := tensors h; buffers := buffers h; logs := logs h ++ [msg] |}.

Definition set_scale (q : QuantizationParameters) (v : list float) :=
  {| scale := v; zeroPoint := zeroPoint q;
     quantizedDimension := quantizedDimension q |}.

Definition set_zeroPoint (q : QuantizationParameters) (v : list Z) :=
  {| scale := scale q; zeroPoint := v;
     quantizedDimension := quantizedDimension q |}.

Definition set_type (t : Tensor) (c : TensorType) :=
  {| type := c; buffer := buffer t; name := name t;
     quantization := quantization t |}.

Definition set_quantization (t : Tensor) (q : QuantizationParameters) :=
  {| type := type t; buffer := buffer t; name := name t; quantization := q |}.

End Schema.
Export Schema.

(* ===================================================================== *)
(** ** State and exceptions *)
(* ===================================================================== *)

Module Monad.

(** How a call ends: it returns a value or raises an exception.  Either
    way the heap it leaves is the one it has mutated so far. *)
Inductive outcome (A : Type) :=
| Return (a : A)
| Raise (e : exn).
Arguments Return {A} a.
Arguments Raise {A} e.

Definition M (A : Type) : Type := Heap -> Heap * outcome A.

Definition ret {A} (a : A) : M A := fun h => (h, Return a).

Definition raise {A} (e : exn) : M A := fun h => (h, Raise e).

Definition bind {A B} (c : M A) (k : A -> M B) : M B :=
  fun h =>
    match c h with
    | (h', Return a) => k a h'
    | (h', Raise e) => (h', Raise e)
    end.

(** A computation that only returns or raises. *)
Definition lift {A} (r : exn + A) : M A :=
  match r with
  | inl e => raise e
  | inr a => ret a
  end.

End Monad.
Export Monad.

Notation "'let*' x ':=' c 'in' k" := (bind c (fun x => k))
  (at level 10, x name, c at level 100, k at level 200).
Notation "c ';;' k" := (bind c (fun _ => k))
  (at level 100, k at level 200, right associativity).

Module Py.

(** The position [l[i]] reads in a list of length [len]: a negative index
    counts from the end. *)
Definition py_index (len : nat) (i : Z) : option nat :=
  if (0 <=? i) && (i <? Z.of_nat len) then Some (Z.to_nat i)
  else if (- Z.of_nat len <=? i) && (i <? 0)
       then Some (Z.to_nat (Z.of_nat len + i))
       else None.

(** [l[i]] on a list of values; an index out of range raises
    [IndexError]. *)
Definition getitem {A} (l : list A) (i : Z) : exn + A :=
  match py_index (length l) i with
  | Some n =>
      match l !! n with
      | Some a => inr a
      | None => inl IndexError
      end
  | None => inl IndexError
  end.

(** [logging.info(msg)]. *)
Definition logging_info (msg : string) : M unit :=
  fun h => (heap_log msg h, Return tt).

(** [tensors[i]]: the tensor object at index [i], as its position. *)
Definition tensors_getitem (i : Z) : M nat :=
  fun h =>
    match py_index (length (tensors h)) i with
    | Some n => (h, Return n)
    | None => (h, Raise IndexError)
    end.

(** [buffers[i]]: the buffer object at index [i], as its position. *)
Definition buffers_getitem (i : Z) : M nat :=
  fun h =>
    match py_index (length (buffers h)) i with
    | Some n => (h, Return n)
    | None => (h, Raise IndexError)
    end.

(** Reading the state of the tensor object at position [r].  References
    come from [tensors_getitem] and the list never changes its length, so
    that the last case does not arise in a run of the program. *)
Definition tensor_read (r : nat) : M Tensor :=
  fun h =>
    match tensors h !! r with
    | Some t => (h, Return t)
    | None => (h, Raise IndexError)
    end.

(** An assignment to an attribute of the tensor object at position [r]. *)
Definition tensor_update (r : nat) (f : Tensor -> Tensor) : M unit :=
  fun h =>
    match tensors h !! r with
    | Some t => (heap_set_tensor r (f t) h, Return tt)
    | None => (h, Raise IndexError)
    end.

Definition buffer_read (r : nat) : M Buffer :=
  fun h =>
    match buffers h !! r with
    | Some b => (h, Return b)
    | None => (h, Raise IndexError)
    end.

Definition buffer_write (r : nat) (b : Buffer) : M unit :=
  fun h =>
    match buffers h !! r with
    | Some _ => (heap_set_buffer r b h, Return tt)
    | None => (h, Raise IndexError)
    end.

(** Lookup in a [dict], here a list of its items. *)
Fixpoint dict_get {K V} `{EqDecision K} (d : list (K * V)) (k : K)
  : exn + V :=
  match d with
  | [] => inl KeyError
  | (k', v) :: d' => if decide (k = k') then inr v else dict_get d' k
  end.

End Py.
Export Py.

(* ===================================================================== *)
(** ** The program *)
(* ===================================================================== *)

Module Requantize.

(** Map flatbuffer tensor type code to numpy data type. *)
Definition TENSOR_CODE_TYPE : list (TensorType * dtype) :=
  [ (FLOAT32, np_float32);
    (FLOAT16, np_float16);
    (INT32, np_int32);
    (UINT8, np_uint8);
    (INT64, np_int64);
    (STRING, np_string_);
    (BOOL, np_bool_);
    (INT16, np_int16);
    (COMPLEX64, np_complex64);
    (INT8, np_int8);
    (FLOAT64, np_float64);
    (COMPLEX128, np_complex128);
    (UINT64, np_uint64);
    (RESOURCE, marker "RESOURCE");
    (VARIANT, marker "VARIANT");
    (UINT32, np_uint32);
    (UINT16, np_uint16);
    (INT4, marker "INT4") ].

(** [dict((reversed(item) for item in TENSOR_CODE_TYPE.items()))]; no
    value of the table occurs twice, so that no item overrides another. *)
Definition TENSOR_TYPE_CODE : list (dtype * TensorType) :=
  map (fun item => (snd item, fst item)) TENSOR_CODE_TYPE.

(** A NumPy array, of the two element types the program meets: the
    [int32] of a stored bias and [float64]. *)
Inductive ndarray :=
| NdInt32 (a : list Z)
| NdFloat64 (a : list float).

(** [clip_range(vals, bit_width)] on a [float64] array.  The bounds are
    Python numbers; NumPy compares and clips [float64] data with their
    [float64] values. *)
Definition clip_range (vals : list float) (bit_width : Z) : M (list float) :=
  let min_val := py_neg (py_pow2 (bit_width - 1)) in
  let max_val := py_pred (py_pow2 (bit_width - 1)) in
  let* vmax := lift (np_max vals) in
  let* hi := lift (as_float64 max_val) in
  let* over :=
    (if (hi <? vmax)%float then ret true
     else
       let* vmin := lift (np_min vals) in
       let* lo := lift (as_float64 min_val) in
       ret (vmin <? lo)%float) in
  (if (over : bool) then logging_info "WARNING: integer overflow!"
   else ret tt);;
  let* lo := lift (as_float64 min_val) in
  let* hi := lift (as_float64 max_val) in
  ret (map (np_clip1 lo hi) vals).

(** [quantize_data(data, scale, zero_point, bit_width)] on float data. *)
Definition quantize_data (data : list float) (scale : float)
    (zero_point : Z) (bit_width : Z) : M (list float) :=
  let* zp := lift (py_float zero_point) in
  let vals := map (fun x => (np_round (x / scale) + zp)%float) data in
  clip_range vals bit_width.

(** [quantized_data - zero_point]: an [int32] array stays [int32] and wraps
    around when the zero point fits that type, and is computed in [int64]
    otherwise (NumPy's value-based casting); a [float64] array takes the
    zero point as a [float64]. *)
Definition sub_zero_point (quantized_data : ndarray) (zero_point : Z)
  : exn + list float :=
  match quantized_data with
  | NdInt32 a =>
      if in_int 32 zero_point
      then inr (map (fun q => Z2float (wrap 32 (q - zero_point))) a)
      else if in_int 64 zero_point
           then inr (map (fun q => Z2float (wrap 64 (q - zero_point))) a)
           else inl OverflowError
  | NdFloat64 a =>
      match py_float zero_point with
      | inl e => inl e
      | inr zp => inr (map (fun q => (q - zp)%float) a)
      end
  end.

(** [dequantize_data(quantized_data, scale, zero_point)]. *)
Definition dequantize_data (quantized_data : ndarray) (scale : float)
    (zero_point : Z) : exn + list float :=
  match sub_zero_point quantized_data zero_point with
  | inl e => inl e
  | inr d => inr (map (fun x => (scale * x)%float) d)
  end.

(** Change the quantization setting of the tensor from int8 to int16. *)
Definition change_quantization_settings_8to16 (tensor : nat) : M unit :=
  let* t := tensor_read tensor in
  if negb (quantizedDimension (quantization t) =? 0)
  then raise (RuntimeError
    "Only layer level quantization is supported. Per channel quantization is not supported now")
  else
    let* scale := lift (getitem (scale (quantization t)) 0) in
    let* zero_point := lift (getitem (zeroPoint (quantization t)) 0) in
    let MIN_INT8 := -128 in
    let MAX_INT8 := 128 in
    let MIN_INT16 := -32767 in
    let* qmax := lift (py_float (MAX_INT8 - zero_point)) in
    let rmax := (scale * qmax)%float in
    let* qmin := lift (py_float (MIN_INT8 - zero_point)) in
    let rmin := (scale * qmin)%float in
    let* d := lift (py_float (Z.abs MIN_INT16)) in
    let scale_16 := (py_max (abs rmax) (abs rmin) / d)%float in
    tensor_update tensor
      (fun t => set_quantization t (set_scale (quantization t) [scale_16]));;
    tensor_update tensor
      (fun t => set_quantization t (set_zeroPoint (quantization t) [0])).

(** Change the quantization setting of an activation tensor from int8 to
    int16. *)
Definition change_activation_tensor_8to16 (tensor : nat) : M unit :=
  let* t := tensor_read tensor in
  let* int8 := lift (dict_get TENSOR_TYPE_CODE np_int8) in
  if decide (type t = int8) then
    change_quantization_settings_8to16 tensor;;
    let* int16 := lift (dict_get TENSOR_TYPE_CODE np_int16) in
    tensor_update tensor (fun t => set_type t int16);;
    let* t := tensor_read tensor in
    logging_info ("Set " ++ name t ++ " from int8 to int16 ")%string
  else ret tt.

(** The bytes of NumPy arrays, least significant byte first as on the
    little-endian machines the tool runs on. *)
Definition byte_of_Z (n : Z) : byte :=
  default "000"%byte (Byte.of_N (Z.to_N (n mod 256))).

Definition Z_of_byte (b : byte) : Z := Z.of_N (Byte.to_N b).

Fixpoint le_bytes (w : nat) (n : Z) : list byte :=
  match w with
  | O => []
  | S w' => byte_of_Z n :: le_bytes w' (n / 256)
  end.

Fixpoint le_value (bs : list byte) : Z :=
  match bs with
  | [] => 0
  | b :: bs' => Z_of_byte b + 256 * le_value bs'
  end.

(** [a.tobytes()] for an [int32] and for an [int64] array. *)
Definition tobytes_int32 (a : list Z) : list byte :=
  flat_map (le_bytes 4) a.

Definition tobytes_int64 (a : list Z) : list byte :=
  flat_map (le_bytes 8) a.

(** [np.frombuffer(data, dtype=np.int32)]: a buffer whose size is not a
    multiple of the element size raises [ValueError]. *)
Fixpoint frombuffer_int32 (bs : list byte) : exn + list Z :=
  match bs with
  | [] => inr []
  | b0 :: b1 :: b2 :: b3 :: bs' =>
      match frombuffer_int32 bs' with
      | inl e => inl e
      | inr a => inr (wrap 32 (le_value [b0; b1; b2; b3]) :: a)
      end
  | _ => inl ValueError
  end.

(** Set the bias tensor quantization setting from int32 to int64.  The
    argument [buffers] of the source is the buffer list of the heap. *)
Definition set_bias_type_int64 (input weight bias : nat) : M unit :=
  let* b := tensor_read bias in
  let* bias_buffer := buffers_getitem (buffer b) in
  let* bias_scale := lift (getitem (scale (quantization b)) 0) in
  let* bias_zero_pt := lift (getitem (zeroPoint (quantization b)) 0) in
  let* buf := buffer_read bias_buffer in
  let* data := lift (frombuffer_int32 (data buf)) in
  let* dequantized_data :=
    lift (dequantize_data (NdInt32 data) bias_scale bias_zero_pt) in
  let* i := tensor_read input in
  let* input_scale := lift (getitem (scale (quantization i)) 0) in
  let* w := tensor_read weight in
  let* weight_scale := lift (getitem (scale (quantization w)) 0) in
  let bias_scale_int64 := (input_scale * weight_scale)%float in
  let bias_zero_pt_int64 := 0 in
  let* q :=
    quantize_data dequantized_data bias_scale_int64 bias_zero_pt_int64 64 in
  let int64_data := map astype_int64 q in
  buffer_write bias_buffer {| data := tobytes_int64 int64_data |};;
  let* int64 := lift (dict_get TENSOR_TYPE_CODE np_int64) in
  tensor_update bias (fun t => set_type t int64);;
  tensor_update bias
    (fun t => set_quantization t
                (set_scale (quantization t) [bias_scale_int64]));;
  tensor_update bias
    (fun t => set_quantization t
                (set_zeroPoint (quantization t) [bias_zero_pt_int64]));;
  let* t := tensor_read bias in
  logging_info ("Set " ++ name t ++ " from int32 to int64")%string.

(** Requantize the fully connected op from int8 to int16. *)
Definition requantize_fully_connected (op : Operator) : M unit :=
  let* i0 := lift (getitem (inputs op) 0) in
  let* input_tensor := tensors_getitem i0 in
  let* i1 := lift (getitem (inputs op) 1) in
  let* weight_tensor := tensors_getitem i1 in
  let* o0 := lift (getitem (outputs op) 0) in
  let* output_tensor := tensors_getitem o0 in
  change_activation_tensor_8to16 input_tensor;;
  change_activation_tensor_8to16 output_tensor;;
  let* i2 := lift (getitem (inputs op) 2) in
  if negb (i2 =? -1) then
    let* bias_tensor := tensors_getitem i2 in
    set_bias_type_int64 input_tensor weight_tensor bias_tensor
  else ret tt.

(** A [for] loop over a list. *)
Fixpoint for_each {A} (l : list A) (body : A -> M unit) : M unit :=
  match l with
  | [] => ret tt
  | a :: l' => body a;; for_each l' body
  end.

(** Python's [zip] of two lists. *)
Fixpoint zip {A B} (l : list A) (l' : list B) : list (A * B) :=
  match l, l' with
  | a :: l, b :: l' => (a, b) :: zip l l'
  | _, _ => []
  end.

(** Requantize the unidirectional sequence lstm op from int8 to int16. *)
Definition requantize_unidirectional_sequence_lstm (op : Operator)
  : M unit :=
  let* i0 := lift (getitem (inputs op) 0) in
  let* input_tensor := tensors_getitem i0 in
  let* i18 := lift (getitem (inputs op) 18) in
  let* hidden_state_tensor := tensors_getitem i18 in
  let* o0 := lift (getitem (outputs op) 0) in
  let* output_tensor := tensors_getitem o0 in
  let input_weights_idx := [1; 2; 3; 4] in
  let recurrent_weights_idx := [5; 6; 7; 8] in
  let bias_idx := [12; 13; 14; 15] in
  change_activation_tensor_8to16 input_tensor;;
  change_activation_tensor_8to16 hidden_state_tensor;;
  change_activation_tensor_8to16 output_tensor;;
  for_each (zip input_weights_idx bias_idx) (fun ids =>
    let* iw := lift (getitem (inputs op) (fst ids)) in
    let* weight_tensor := tensors_getitem iw in
    let* ib := lift (getitem (inputs op) (snd ids)) in
    let* bias_tensor := tensors_getitem ib in
    set_bias_type_int64 input_tensor weight_tensor bias_tensor);;
  for_each recurrent_weights_idx (fun weight_id =>
    let* iw := lift (getitem (inputs op) weight_id) in
    let* weight_tensor := tensors_getitem iw in
    ret tt).

(** Requantize the softmax op from int8 to int16. *)
Definition requantize_softmax (op : Operator) : M unit :=
  let* i0 := lift (getitem (inputs op) 0) in
  let* input_tensor := tensors_getitem i0 in
  let* o0 := lift (getitem (outputs op) 0) in
  let* output_tensor := tensors_getitem o0 in
  change_activation_tensor_8to16 input_tensor;;
  let* t := tensor_read output_tensor in
  let* int8 := lift (dict_get TENSOR_TYPE_CODE np_int8) in
  if decide (type t = int8) then
    tensor_update output_tensor
      (fun t => set_quantization t
                  (set_scale (quantization t) [(1 / 32768)%float]));;
    tensor_update output_tensor
      (fun t => set_quantization t (set_zeroPoint (quantization t) [0]));;
    let* int16 := lift (dict_get TENSOR_TYPE_CODE np_int16) in
    tensor_update output_tensor (fun t => set_type t int16);;
    let* t := tensor_read output_tensor in
    logging_info ("Set " ++ name t ++ " from int8 to int16 ")%string
  else ret tt.

End Requantize.
Export Requantize.

(* ===================================================================== *)
(** ** Vocabulary of the statements *)
(* ===================================================================== *)

(** A shift record [mrs] stands for the fraction [N / D] when its mantissa
    is the quotient and its two bits locate the remainder with respect to
    the half. *)
Definition represents (mrs : shr_record) (N D : Z) : Prop :=
  0 <= N /\ 0 < D /\ shr_m mrs = N / D /\
  match shr_r mrs, shr_s mrs with
  | false, false => N mod D = 0
  | false, true => 0 < 2 * (N mod D) < D
  | true, false => 2 * (N mod D) = D
  | true, true => D < 2 * (N mod D)
  end.

(** An integer that orders the valid floats as the IEEE comparison does. *)
Definition SFkey (x : spec_float) : Z :=
  match x with
  | S754_zero _ => 0
  | S754_infinity s => if s then - 2 ^ 2000 else 2 ^ 2000
  | S754_nan => 0
  | S754_finite s m e =>
      let k := (e + 1075) * 2 ^ 53 + Zpos m in
      if s then - k else k
  end.

Definition key (x : float) : Z := SFkey (Prim2SF x).

Definition scale_8to16 (s : float) (z : Z) : float :=
  (py_max (abs (s * Z2float (128 - z))) (abs (s * Z2float (-128 - z))) / 32767)%float.

Definition per_channel_error : exn :=
  RuntimeError
    "Only layer level quantization is supported. Per channel quantization is not supported now".

(** Activation retyping as the specification words it (section 4.2), to be
    compared with [change_activation_tensor_8to16].  A tensor whose declared
    type is the 8-bit signed code must be quantized per layer (step 1); of
    its scale [s] and zero point [z], the first elements (step 2), it keeps
    the scale [max(|s * (128 - z)|, |s * (-128 - z)|) / 32767] (steps 3 and
    4) and the zero point 0 (step 5), and takes the 16-bit signed code
    (step 6); a tensor of another type is left as it is.  [None] is the
    failure; a zero point is a 64-bit integer of the flatbuffer. *)
Definition spec_retyped_activation (t : Tensor) : option Tensor :=
  if decide (type t = INT8) then
    match scale (quantization t), zeroPoint (quantization t) with
    | s :: _, z :: _ =>
        if (quantizedDimension (quantization t) =? 0) && in_int 64 z
        then Some {| type := INT16; buffer := buffer t; name := name t;
                     quantization :=
                       {| scale := [scale_8to16 s z]; zeroPoint := [0];
                          quantizedDimension := 0 |} |}
        else None
    | _, _ => None
    end
  else Some t.

(** The model after the retyping, by the specification, of the activation
    at position [r]: the tensor is replaced and, when it was 8-bit, the
    line of the program is logged. *)
Definition spec_retype_activation (r : nat) (h : Heap) : option Heap :=
  match tensors h !! r with
  | Some t =>
      match spec_retyped_activation t with
      | Some t' =>
          Some (if decide (type t = INT8)
                then heap_log ("Set " ++ name t ++ " from int8 to int16 ")
                       (heap_set_tensor r t' h)
                else h)
      | None => None
      end
  | None => None
  end.

(** Two heaps with the same tensors and buffers (their logs may differ). *)
Definition same_store (h h' : Heap) : Prop :=
  tensors h' = tensors h /\ buffers h' = buffers h.

(** Heaps that agree outside one tensor and one buffer. *)
Definition frame (T : nat -> Prop) (B : nat -> Prop) (h h' : Heap) : Prop :=
  length (tensors h') = length (tensors h) /\
  length (buffers h') = length (buffers h) /\
  (forall r, ~ T r -> tensors h' !! r = tensors h !! r) /\
  (forall p, ~ B p -> buffers h' !! p = buffers h !! p) /\
  (forall r, buffer <$> tensors h' !! r = buffer <$> tensors h !! r).

(** Whether [clip_range] reports an overflow. *)
Definition overflows (lo hi : float) (vals : list float) : bool :=
  match np_max vals, np_min vals with
  | inr vmax, inr vmin => (hi <? vmax)%float || (vmin <? lo)%float
  | _, _ => false
  end.

Definition overflow_warning : string := "WARNING: integer overflow!".

Definition layer_tensor (ty : TensorType) (buf : Z) (nm : string)
    (s : float) (z : Z) (d : Z) : Tensor :=
  {| type := ty; buffer := buf; name := nm;
     quantization := {| scale := [s]; zeroPoint := [z]; quantizedDimension := d |} |}.

(** The bias conversion instance of the specification. *)
Definition bias_example : Heap :=
  {| tensors := [ layer_tensor INT16 0 "input" 0.1 0 0;
                  layer_tensor INT8 0 "weight" 0.2 0 0;
                  layer_tensor INT32 1 "bias" 0.05 0 0 ];
     buffers := [ {| data := [] |}; {| data := tobytes_int32 [5; -5] |} ];
     logs := [] |}.

Definition fc_per_channel_bias : Heap :=
  {| tensors := [ layer_tensor INT8 0 "input" 0.5 10 0;
                  layer_tensor INT8 0 "weight" 0.2 0 0;
                  layer_tensor INT8 0 "output" 0.25 (-3) 0;
                  layer_tensor INT32 1 "bias" 0.05 0 1 ];
     buffers := [ {| data := [] |}; {| data := tobytes_int32 [5; -5] |} ];
     logs := [] |}.

Definition fc_op : Operator := {| inputs := [0; 1; 3]; outputs := [2] |}.

(** The bounds of a bit width up to 54 are binary64 numbers. *)
Definition exact_bounds (b : Z) : bool :=
  let lo := Z2float (- 2 ^ (b - 1)) in
  let hi := Z2float (2 ^ (b - 1) - 1) in
  match float_to_Z lo, float_to_Z hi with
  | Some l, Some u =>
      (l =? - 2 ^ (b - 1)) && (u =? 2 ^ (b - 1) - 1) && (lo <=? hi)%float
  | _, _ => false
  end.

Definition empty_heap : Heap := {| tensors := []; buffers := []; logs := [] |}.

(** An 8-bit activation with scale 0.5 and zero point 10. *)
Definition activation_example : Heap :=
  {| tensors := [ layer_tensor INT8 0 "activation" 0.5 10 0 ];
     buffers := [ {| data := [] |} ];
     logs := [] |}.

(** An 8-bit activation quantized per channel. *)
Definition per_channel_example : Heap :=
  {| tensors := [ layer_tensor INT8 0 "activation" 0.5 10 1 ];
     buffers := [ {| data := [] |} ];
     logs := [] |}.

(** A bias tensor whose buffer holds no data. *)
Definition empty_bias_example : Heap :=
  {| tensors := [ layer_tensor INT16 0 "input" 0.1 0 0;
                  layer_tensor INT8 0 "weight" 0.2 0 0;
                  layer_tensor INT32 0 "bias" 0.05 0 0 ];
     buffers := [ {| data := [] |} ];
     logs := [] |}.

(** A softmax operator whose 8-bit output is quantized per channel. *)
Definition softmax_example : Heap :=
  {| tensors := [ layer_tensor INT16 0 "logits" 0.1 0 0;
                  layer_tensor INT8 0 "probabilities" 0.00390625 (-128) 1 ];
     buffers := [ {| data := [] |} ];
     logs := [] |}.

Definition softmax_op : Operator := {| inputs := [0]; outputs := [1] |}.

(** A softmax operator whose 8-bit input is quantized per channel. *)
Definition softmax_per_channel_input : Heap :=
  {| tensors := [ layer_tensor INT8 0 "logits" 0.1 0 1;
                  layer_tensor INT8 0 "probabilities" 0.00390625 (-128) 0 ];
     buffers := [ {| data := [] |} ];
     logs := [] |}.

(** A softmax operator that writes its output over its input. *)
Definition softmax_in_place_op : Operator :=
  {| inputs := [0]; outputs := [0] |}.

(** A fully connected operator without bias. *)
Definition fc_no_bias : Heap :=
  {| tensors := [ layer_tensor INT8 0 "input" 0.5 10 0;
                  layer_tensor INT8 1 "weight" 0.2 0 0;
                  layer_tensor INT8 0 "output" 0.25 (-3) 0 ];
     buffers := [ {| data := [] |}; {| data := ["001"; "002"; "003"]%byte |} ];
     logs := [] |}.

Definition fc_no_bias_op : Operator :=
  {| inputs := [0; 1; -1]; outputs := [2] |}.

(** A fully connected operator whose bias shares the buffer of the weight,
    and two operators on the same tensors: one whose weight is its input,
    one whose weight is its bias. *)
Definition fc_shared_buffer : Heap :=
  {| tensors := [ layer_tensor INT8 0 "input" 0.5 10 0;
                  layer_tensor INT8 1 "weight" 0.2 0 0;
                  layer_tensor INT8 0 "output" 0.25 (-3) 0;
                  layer_tensor INT32 1 "bias" 0.05 0 0 ];
     buffers := [ {| data := [] |}; {| data := tobytes_int32 [5; -5] |} ];
     logs := [] |}.

Definition fc_weight_is_input_op : Operator :=
  {| inputs := [0; 0; -1]; outputs := [2] |}.

Definition fc_weight_is_bias_op : Operator :=
  {| inputs := [0; 3; 3]; outputs := [2] |}.

(** The real number a float stands for. *)
Definition bpow (e : Z) : R := powerRZ 2 e.

Definition SF2R (x : spec_float) : R :=
  match x with
  | S754_finite s m e =>
      ((if s then - IZR (Zpos m) else IZR (Zpos m)) * bpow e)%R
  | _ => 0%R
  end.

(** The binary64 representation of an integer of at most 53 bits. *)
Definition canon (n : Z) : spec_float :=
  match n with
  | Z0 => S754_zero false
  | _ => S754_finite (n <? 0)
           (Z.to_pos (Z.abs n * 2 ^ (53 - Zdigits2 n))) (Zdigits2 n - 53)
  end.

(** Whether a float is a number that is not infinite. *)
Definition is_finite (x : float) : bool := (abs x <? infinity)%float.

(** Whether the bounds of a bit width are binary64 numbers that lie beyond
    the integers of magnitude up to [3 * 2^51]. *)
Definition wide_bounds (b : Z) : bool :=
  match as_float64 (py_neg (py_pow2 (b - 1))),
        as_float64 (py_pred (py_pow2 (b - 1))) with
  | inr lo, inr hi =>
      negb (is_nan lo) && negb (is_nan hi)
      && (key lo <? key (Z2float (- (3 * 2 ^ 51))))
      && (key (Z2float (3 * 2 ^ 51)) <? key hi)
  | _, _ => false
  end.

(** An array of the integers [ns], held as [int32] or as [float64]. *)
Definition int_array (int32 : bool) (ns : list Z) : ndarray :=
  if int32 then NdInt32 ns else NdFloat64 (map Z2float ns).

(** An 8-bit tensor that carries no quantization parameters. *)
Definition unquantized_example : Heap :=
  {| tensors := [ {| type := INT8; buffer := 0; name := "activation";
                     quantization := {| scale := []; zeroPoint := [];
                                        quantizedDimension := 0 |} |} ];
     buffers := [ {| data := [] |} ];
     logs := [] |}.

(** A fully connected operator whose output is quantized per channel. *)
Definition fc_per_channel_output : Heap :=
  {| tensors := [ layer_tensor INT8 0 "input" 0.5 10 0;
                  layer_tensor INT8 0 "weight" 0.2 0 0;
                  layer_tensor INT8 0 "output" 0.25 (-3) 1 ];
     buffers := [ {| data := [] |} ];
     logs := [] |}.

(** A fully connected operator that lists no bias slot. *)
Definition fc_two_inputs_op : Operator :=
  {| inputs := [0; 1]; outputs := [2] |}.

(** A unidirectional sequence LSTM: the input, four input weights, their
    four biases, the hidden state and the output; the optional inputs are
    absent. *)
Definition lstm_example : Heap :=
  {| tensors := [ layer_tensor INT8 0 "input" 0.5 10 0;
                  layer_tensor INT8 0 "w_i" 0.2 0 0;
                  layer_tensor INT8 0 "w_f" 0.1 0 0;
                  layer_tensor INT8 0 "w_c" 0.4 0 0;
                  layer_tensor INT8 0 "w_o" 0.3 0 0;
                  layer_tensor INT32 1 "b_i" 0.05 0 0;
                  layer_tensor INT32 2 "b_f" 0.05 0 0;
                  layer_tensor INT32 3 "b_c" 0.05 0 0;
                  layer_tensor INT32 4 "b_o" 0.05 0 0;
                  layer_tensor INT8 0 "hidden" 0.25 0 0;
                  layer_tensor INT8 0 "output" 0.25 (-3) 0 ];
     buffers := [ {| data := [] |};
                  {| data := tobytes_int32 [5; -5] |};
                  {| data := tobytes_int32 [1] |};
                  {| data := tobytes_int32 [2; 3] |};
                  {| data := tobytes_int32 [-7] |} ];
     logs := [] |}.

Definition lstm_op : Operator :=
  {| inputs := [0; 1; 2; 3; 4; 1; 2; 3; 4; -1; -1; -1; 5; 6; 7; 8; -1; -1; 9];
     outputs := [10] |}.

(** The LSTM operator without its last input, the hidden state. *)
Definition lstm_short_op : Operator :=
  {| inputs := [0; 1; 2; 3; 4; 1; 2; 3; 4; -1; -1; -1; 5; 6; 7; 8; -1; -1];
     outputs := [10] |}.

(* ===================================================================== *)
(** ** Rounding to binary64 *)
(* ===================================================================== *)

Lemma iter_pos_nat {A} (f : A -> A) (p : positive) (x : A) :
  SpecFloat.iter_pos f p x = Nat.iter (Pos.to_nat p) f x.
Proof.
  revert x. induction p as [p IH | p IH |]; intro x; cbn [SpecFloat.iter_pos].
  - rewrite !IH, Pos2Nat.inj_xI, Nat.iter_succ_r.
    replace (2 * Pos.to_nat p)%nat with (Pos.to_nat p + Pos.to_nat p)%nat by lia.
    now rewrite Nat.iter_add.
  - rewrite !IH, Pos2Nat.inj_xO.
    replace (2 * Pos.to_nat p)%nat with (Pos.to_nat p + Pos.to_nat p)%nat by lia.
    now rewrite Nat.iter_add.
  - reflexivity.
Qed.

Lemma shr_1_nonneg (m : Z) (r s : bool) :
  0 <= m ->
  shr_1 (Build_shr_record m r s) = Build_shr_record (m / 2) (Z.odd m) (r || s).
Proof.
  intros Hm. destruct m as [|p|p]; try lia.
  - reflexivity.
  - destruct p; cbn [shr_1].
    + rewrite Pos2Z.inj_xI. f_equal. rewrite Z.mul_comm, Z.add_comm.
      rewrite Z.div_add by lia. reflexivity.
    + rewrite Pos2Z.inj_xO. f_equal. rewrite Z.mul_comm.
      rewrite Z.div_mul by lia. reflexivity.
    + reflexivity.
Qed.

Lemma represents_shr_1 mrs N D :
  represents mrs N D -> represents (shr_1 mrs) N (2 * D).
Proof.
  destruct mrs as [m r s]. unfold represents. cbn [shr_m shr_r shr_s].
  intros (HN & HD & Hm & Hloc).
  assert (0 <= m) by (subst m; apply Z.div_pos; lia).
  rewrite shr_1_nonneg by assumption. cbn [shr_m shr_r shr_s].
  pose proof (Z.div_mod N D ltac:(lia)) as E.
  pose proof (Z.mod_pos_bound N D HD) as B.
  pose proof (Z.div_mod m 2 ltac:(lia)) as E2.
  pose proof (Z.mod_pos_bound m 2 ltac:(lia)) as B2.
  assert (Hq : N / (2 * D) = m / 2).
  { rewrite Z.mul_comm, <- Z.div_div by lia. now rewrite <- Hm. }
  assert (Hr : N mod (2 * D) = (m mod 2) * D + N mod D).
  { rewrite (Z.mod_eq N (2 * D)) by lia. rewrite Hq. rewrite <- Hm in E. nia. }
  split; [lia|]. split; [lia|]. split; [now rewrite Hq|].
  rewrite Hr. rewrite Zodd_mod.
  destruct (Z.eqb_spec (m mod 2) 1) as [E1|E1].
  - rewrite E1. destruct r, s; cbn; lia.
  - assert (m mod 2 = 0) as -> by lia. destruct r, s; cbn; lia.
Qed.

Lemma represents_iter n mrs N D :
  represents mrs N D -> represents (Nat.iter n shr_1 mrs) N (2 ^ Z.of_nat n * D).
Proof.
  intros H. induction n as [|n IH].
  - cbn [Nat.iter]. change (2 ^ Z.of_nat 0) with 1. now rewrite Z.mul_1_l.
  - cbn [Nat.iter]. apply represents_shr_1 in IH.
    rewrite Nat2Z.inj_succ, Z.pow_succ_r by lia.
    now rewrite <- Z.mul_assoc.
Qed.

Lemma represents_round mrs N D :
  represents mrs N D ->
  round_nearest_even (shr_m mrs) (loc_of_shr_record mrs) = round_half_even_div N D.
Proof.
  destruct mrs as [m r s]. unfold represents, round_half_even_div.
  cbn [shr_m shr_r shr_s]. intros (HN & HD & Hm & Hloc). rewrite <- Hm.
  destruct r, s; cbn [loc_of_shr_record round_nearest_even].
  - assert ((2 * (N mod D) ?= D) = Gt) as -> by (apply Z.compare_gt_iff; lia). reflexivity.
  - assert ((2 * (N mod D) ?= D) = Eq) as -> by (apply Z.compare_eq_iff; lia). reflexivity.
  - assert ((2 * (N mod D) ?= D) = Lt) as -> by (apply Z.compare_lt_iff; lia). reflexivity.
  - assert ((2 * (N mod D) ?= D) = Lt) as -> by (apply Z.compare_lt_iff; lia). reflexivity.
Qed.

Lemma represents_exact m : 0 <= m -> represents (shr_record_of_loc m loc_Exact) m 1.
Proof.
  intros Hm. unfold represents. cbn.
  rewrite Z.div_1_r, Z.mod_1_r. lia.
Qed.

Lemma shr_represents mrs e n N D :
  represents mrs N D ->
  represents (fst (shr mrs e n)) N (2 ^ Z.max 0 n * D) /\
  snd (shr mrs e n) = e + Z.max 0 n.
Proof.
  intros H. destruct n as [|p|p]; cbn [shr fst snd].
  - replace (2 ^ Z.max 0 0 * D) with D by (change (Z.max 0 0) with 0; lia).
    split; [assumption | change (Z.max 0 0) with 0; lia].
  - rewrite iter_pos_nat. rewrite Z.max_r by lia. split; [|reflexivity].
    rewrite <- (positive_nat_Z p). now apply represents_iter.
  - rewrite Z.max_l by lia.
    replace (2 ^ 0 * D) with D by lia.
    split; [assumption | lia].
Qed.

Lemma digits2_pos_bounds p :
  2 ^ (Zpos (digits2_pos p) - 1) <= Zpos p < 2 ^ Zpos (digits2_pos p).
Proof.
  induction p as [p IH | p IH |]; cbn [digits2_pos].
  - rewrite Pos2Z.inj_succ, Pos2Z.inj_xI.
    replace (Z.succ (Zpos (digits2_pos p)) - 1) with (Z.succ (Zpos (digits2_pos p) - 1)) by lia.
    rewrite !Z.pow_succ_r by lia. lia.
  - rewrite Pos2Z.inj_succ. change (Zpos p~0) with (2 * Zpos p).
    replace (Z.succ (Zpos (digits2_pos p)) - 1) with (Z.succ (Zpos (digits2_pos p) - 1)) by lia.
    rewrite !Z.pow_succ_r by lia. lia.
  - cbn. lia.
Qed.

Lemma Zdigits2_bounds m :
  0 < m -> 2 ^ (Zdigits2 m - 1) <= m < 2 ^ Zdigits2 m.
Proof.
  destruct m as [|p|p]; try lia. intros _. apply digits2_pos_bounds.
Qed.

Lemma Zdigits2_nonneg m : 0 <= Zdigits2 m.
Proof. destruct m; cbn; lia. Qed.

Lemma Zdigits2_unique m d :
  0 < m -> 2 ^ (d - 1) <= m < 2 ^ d -> Zdigits2 m = d.
Proof.
  intros Hm [H1 H2]. pose proof (Zdigits2_bounds m Hm) as [B1 B2].
  pose proof (Zdigits2_nonneg m).
  assert (0 < d).
  { destruct (Z_lt_le_dec 0 d); [assumption|].
    destruct (Z.eq_dec d 0) as [->|]; [cbn in H2; lia|].
    rewrite Z.pow_neg_r in H2 by lia. lia. }
  destruct (Z_lt_le_dec (Zdigits2 m) d) as [L|L].
  - assert (2 ^ Zdigits2 m <= 2 ^ (d - 1)) by (apply Z.pow_le_mono_r; lia). lia.
  - destruct (Z_lt_le_dec d (Zdigits2 m)) as [L'|L']; [|lia].
    assert (2 ^ d <= 2 ^ (Zdigits2 m - 1)) by (apply Z.pow_le_mono_r; lia). lia.
Qed.

(** What [binary_round_aux] computes from a mantissa and a location that
    stand for the fraction [N / D]. *)
Lemma binary_round_aux_spec sx m e l N D :
  represents (shr_record_of_loc m l) N D ->
  let k := Z.max 0 (fexp prec emax (Zdigits2 m + e) - e) in
  let m1 := round_half_even_div N (2 ^ k * D) in
  let k2 := Z.max 0 (fexp prec emax (Zdigits2 m1 + (e + k)) - (e + k)) in
  binary_round_aux prec emax sx m e l =
    match m1 / 2 ^ k2 with
    | Z0 => S754_zero sx
    | Zpos p => if e + k + k2 <=? emax - prec then S754_finite sx p (e + k + k2)
                else S754_infinity sx
    | Zneg _ => S754_nan
    end.
Proof.
  intros H k m1 k2. unfold binary_round_aux, shr_fexp.
  pose proof (shr_represents _ e (fexp prec emax (Zdigits2 m + e) - e) _ _ H) as [R1 E1].
  fold k in R1, E1.
  destruct (shr (shr_record_of_loc m l) e (fexp prec emax (Zdigits2 m + e) - e)) as [mrs' e'].
  cbn [fst snd] in R1, E1. subst e'.
  rewrite (represents_round _ _ _ R1). fold m1.
  assert (Hm1 : 0 <= m1).
  { unfold m1, round_half_even_div. destruct R1 as (HN & HD & _).
    assert (0 <= N / (2 ^ k * D)) by (apply Z.div_pos; lia).
    destruct (_ ?= _); [destruct (Z.even _)|..]; lia. }
  pose proof (shr_represents _ (e + k) (fexp prec emax (Zdigits2 m1 + (e + k)) - (e + k)) _ _
                (represents_exact m1 Hm1)) as [R2 E2].
  fold k2 in R2, E2.
  destruct (shr (shr_record_of_loc m1 loc_Exact) (e + k) _) as [mrs'' e''].
  cbn [fst snd] in R2, E2. subst e''.
  destruct R2 as (_ & _ & -> & _). rewrite Z.mul_1_r. reflexivity.
Qed.

Lemma pos_iter_xO p d : Zpos (Pos.iter xO p d) = Zpos p * 2 ^ Zpos d.
Proof.
  induction d as [|d IH] using Pos.peano_ind.
  - cbn. lia.
  - rewrite Pos.iter_succ, Pos2Z.inj_succ, Z.pow_succ_r by lia.
    change (Zpos (Pos.iter xO p d)~0) with (2 * Zpos (Pos.iter xO p d)).
    rewrite IH. lia.
Qed.

Lemma shl_align_spec mx ex ex' :
  let k := Z.max 0 (ex - ex') in
  shl_align mx ex ex' = (Z.to_pos (Zpos mx * 2 ^ k), ex - k).
Proof.
  unfold shl_align. destruct (ex' - ex) as [|d|d] eqn:E; cbn zeta.
  - rewrite Z.max_l by lia. rewrite Z.mul_1_r, Z.sub_0_r. reflexivity.
  - rewrite Z.max_l by lia. rewrite Z.mul_1_r, Z.sub_0_r. reflexivity.
  - assert (ex - ex' = Zpos d) as -> by lia. rewrite Z.max_r by lia.
    rewrite <- pos_iter_xO. cbn [Z.to_pos]. f_equal. lia.
Qed.

Lemma pow2_pos k : 0 < 2 ^ k \/ k < 0.
Proof. destruct (Z_lt_le_dec k 0); [now right | left; apply Z.pow_pos_nonneg; lia]. Qed.

Lemma Zdigits2_mul_pow2 m k :
  0 < m -> 0 <= k -> Zdigits2 (m * 2 ^ k) = Zdigits2 m + k.
Proof.
  intros Hm Hk. pose proof (Zdigits2_bounds m Hm) as [B1 B2].
  assert (0 < 2 ^ k) by (apply Z.pow_pos_nonneg; lia).
  assert (0 < Zdigits2 m).
  { destruct (Z_lt_le_dec 0 (Zdigits2 m)); [assumption|].
    pose proof (Zdigits2_nonneg m). assert (Zdigits2 m = 0) as E by lia.
    rewrite E in B2. cbn in B2. lia. }
  apply Zdigits2_unique; [nia|].
  replace (Zdigits2 m + k - 1) with ((Zdigits2 m - 1) + k) by lia.
  rewrite !Z.pow_add_r by lia. nia.
Qed.

Lemma round_half_even_div_bounds N D :
  0 < D -> N / D <= round_half_even_div N D <= N / D + 1.
Proof.
  intros HD. unfold round_half_even_div.
  destruct (_ ?= _); [destruct (Z.even _)|..]; lia.
Qed.

Lemma Zdigits2_le m n : 0 < m -> m <= 2 ^ n -> 0 <= n -> Zdigits2 m <= n + 1.
Proof.
  intros Hm Hle Hn. pose proof (Zdigits2_bounds m Hm) as [B1 B2].
  destruct (Z_lt_le_dec (n + 1) (Zdigits2 m)) as [L|L]; [|assumption].
  assert (2 ^ (n + 1) <= 2 ^ (Zdigits2 m - 1)) by (apply Z.pow_le_mono_r; lia).
  rewrite Z.pow_add_r in H by lia. lia.
Qed.

(** The conversion of an integer of at most a thousand bits does not
    overflow. *)
Lemma binary_normalize_finite n :
  - 2 ^ 1000 <= n <= 2 ^ 1000 ->
  forall s, binary_normalize prec emax n 0 false <> S754_infinity s.
Proof.
  intros Hn s.
  assert (G : forall sx p, Zpos p <= 2 ^ 1000 ->
             binary_round prec emax sx p 0 <> S754_infinity s).
  { clear. intros sx p Hp. unfold binary_round.
    rewrite shl_align_spec. cbn zeta.
    set (d := Zpos (digits2_pos p)).
    pose proof (digits2_pos_bounds p) as [B1 B2]. fold d in B1, B2.
    assert (Hd : 1 <= d <= 1001).
    { split; [unfold d; lia|].
      pose proof (Zdigits2_le (Zpos p) 1000 ltac:(lia) Hp ltac:(lia)) as L.
      exact L. }
    assert (Hf : fexp prec emax (d + 0) = d - 53).
    { unfold fexp, SpecFloat.emin, emax, prec. lia. }
    rewrite Hf. set (k0 := Z.max 0 (0 - (d - 53))).
    assert (0 < 2 ^ k0) by (apply Z.pow_pos_nonneg; lia).
    assert (Hmz : Zpos (Z.to_pos (Zpos p * 2 ^ k0)) = Zpos p * 2 ^ k0)
      by (apply Z2Pos.id; lia).
    rewrite Hmz.
    erewrite binary_round_aux_spec by (apply represents_exact; lia).
    rewrite Zdigits2_mul_pow2 by lia. change (Zdigits2 (Zpos p)) with d.
    replace (d + k0 + (0 - k0)) with d by lia.
    assert (Hf2 : fexp prec emax d = d - 53)
      by (unfold fexp, SpecFloat.emin, emax, prec; lia).
    rewrite Hf2.
    set (k := Z.max 0 (d - 53 - (0 - k0))).
    assert (Hek : 0 - k0 + k = d - 53) by lia.
    rewrite Hek. rewrite Z.mul_1_r.
    set (m1 := round_half_even_div (Zpos p * 2 ^ k0) (2 ^ k)).
    assert (0 < 2 ^ k) by (apply Z.pow_pos_nonneg; lia).
    pose proof (round_half_even_div_bounds (Zpos p * 2 ^ k0) (2 ^ k) ltac:(lia)) as [M1 M2].
    fold m1 in M1, M2.
    assert (Hq : Zpos p * 2 ^ k0 / 2 ^ k < 2 ^ 53).
    { apply Z.div_lt_upper_bound; [lia|].
      rewrite <- Z.pow_add_r by lia.
      destruct (Z_lt_le_dec d 53).
      - replace (k + 53) with (d + k0) by lia. rewrite Z.pow_add_r by lia. nia.
      - replace k0 with 0 by lia. replace (k + 53) with d by lia. lia. }
    assert (0 <= Zpos p * 2 ^ k0 / 2 ^ k) by (apply Z.div_pos; lia).
    destruct (Z.eq_dec m1 0) as [Z0|NZ].
    { rewrite Z0. cbn [Zdigits2]. rewrite Z.div_0_l; [discriminate|].
      apply Z.pow_nonzero; lia. }
    pose proof (Zdigits2_le m1 53 ltac:(lia) ltac:(lia) ltac:(lia)) as Ld.
    pose proof (Zdigits2_nonneg m1).
    set (k2 := Z.max 0 (fexp prec emax (Zdigits2 m1 + (d - 53)) - (d - 53))).
    assert (0 <= k2 <= 1).
    { unfold k2, fexp, SpecFloat.emin, emax, prec. lia. }
    destruct (m1 / 2 ^ k2); try discriminate.
    assert ((d - 53 + k2 <=? emax - prec) = true) as ->
      by (apply Z.leb_le; unfold emax, prec; lia).
    discriminate. }
  destruct n as [|p|p]; cbn [binary_normalize].
  - discriminate.
  - apply G. lia.
  - apply G. lia.
Qed.

Lemma py_float_ok n :
  - 2 ^ 1000 <= n <= 2 ^ 1000 -> py_float n = inr (Z2float n).
Proof.
  intros Hn. unfold py_float.
  pose proof (binary_normalize_finite n Hn) as F.
  destruct (binary_normalize prec emax n 0 false); try reflexivity.
  exfalso. eapply F. reflexivity.
Qed.

(* ===================================================================== *)
(** ** The order of binary64 numbers *)
(* ===================================================================== *)

Lemma valid_binary_bounds s m e :
  valid_binary (S754_finite s m e) = true ->
  Zpos m < 2 ^ 53 /\ -1074 <= e <= 971.
Proof.
  unfold SpecFloat.valid_binary, SpecFloat.bounded, SpecFloat.canonical_mantissa,
    fexp, SpecFloat.emin, emax, prec.
  rewrite andb_true_iff, Z.eqb_eq, Z.leb_le. intros [C B].
  pose proof (digits2_pos_bounds m) as [_ U].
  assert (Zpos (digits2_pos m) <= 53) by lia.
  split; [|lia].
  eapply Z.lt_le_trans; [exact U|]. apply Z.pow_le_mono_r; lia.
Qed.

Lemma SFkey_finite_pos s m e :
  valid_binary (S754_finite s m e) = true ->
  0 < (e + 1075) * 2 ^ 53 + Zpos m < 2 ^ 2000.
Proof.
  intros V. apply valid_binary_bounds in V as [M E].
  assert (2 ^ 53 * 2 ^ 12 <= 2 ^ 2000).
  { rewrite <- Z.pow_add_r by lia. apply Z.pow_le_mono_r; lia. }
  assert (0 < 2 ^ 53) by lia.
  split; [nia|].
  assert ((e + 1075) * 2 ^ 53 + Zpos m < 2047 * 2 ^ 53) by nia.
  change (2 ^ 12) with 4096 in H. lia.
Qed.

Lemma SFcompare_key x y :
  valid_binary x = true -> valid_binary y = true ->
  x <> S754_nan -> y <> S754_nan ->
  SFcompare x y = Some (SFkey x ?= SFkey y).
Proof.
  intros Vx Vy Nx Ny.
  assert (P : 0 < 2 ^ 2000) by (apply Z.pow_pos_nonneg; lia).
  destruct x as [sx|sx| |sx mx ex], y as [sy|sy| |sy my ey];
    try contradiction; cbn [SFcompare SFkey]; cbv zeta;
    try pose proof (SFkey_finite_pos _ _ _ Vx) as Kx;
    try pose proof (SFkey_finite_pos _ _ _ Vy) as Ky;
    try (destruct sx); try (destruct sy);
    try (f_equal; symmetry;
         first [ apply Z.compare_eq_iff; lia
               | apply Z.compare_lt_iff; lia
               | apply Z.compare_gt_iff; lia ]).
  - (* both negative *)
    apply valid_binary_bounds in Vx as [Mx Ex], Vy as [My Ey].
    f_equal.
    change (Pos.compare_cont Eq mx my) with (Pos.compare mx my).
    rewrite Pos2Z.inj_compare.
    destruct (Z.compare_spec ex ey) as [->|L|L].
    + destruct (Z.compare_spec (Zpos mx) (Zpos my)); cbn [CompOpp]; symmetry;
        [apply Z.compare_eq_iff|apply Z.compare_gt_iff|apply Z.compare_lt_iff]; lia.
    + symmetry. apply Z.compare_gt_iff. nia.
    + symmetry. apply Z.compare_lt_iff. nia.
  - (* both positive *)
    apply valid_binary_bounds in Vx as [Mx Ex], Vy as [My Ey].
    f_equal.
    change (Pos.compare_cont Eq mx my) with (Pos.compare mx my).
    rewrite Pos2Z.inj_compare.
    destruct (Z.compare_spec ex ey) as [->|L|L].
    + destruct (Z.compare_spec (Zpos mx) (Zpos my)); symmetry;
        [apply Z.compare_eq_iff|apply Z.compare_lt_iff|apply Z.compare_gt_iff]; lia.
    + symmetry. apply Z.compare_lt_iff. nia.
    + symmetry. apply Z.compare_gt_iff. nia.
Qed.

Lemma Prim2SF_nan : Prim2SF nan = S754_nan.
Proof. reflexivity. Qed.

Lemma SFcompare_refl x : x <> S754_nan -> SFcompare x x = Some Eq.
Proof.
  destruct x as [s|s| |s m e]; intros N; try contradiction; cbn [SFcompare].
  - reflexivity.
  - now destruct s.
  - change (Pos.compare_cont Eq m m) with (Pos.compare m m).
    rewrite Z.compare_refl, Pos.compare_refl. now destruct s.
Qed.

Lemma is_nan_spec x : is_nan x = true <-> Prim2SF x = S754_nan.
Proof.
  unfold is_nan. rewrite FloatAxioms.eqb_spec. unfold SFeqb.
  destruct (Prim2SF x) eqn:E.
  1,2,4: rewrite SFcompare_refl by discriminate; cbn; split; discriminate.
  cbn. split; reflexivity.
Qed.

Lemma is_nan_false x : is_nan x = false <-> Prim2SF x <> S754_nan.
Proof.
  rewrite <- is_nan_spec. destruct (is_nan x); split; congruence.
Qed.

Lemma ltb_key x y :
  is_nan x = false -> is_nan y = false -> (x <? y)%float = (key x <? key y).
Proof.
  intros Nx Ny. rewrite FloatAxioms.ltb_spec. unfold SFltb, key.
  rewrite SFcompare_key by (try apply Prim2SF_valid; now apply is_nan_false).
  unfold Z.ltb. destruct (_ ?= _); reflexivity.
Qed.

Lemma leb_key x y :
  is_nan x = false -> is_nan y = false -> (x <=? y)%float = (key x <=? key y).
Proof.
  intros Nx Ny. rewrite FloatAxioms.leb_spec. unfold SFleb, key.
  rewrite SFcompare_key by (try apply Prim2SF_valid; now apply is_nan_false).
  unfold Z.leb. destruct (_ ?= _); reflexivity.
Qed.

Lemma ltb_not_nan x y : (x <? y)%float = true -> is_nan x = false /\ is_nan y = false.
Proof.
  rewrite FloatAxioms.ltb_spec. unfold SFltb. intros H.
  split; apply is_nan_false; intros E; rewrite E in H;
    [|destruct (Prim2SF x)]; discriminate.
Qed.

Lemma leb_not_nan x y : (x <=? y)%float = true -> is_nan x = false /\ is_nan y = false.
Proof.
  rewrite FloatAxioms.leb_spec. unfold SFleb. intros H.
  split; apply is_nan_false; intros E; rewrite E in H;
    [|destruct (Prim2SF x)]; discriminate.
Qed.

(** Clipping a number that is not a NaN puts it between the bounds. *)
Lemma np_clip1_range lo hi x :
  (lo <=? hi)%float = true -> is_nan x = false ->
  (lo <=? np_clip1 lo hi x)%float = true /\ (np_clip1 lo hi x <=? hi)%float = true.
Proof.
  intros Hb Nx. destruct (leb_not_nan _ _ Hb) as [Nlo Nhi].
  rewrite leb_key in Hb by assumption. apply Z.leb_le in Hb.
  unfold np_clip1. rewrite Nx.
  rewrite (ltb_key lo x) by assumption.
  destruct (Z.ltb_spec (key lo) (key x)) as [L|L].
  - rewrite Nx. rewrite (ltb_key x hi) by assumption.
    destruct (Z.ltb_spec (key x) (key hi)) as [L'|L'];
      rewrite !leb_key by assumption; split; apply Z.leb_le; lia.
  - rewrite Nlo. rewrite (ltb_key lo hi) by assumption.
    destruct (Z.ltb_spec (key lo) (key hi)) as [L'|L'];
      rewrite !leb_key by assumption; split; apply Z.leb_le; lia.
Qed.

Lemma np_clip1_inside lo hi x :
  (lo <=? x)%float = true -> (x <=? hi)%float = true ->
  key (np_clip1 lo hi x) = key x.
Proof.
  intros H1 H2. destruct (leb_not_nan _ _ H1) as [Nlo Nx].
  destruct (leb_not_nan _ _ H2) as [_ Nhi].
  rewrite leb_key in H1, H2 by assumption. apply Z.leb_le in H1, H2.
  unfold np_clip1. rewrite Nx. rewrite (ltb_key lo x) by assumption.
  destruct (Z.ltb_spec (key lo) (key x)) as [L|L].
  - rewrite Nx. rewrite (ltb_key x hi) by assumption.
    destruct (Z.ltb_spec (key x) (key hi)); [reflexivity|lia].
  - rewrite Nlo. rewrite (ltb_key lo hi) by assumption.
    destruct (Z.ltb_spec (key lo) (key hi)); lia.
Qed.

(** The maximum and the minimum of an array without NaN. *)
Lemma fold_np_maximum l : forall x,
  is_nan x = false -> Forall (fun v => is_nan v = false) l ->
  let m := fold_left np_maximum l x in
  is_nan m = false /\ In m (x :: l) /\
  Forall (fun v => key v <= key m) (x :: l).
Proof.
  induction l as [|a l IH]; intros x Nx Hl; cbn [fold_left].
  - cbv zeta. split; [assumption|]. split; [now left|].
    constructor; [lia|constructor].
  - inversion Hl as [|? ? Na Hl']; subst.
    assert (E : np_maximum x a = x /\ key a <= key x \/
                np_maximum x a = a /\ key x <= key a).
    { unfold np_maximum. rewrite Nx, orb_false_r, leb_key by assumption.
      destruct (Z.leb_spec (key a) (key x)); [left|right]; split; auto; lia. }
    destruct E as [[-> L]|[-> L]].
    + destruct (IH x Nx Hl') as (N & I & F). cbv zeta.
      split; [assumption|]. split.
      * destruct I as [<-|I]; [now left|right; now right].
      * inversion F as [|? ? Fx Fl]; subst.
        constructor; [assumption|]. constructor; [lia|assumption].
    + destruct (IH a Na Hl') as (N & I & F). cbv zeta.
      split; [assumption|]. split; [now right|].
      inversion F as [|? ? Fa Fl]; subst.
      constructor; [lia|]. constructor; assumption.
Qed.

Lemma fold_np_minimum l : forall x,
  is_nan x = false -> Forall (fun v => is_nan v = false) l ->
  let m := fold_left np_minimum l x in
  is_nan m = false /\ In m (x :: l) /\
  Forall (fun v => key m <= key v) (x :: l).
Proof.
  induction l as [|a l IH]; intros x Nx Hl; cbn [fold_left].
  - cbv zeta. split; [assumption|]. split; [now left|].
    constructor; [lia|constructor].
  - inversion Hl as [|? ? Na Hl']; subst.
    assert (E : np_minimum x a = x /\ key x <= key a \/
                np_minimum x a = a /\ key a <= key x).
    { unfold np_minimum. rewrite Nx, orb_false_r, leb_key by assumption.
      destruct (Z.leb_spec (key x) (key a)); [left|right]; split; auto; lia. }
    destruct E as [[-> L]|[-> L]].
    + destruct (IH x Nx Hl') as (N & I & F). cbv zeta.
      split; [assumption|]. split.
      * destruct I as [<-|I]; [now left|right; now right].
      * inversion F as [|? ? Fx Fl]; subst.
        constructor; [assumption|]. constructor; [lia|assumption].
    + destruct (IH a Na Hl') as (N & I & F). cbv zeta.
      split; [assumption|]. split; [now right|].
      inversion F as [|? ? Fa Fl]; subst.
      constructor; [lia|]. constructor; assumption.
Qed.

(** [clip_range] warns exactly when some value is out of the range. *)
Lemma overflows_spec lo hi vals :
  is_nan lo = false -> is_nan hi = false ->
  Forall (fun v => is_nan v = false) vals ->
  overflows lo hi vals = existsb (fun v => (hi <? v)%float || (v <? lo)%float) vals.
Proof.
  intros Nlo Nhi Hv. destruct vals as [|x l]; [reflexivity|].
  inversion Hv as [|? ? Nx Hl]; subst.
  unfold overflows. cbn [np_max np_min].
  destruct (fold_np_maximum l x Nx Hl) as (Nmax & Imax & Fmax).
  destruct (fold_np_minimum l x Nx Hl) as (Nmin & Imin & Fmin).
  set (vmax := fold_left np_maximum l x) in *.
  set (vmin := fold_left np_minimum l x) in *.
  rewrite (ltb_key hi vmax), (ltb_key vmin lo) by assumption.
  apply eq_true_iff_eq. rewrite orb_true_iff, existsb_exists, !Z.ltb_lt.
  rewrite List.Forall_forall in Fmax, Fmin, Hv.
  split.
  - intros [L|L].
    + exists vmax. split; [assumption|].
      rewrite (ltb_key hi vmax) by assumption.
      apply orb_true_iff. left. now apply Z.ltb_lt.
    + exists vmin. split; [assumption|].
      rewrite (ltb_key vmin lo) by assumption.
      apply orb_true_iff. right. now apply Z.ltb_lt.
  - intros (v & Iv & Hvv). pose proof (Hv v Iv) as Nv.
    rewrite (ltb_key hi v), (ltb_key v lo) in Hvv by assumption.
    apply orb_true_iff in Hvv as [L|L]; apply Z.ltb_lt in L.
    + left. specialize (Fmax v Iv). lia.
    + right. specialize (Fmin v Iv). lia.
Qed.

(* ===================================================================== *)
(** ** The heap monad and the frame of the conversions *)
(* ===================================================================== *)

Lemma tensor_read_ok h r t :
  tensors h !! r = Some t -> tensor_read r h = (h, Return t).
Proof. intros H. unfold tensor_read. now rewrite H. Qed.

Lemma tensor_update_ok h r t f :
  tensors h !! r = Some t ->
  tensor_update r f h = (heap_set_tensor r (f t) h, Return tt).
Proof. intros H. unfold tensor_update. now rewrite H. Qed.

Lemma heap_set_tensor_lookup h r t t0 :
  tensors h !! r = Some t0 -> tensors (heap_set_tensor r t h) !! r = Some t.
Proof.
  intros H. cbn. apply list_lookup_insert_eq. eapply lookup_lt_Some, H.
Qed.

Lemma heap_set_tensor_twice h r t t' :
  heap_set_tensor r t' (heap_set_tensor r t h) = heap_set_tensor r t' h.
Proof. unfold heap_set_tensor. cbn. now rewrite list_insert_insert_eq. Qed.

Lemma bind_ret_l {A B} (a : A) (k : A -> M B) h : bind (ret a) k h = k a h.
Proof. reflexivity. Qed.

Lemma bind_eq {A B} (c : M A) (k : A -> M B) h h' a :
  c h = (h', Return a) -> bind c k h = k a h'.
Proof. intros H. unfold bind. now rewrite H. Qed.

Lemma bind_raise {A B} (c : M A) (k : A -> M B) h h' e :
  c h = (h', Raise e) -> bind c k h = (h', Raise e).
Proof. intros H. unfold bind. now rewrite H. Qed.

Lemma TENSOR_TYPE_CODE_int8 : dict_get TENSOR_TYPE_CODE np_int8 = inr INT8.
Proof. reflexivity. Qed.
Lemma TENSOR_TYPE_CODE_int16 : dict_get TENSOR_TYPE_CODE np_int16 = inr INT16.
Proof. reflexivity. Qed.
Lemma TENSOR_TYPE_CODE_int64 : dict_get TENSOR_TYPE_CODE np_int64 = inr INT64.
Proof. reflexivity. Qed.

Lemma bind_lift_eq {A B} (c : exn + A) (k : A -> M B) h a :
  c = inr a -> bind (lift c) k h = k a h.
Proof. intros ->. reflexivity. Qed.

Lemma bind_lift_raise {A B} (c : exn + A) (k : A -> M B) h e :
  c = inl e -> bind (lift c) k h = (h, Raise e).
Proof. intros ->. reflexivity. Qed.

Lemma in_int_64 z : in_int 64 z = true -> - 2 ^ 63 <= z < 2 ^ 63.
Proof. unfold in_int. rewrite andb_true_iff, Z.leb_le, Z.ltb_lt. cbn. lia. Qed.

Lemma change_quantization_settings_8to16_ok h r t s ss z zs :
  tensors h !! r = Some t ->
  quantizedDimension (quantization t) = 0 ->
  scale (quantization t) = s :: ss ->
  zeroPoint (quantization t) = z :: zs ->
  in_int 64 z = true ->
  change_quantization_settings_8to16 r h =
    (heap_set_tensor r
       (set_quantization t
          {| scale := [scale_8to16 s z]; zeroPoint := [0];
             quantizedDimension := 0 |}) h, Return tt).
Proof.
  intros Ht Hd Hs Hz Hr. apply in_int_64 in Hr.
  unfold change_quantization_settings_8to16.
  rewrite (bind_eq _ _ _ _ _ (tensor_read_ok _ _ _ Ht)).
  rewrite Hd, Hs, Hz. cbn [negb Z.eqb].
  erewrite bind_lift_eq by reflexivity.
  erewrite bind_lift_eq by reflexivity.
  erewrite bind_lift_eq by (apply py_float_ok; lia).
  erewrite bind_lift_eq by (apply py_float_ok; lia).
  erewrite bind_lift_eq by reflexivity.
  erewrite bind_eq by (apply tensor_update_ok; eassumption).
  erewrite tensor_update_ok by (eapply heap_set_tensor_lookup; eassumption).
  rewrite heap_set_tensor_twice.
  unfold set_quantization, set_scale, set_zeroPoint. cbn [quantization scale zeroPoint quantizedDimension type buffer name].
  rewrite Hd. reflexivity.
Qed.

Lemma change_activation_tensor_8to16_other h r t :
  tensors h !! r = Some t -> type t <> INT8 ->
  change_activation_tensor_8to16 r h = (h, Return tt).
Proof.
  intros Ht Hty. unfold change_activation_tensor_8to16.
  rewrite (bind_eq _ _ _ _ _ (tensor_read_ok _ _ _ Ht)).
  erewrite bind_lift_eq by reflexivity.
  now rewrite decide_False.
Qed.

(** Inversion of the monad's operations. *)
Lemma bind_inv {A B} (c : M A) (k : A -> M B) h h' o :
  bind c k h = (h', o) ->
  (exists e, c h = (h', Raise e) /\ o = Raise e) \/
  (exists a h1, c h = (h1, Return a) /\ k a h1 = (h', o)).
Proof.
  unfold bind. destruct (c h) as [h1 [a|e]]; intros H.
  - right. eauto.
  - left. inversion H; subst. eauto.
Qed.

Lemma lift_inv {A} (c : exn + A) h h' o :
  lift c h = (h', o) ->
  h' = h /\ match o with Return a => c = inr a | Raise e => c = inl e end.
Proof. destruct c; cbn; intros H; inversion H; subst; auto. Qed.

Lemma tensor_read_inv r h h' o :
  tensor_read r h = (h', o) ->
  h' = h /\ match o with
            | Return t => tensors h !! r = Some t
            | Raise _ => tensors h !! r = None
            end.
Proof.
  unfold tensor_read. destruct (tensors h !! r); intros H; inversion H; subst; auto.
Qed.

Lemma tensor_update_inv r f h h' o :
  tensor_update r f h = (h', o) ->
  match o with
  | Return _ => exists t, tensors h !! r = Some t /\ h' = heap_set_tensor r (f t) h
  | Raise _ => h' = h /\ tensors h !! r = None
  end.
Proof.
  unfold tensor_update. destruct (tensors h !! r); intros H; inversion H; subst; eauto.
Qed.

(** What one call of the activation retyping can do. *)
Lemma change_quantization_settings_8to16_inv r h h' o :
  change_quantization_settings_8to16 r h = (h', o) ->
  match o with
  | Raise _ => h' = h
  | Return _ =>
      exists t q, tensors h !! r = Some t /\
        h' = heap_set_tensor r (set_quantization t q) h
  end.
Proof.
  unfold change_quantization_settings_8to16. intros H.
  apply bind_inv in H as [(e & H & ->)|(t & h1 & H & K)];
    apply tensor_read_inv in H as [-> Ht]; [reflexivity|].
  destruct (negb _); [inversion K; reflexivity|].
  repeat (apply bind_inv in K as [(e & K & ->)|(? & ? & K1 & K)];
          [ apply lift_inv in K as [-> _]; reflexivity
          | apply lift_inv in K1 as [-> _] ]).
  apply bind_inv in K as [(e & K & ->)|([] & h2 & K1 & K)].
  - now apply tensor_update_inv in K as [-> _].
  - apply tensor_update_inv in K1 as (t1 & Ht1 & ->).
    assert (t1 = t) as -> by congruence.
    destruct o as [[]|e].
    + apply tensor_update_inv in K as (t2 & Ht2 & ->).
      erewrite heap_set_tensor_lookup in Ht2 by eassumption.
      injection Ht2 as <-. rewrite heap_set_tensor_twice.
      eexists t, _. split; [assumption|]. reflexivity.
    + apply tensor_update_inv in K as [_ K].
      erewrite heap_set_tensor_lookup in K by eassumption. discriminate.
Qed.

Lemma logging_info_eq msg h : logging_info msg h = (heap_log msg h, Return tt).
Proof. reflexivity. Qed.

Lemma change_activation_tensor_8to16_inv r h h' o :
  change_activation_tensor_8to16 r h = (h', o) ->
  match o with
  | Raise _ => h' = h
  | Return _ =>
      (h' = h /\ forall t, tensors h !! r = Some t -> type t <> INT8) \/
      (exists t q, tensors h !! r = Some t /\ type t = INT8 /\
         h' = heap_log ("Set " ++ name t ++ " from int8 to int16 ")
                (heap_set_tensor r
                   {| type := INT16; buffer := buffer t; name := name t;
                      quantization := q |} h))
  end.
Proof.
  unfold change_activation_tensor_8to16. intros H.
  apply bind_inv in H as [(e & H & ->)|(t & h1 & H & K)];
    apply tensor_read_inv in H as [-> Ht]; [reflexivity|].
  rewrite (bind_lift_eq _ _ _ _ TENSOR_TYPE_CODE_int8) in K.
  destruct (decide (type t = INT8)) as [Hty|Hty].
  - apply bind_inv in K as [(e & K & ->)|([] & h1 & K1 & K)].
    { now apply change_quantization_settings_8to16_inv in K. }
    apply change_quantization_settings_8to16_inv in K1 as (t1 & q & Ht1 & ->).
    assert (t1 = t) as -> by congruence.
    rewrite (bind_lift_eq _ _ _ _ TENSOR_TYPE_CODE_int16) in K.
    erewrite bind_eq in K
      by (eapply tensor_update_ok, heap_set_tensor_lookup; eassumption).
    rewrite heap_set_tensor_twice in K.
    erewrite bind_eq in K
      by (eapply tensor_read_ok, heap_set_tensor_lookup; eassumption).
    rewrite logging_info_eq in K. inversion K; subst.
    right. exists t, q. auto.
  - inversion K; subst. left. split; [reflexivity|].
    intros t' Ht'. congruence.
Qed.

Lemma same_store_refl h : same_store h h.
Proof. split; reflexivity. Qed.

Lemma same_store_trans h1 h2 h3 :
  same_store h1 h2 -> same_store h2 h3 -> same_store h1 h3.
Proof. intros [A B] [C D]. split; congruence. Qed.

Lemma same_store_log msg h : same_store h (heap_log msg h).
Proof. split; reflexivity. Qed.

Lemma tensors_getitem_ok h i r :
  py_index (length (tensors h)) i = Some r -> tensors_getitem i h = (h, Return r).
Proof. intros H. unfold tensors_getitem. now rewrite H. Qed.

Lemma tensors_getitem_inv i h h' o :
  tensors_getitem i h = (h', o) ->
  h' = h /\ match o with
            | Return r => py_index (length (tensors h)) i = Some r
            | Raise _ => py_index (length (tensors h)) i = None
            end.
Proof.
  unfold tensors_getitem. destruct (py_index _ _); intros H; inversion H; auto.
Qed.

Lemma buffers_getitem_inv i h h' o :
  buffers_getitem i h = (h', o) ->
  h' = h /\ match o with
            | Return r => py_index (length (buffers h)) i = Some r
            | Raise _ => py_index (length (buffers h)) i = None
            end.
Proof.
  unfold buffers_getitem. destruct (py_index _ _); intros H; inversion H; auto.
Qed.

Lemma buffer_read_inv r h h' o :
  buffer_read r h = (h', o) ->
  h' = h /\ match o with
            | Return b => buffers h !! r = Some b
            | Raise _ => buffers h !! r = None
            end.
Proof.
  unfold buffer_read. destruct (buffers h !! r); intros H; inversion H; auto.
Qed.

Lemma buffer_write_inv r b h h' o :
  buffer_write r b h = (h', o) ->
  match o with
  | Return _ => h' = heap_set_buffer r b h
  | Raise _ => h' = h
  end.
Proof.
  unfold buffer_write. destruct (buffers h !! r); intros H; inversion H; auto.
Qed.

Lemma bind_lift_inv {A B} (c : exn + A) (k : A -> M B) h h' o :
  bind (lift c) k h = (h', o) ->
  (exists e, c = inl e /\ h' = h /\ o = Raise e) \/
  (exists a, c = inr a /\ k a h = (h', o)).
Proof.
  destruct c as [e|a]; cbn; intros H.
  - left. inversion H. eauto.
  - right. eauto.
Qed.

Ltac lift_step H :=
  apply bind_lift_inv in H as [(? & _ & -> & ->)|(? & ? & H)];
  [try apply same_store_refl|].

Lemma clip_range_same_store vals b h h' o :
  clip_range vals b h = (h', o) -> same_store h h'.
Proof.
  unfold clip_range. intros H.
  lift_step H. lift_step H.
  apply bind_inv in H as [(e & H & Eo)|(over & h1 & K1 & H)].
  { clear Eo. destruct (_ <? _)%float; [inversion H|].
    apply bind_lift_inv in H as [(? & _ & -> & _)|(? & ? & H)];
      [apply same_store_refl|].
    apply bind_lift_inv in H as [(? & _ & -> & _)|(? & ? & H)];
      [apply same_store_refl|].
    inversion H. }
  assert (h1 = h) as ->.
  { destruct (_ <? _)%float; [now inversion K1|].
    apply bind_lift_inv in K1 as [(? & _ & _ & ?)|(? & ? & K1)]; [discriminate|].
    apply bind_lift_inv in K1 as [(? & _ & _ & ?)|(? & ? & K1)]; [discriminate|].
    now inversion K1. }
  apply bind_inv in H as [(e & H & ->)|([] & h1 & K2 & H)].
  { destruct over; inversion H. }
  assert (S1 : same_store h h1).
  { destruct over; inversion K2; [apply same_store_log | apply same_store_refl]. }
  apply bind_lift_inv in H as [(? & _ & -> & ->)|(? & ? & H)]; [assumption|].
  apply bind_lift_inv in H as [(? & _ & -> & ->)|(? & ? & H)]; [assumption|].
  inversion H; subst. assumption.
Qed.

Lemma quantize_data_same_store data s z b h h' o :
  quantize_data data s z b h = (h', o) -> same_store h h'.
Proof.
  unfold quantize_data. intros H. lift_step H.
  eapply clip_range_same_store, H.
Qed.

Lemma frame_refl T B h : frame T B h h.
Proof. repeat split; auto. Qed.

Lemma frame_trans T B h1 h2 h3 :
  frame T B h1 h2 -> frame T B h2 h3 -> frame T B h1 h3.
Proof.
  intros (A1 & A2 & A3 & A4 & A5) (B1 & B2 & B3 & B4 & B5).
  split; [congruence|]. split; [congruence|].
  split; [|split].
  - intros r Hr. rewrite B3, A3 by assumption. reflexivity.
  - intros p Hp. rewrite B4, A4 by assumption. reflexivity.
  - intros r. rewrite B5, A5. reflexivity.
Qed.

Lemma frame_same_store T B h h' : same_store h h' -> frame T B h h'.
Proof. intros [A C]. unfold frame. rewrite A, C. repeat split; auto. Qed.

Lemma frame_weaken (T T' B B' : nat -> Prop) h h' :
  (forall r, T r -> T' r) -> (forall p, B p -> B' p) ->
  frame T B h h' -> frame T' B' h h'.
Proof.
  intros HT HB (A1 & A2 & A3 & A4 & A5). repeat split; auto.
Qed.

Lemma frame_set_tensor (T B : nat -> Prop) r t t0 h :
  T r -> tensors h !! r = Some t0 -> buffer t = buffer t0 ->
  frame T B h (heap_set_tensor r t h).
Proof.
  intros Hr Ht Hb.
  split; [apply length_insert|]. split; [reflexivity|].
  split; [|split; [reflexivity|]]; cbn.
  - intros r' Hr'. apply list_lookup_insert_ne. congruence.
  - intros r'. destruct (decide (r = r')) as [<-|N].
    + rewrite list_lookup_insert_eq by (eapply lookup_lt_Some, Ht).
      rewrite Ht. cbn. now rewrite Hb.
    + now rewrite list_lookup_insert_ne.
Qed.

Lemma frame_set_buffer (T B : nat -> Prop) p b h :
  B p -> frame T B h (heap_set_buffer p b h).
Proof.
  intros Hp.
  split; [reflexivity|]. split; [apply length_insert|].
  split; [reflexivity|]. split; [|reflexivity]. cbn.
  intros p' Hp'. apply list_lookup_insert_ne. congruence.
Qed.

Lemma change_activation_tensor_8to16_frame r h h' o :
  change_activation_tensor_8to16 r h = (h', o) ->
  frame (eq r) (fun _ => False) h h'.
Proof.
  intros H. apply change_activation_tensor_8to16_inv in H.
  destruct o as [[]|e]; [|subst; apply frame_refl].
  destruct H as [[-> _]|(t & q & Ht & Hty & ->)]; [apply frame_refl|].
  eapply frame_trans; [|apply frame_same_store, same_store_log].
  eapply frame_set_tensor; [reflexivity|eassumption|reflexivity].
Qed.

Lemma set_bias_type_int64_frame i w b h h' o :
  set_bias_type_int64 i w b h = (h', o) ->
  frame (eq b)
    (fun p => exists tb, tensors h !! b = Some tb /\
                py_index (length (buffers h)) (buffer tb) = Some p) h h'.
Proof.
  unfold set_bias_type_int64. intros H.
  apply bind_inv in H as [(e & H & _)|(tb & h1 & K & H)];
    apply tensor_read_inv in K || apply tensor_read_inv in H;
    [destruct H as [-> _]; apply frame_refl|destruct K as [-> Htb]].
  apply bind_inv in H as [(e & H & _)|(pb & h1 & K & H)];
    [apply buffers_getitem_inv in H as [-> _]; apply frame_refl|].
  apply buffers_getitem_inv in K as [-> Hpb].
  apply bind_lift_inv in H as [(? & _ & -> & _)|(bias_scale & _ & H)];
    [apply frame_refl|].
  apply bind_lift_inv in H as [(? & _ & -> & _)|(bias_zero_pt & _ & H)];
    [apply frame_refl|].
  apply bind_inv in H as [(e & H & _)|(buf & h1 & K & H)];
    [apply buffer_read_inv in H as [-> _]; apply frame_refl|].
  apply buffer_read_inv in K as [-> Hbuf].
  apply bind_lift_inv in H as [(? & _ & -> & _)|(data & _ & H)];
    [apply frame_refl|].
  apply bind_lift_inv in H as [(? & _ & -> & _)|(deq & _ & H)];
    [apply frame_refl|].
  apply bind_inv in H as [(e & H & _)|(ti & h1 & K & H)];
    [apply tensor_read_inv in H as [-> _]; apply frame_refl|].
  apply tensor_read_inv in K as [-> Hti].
  apply bind_lift_inv in H as [(? & _ & -> & _)|(si & _ & H)];
    [apply frame_refl|].
  apply bind_inv in H as [(e & H & _)|(tw & h1 & K & H)];
    [apply tensor_read_inv in H as [-> _]; apply frame_refl|].
  apply tensor_read_inv in K as [-> Htw].
  apply bind_lift_inv in H as [(? & _ & -> & _)|(sw & _ & H)];
    [apply frame_refl|].
  apply bind_inv in H as [(e & H & _)|(q & h1 & K & H)];
    [apply frame_same_store; eapply quantize_data_same_store, H|].
  apply quantize_data_same_store in K.
  eapply frame_trans; [apply frame_same_store, K|].
  destruct K as [KT KB].
  assert (FB : frame (eq b)
            (fun p => exists tb, tensors h !! b = Some tb /\
                py_index (length (buffers h)) (buffer tb) = Some p) h1
            (heap_set_buffer pb {| data := tobytes_int64 (map astype_int64 q) |} h1)).
  { apply frame_set_buffer. eauto. }
  apply bind_inv in H as [(e & H & _)|([] & h2 & K & H)];
    [apply buffer_write_inv in H as ->; apply frame_refl|].
  apply buffer_write_inv in K as ->.
  eapply frame_trans; [exact FB|].
  rewrite (bind_lift_eq _ _ _ _ TENSOR_TYPE_CODE_int64) in H.
  set (h2 := heap_set_buffer pb _ h1) in *.
  assert (Htb2 : tensors h2 !! b = Some tb) by (cbn; congruence).
  erewrite bind_eq in H by (eapply tensor_update_ok; eassumption).
  erewrite bind_eq in H
    by (eapply tensor_update_ok, heap_set_tensor_lookup; eassumption).
  rewrite heap_set_tensor_twice in H.
  erewrite bind_eq in H
    by (eapply tensor_update_ok, heap_set_tensor_lookup; eassumption).
  rewrite heap_set_tensor_twice in H.
  erewrite bind_eq in H
    by (eapply tensor_read_ok, heap_set_tensor_lookup; eassumption).
  rewrite logging_info_eq in H. inversion H; subst h' o.
  eapply frame_trans; [|apply frame_same_store, same_store_log].
  eapply frame_set_tensor; [reflexivity|eassumption|reflexivity].
Qed.

(* ===================================================================== *)
(** ** Buffers, clipping and quantization *)
(* ===================================================================== *)

Lemma Z_of_byte_of_Z n : Z_of_byte (byte_of_Z n) = n mod 256.
Proof.
  unfold Z_of_byte, byte_of_Z.
  pose proof (Z.mod_pos_bound n 256 ltac:(lia)) as B.
  destruct (Byte.of_N (Z.to_N (n mod 256))) as [b|] eqn:E.
  - apply Byte.to_of_N in E. simpl. rewrite E. lia.
  - apply Byte.of_N_None_iff in E. lia.
Qed.

Lemma le_value_le_bytes w n :
  le_value (le_bytes w n) = n mod 256 ^ Z.of_nat w.
Proof.
  revert n. induction w as [|w IH]; intros n.
  - cbn. now rewrite Z.mod_1_r.
  - cbn [le_bytes le_value]. rewrite IH, Z_of_byte_of_Z.
    rewrite Nat2Z.inj_succ, Z.pow_succ_r by lia.
    rewrite Z.rem_mul_r by lia. reflexivity.
Qed.

Lemma wrap_in_int n : in_int 32 n = true -> wrap 32 (n mod 2 ^ 32) = n.
Proof.
  unfold in_int, wrap. rewrite andb_true_iff, Z.leb_le, Z.ltb_lt.
  change (32 - 1) with 31. intros [L U].
  rewrite Zplus_mod_idemp_l. rewrite Z.mod_small; lia.
Qed.

(** The bytes of an [int32] array decode to the array. *)
Lemma frombuffer_tobytes_int32 q :
  Forall (fun n => in_int 32 n = true) q ->
  frombuffer_int32 (tobytes_int32 q) = inr q.
Proof.
  induction 1 as [|n q Hn _ IH]; [reflexivity|].
  unfold tobytes_int32 in *. cbn [flat_map].
  change (le_bytes 4 n) with
    [byte_of_Z n; byte_of_Z (n / 256); byte_of_Z (n / 256 / 256);
     byte_of_Z (n / 256 / 256 / 256)].
  cbn [app frombuffer_int32]. rewrite IH.
  change [byte_of_Z n; byte_of_Z (n / 256); byte_of_Z (n / 256 / 256);
     byte_of_Z (n / 256 / 256 / 256)] with (le_bytes 4 n).
  rewrite le_value_le_bytes. change (256 ^ Z.of_nat 4) with (2 ^ 32).
  now rewrite wrap_in_int.
Qed.

Lemma clip_range_ok vals b lo hi h :
  vals <> [] ->
  as_float64 (py_neg (py_pow2 (b - 1))) = inr lo ->
  as_float64 (py_pred (py_pow2 (b - 1))) = inr hi ->
  clip_range vals b h =
    ((if overflows lo hi vals then heap_log overflow_warning h else h),
     Return (map (np_clip1 lo hi) vals)).
Proof.
  intros Hv Hlo Hhi. unfold clip_range, overflows.
  destruct vals as [|v vals]; [contradiction|].
  cbn [np_max np_min].
  erewrite bind_lift_eq by reflexivity.
  erewrite bind_lift_eq by exact Hhi.
  destruct (hi <? fold_left np_maximum vals v)%float eqn:E1.
  - cbn [orb]. rewrite bind_ret_l.
    erewrite bind_eq by apply logging_info_eq.
    erewrite bind_lift_eq by exact Hlo.
    erewrite bind_lift_eq by exact Hhi. reflexivity.
  - cbn [orb].
    erewrite bind_eq.
    2:{ erewrite bind_lift_eq by reflexivity.
        erewrite bind_lift_eq by exact Hlo. reflexivity. }
    destruct (fold_left np_minimum vals v <? lo)%float.
    + erewrite bind_eq by apply logging_info_eq.
      erewrite bind_lift_eq by exact Hlo.
      erewrite bind_lift_eq by exact Hhi. reflexivity.
    + rewrite bind_ret_l.
      erewrite bind_lift_eq by exact Hlo.
      erewrite bind_lift_eq by exact Hhi. reflexivity.
Qed.

Lemma quantize_data_ok data s z b zp lo hi h :
  data <> [] ->
  py_float z = inr zp ->
  as_float64 (py_neg (py_pow2 (b - 1))) = inr lo ->
  as_float64 (py_pred (py_pow2 (b - 1))) = inr hi ->
  let vals := map (fun x => (np_round (x / s) + zp)%float) data in
  quantize_data data s z b h =
    ((if overflows lo hi vals then heap_log overflow_warning h else h),
     Return (map (np_clip1 lo hi) vals)).
Proof.
  intros Hd Hz Hlo Hhi vals. unfold quantize_data.
  erewrite bind_lift_eq by exact Hz.
  apply clip_range_ok; [|assumption..].
  unfold vals. destruct data; [contradiction|discriminate].
Qed.

Lemma dequantize_data_int32_ok q s z :
  in_int 64 z = true ->
  exists deq, dequantize_data (NdInt32 q) s z = inr deq /\ length deq = length q.
Proof.
  intros Hz. unfold dequantize_data, sub_zero_point. rewrite Hz.
  destruct (in_int 32 z); eexists; (split; [reflexivity|]);
    now rewrite !length_map.
Qed.

Lemma buffers_getitem_ok h i r :
  py_index (length (buffers h)) i = Some r -> buffers_getitem i h = (h, Return r).
Proof. intros H. unfold buffers_getitem. now rewrite H. Qed.

Lemma buffer_read_ok h r b :
  buffers h !! r = Some b -> buffer_read r h = (h, Return b).
Proof. intros H. unfold buffer_read. now rewrite H. Qed.

Lemma buffer_write_ok h r b b0 :
  buffers h !! r = Some b0 -> buffer_write r b h = (heap_set_buffer r b h, Return tt).
Proof. intros H. unfold buffer_write. now rewrite H. Qed.

Lemma change_activation_tensor_8to16_frame_in (T B : nat -> Prop) r h h' o :
  T r -> change_activation_tensor_8to16 r h = (h', o) -> frame T B h h'.
Proof.
  intros Hr H. eapply frame_weaken;
    [| |eapply change_activation_tensor_8to16_frame, H];
    [intros ? <-; assumption|intros p []].
Qed.

Lemma quantize_data_examples h :
  quantize_data [1000%float] 1 0 8 h = (heap_log overflow_warning h, Return [127%float]) /\
  quantize_data [(-1000)%float] 1 0 8 h = (heap_log overflow_warning h, Return [(-128)%float]).
Proof.
  split.
  - rewrite (quantize_data_ok _ _ _ _ 0 (-128) 127 h)
      by (discriminate || reflexivity). reflexivity.
  - rewrite (quantize_data_ok _ _ _ _ 0 (-128) 127 h)
      by (discriminate || reflexivity). reflexivity.
Qed.

Lemma forallb_Z_range (P : Z -> bool) (a : Z) (n : nat) :
  forallb P (map (fun i => a + Z.of_nat i) (seq 0 n)) = true ->
  forall z, a <= z < a + Z.of_nat n -> P z = true.
Proof.
  intros H z Hz. rewrite forallb_forall in H. apply H.
  apply in_map_iff. exists (Z.to_nat (z - a)). split; [lia|].
  apply in_seq. lia.
Qed.

Lemma exact_bounds_54 b : 1 <= b <= 54 -> exact_bounds b = true.
Proof.
  intros Hb. apply (forallb_Z_range exact_bounds 1 54); [|lia].
  vm_compute. reflexivity.
Qed.

Lemma exact_bounds_spec b :
  exact_bounds b = true ->
  float_to_Z (Z2float (- 2 ^ (b - 1))) = Some (- 2 ^ (b - 1)) /\
  float_to_Z (Z2float (2 ^ (b - 1) - 1)) = Some (2 ^ (b - 1) - 1) /\
  (Z2float (- 2 ^ (b - 1)) <=? Z2float (2 ^ (b - 1) - 1))%float = true.
Proof.
  unfold exact_bounds.
  destruct (float_to_Z (Z2float (- 2 ^ (b - 1)))) as [l|]; [|discriminate].
  destruct (float_to_Z (Z2float (2 ^ (b - 1) - 1))) as [u|]; [|discriminate].
  rewrite !andb_true_iff, !Z.eqb_eq. intros [[-> ->] H]. auto.
Qed.

Lemma pow2_bounds b : 1 <= b <= 1000 -> 1 <= 2 ^ (b - 1) <= 2 ^ 999.
Proof.
  intros Hb. split.
  - apply (Z.pow_le_mono_r 2 0 (b - 1)); lia.
  - apply Z.pow_le_mono_r; lia.
Qed.

Lemma as_float64_bounds b :
  1 <= b <= 1000 ->
  as_float64 (py_neg (py_pow2 (b - 1))) = inr (Z2float (- 2 ^ (b - 1))) /\
  as_float64 (py_pred (py_pow2 (b - 1))) = inr (Z2float (2 ^ (b - 1) - 1)).
Proof.
  intros Hb. unfold py_pow2.
  assert ((0 <=? b - 1) = true) as -> by (apply Z.leb_le; lia).
  pose proof (pow2_bounds b Hb).
  assert (2 ^ 999 <= 2 ^ 1000) by (apply Z.pow_le_mono_r; lia).
  cbn [py_neg py_pred as_float64]. split; apply py_float_ok; lia.
Qed.

(* ===================================================================== *)
(** ** Rounding errors of the round trip *)
(* ===================================================================== *)

(** Rounding in the normal range: the mantissa handed to [binary_round_aux]
    has at least 53 digits, and the result neither underflows nor
    overflows. *)
Lemma round_half_even_div_le N D :
  0 <= N -> 0 < D -> 2 * Z.abs (round_half_even_div N D * D - N) <= D.
Proof.
  intros HN HD. unfold round_half_even_div.
  pose proof (Z.div_mod N D ltac:(lia)) as E.
  pose proof (Z.mod_pos_bound N D HD) as B.
  destruct (Z.compare_spec (2 * (N mod D)) D) as [C|C|C];
    [destruct (Z.even (N / D))|..]; nia.
Qed.

Lemma round_half_even_div_nearest N D n :
  0 < D -> 2 * Z.abs (n * D - N) < D -> round_half_even_div N D = n.
Proof.
  intros HD Hn. unfold round_half_even_div.
  pose proof (Z.div_mod N D ltac:(lia)) as E.
  pose proof (Z.mod_pos_bound N D HD) as B.
  assert (n = N / D \/ n = N / D + 1) as [->| ->] by nia.
  - destruct (Z.compare_spec (2 * (N mod D)) D) as [C|C|C]; [nia|reflexivity|nia].
  - destruct (Z.compare_spec (2 * (N mod D)) D) as [C|C|C]; [nia|nia|reflexivity].
Qed.

Lemma round_half_even_div_exact N D :
  0 < D -> N mod D = 0 -> round_half_even_div N D = N / D.
Proof.
  intros HD H. unfold round_half_even_div. rewrite H.
  destruct (Z.compare_spec (2 * 0) D); [lia|reflexivity|lia].
Qed.

Lemma fexp_normal x : - 1021 <= x -> fexp prec emax x = x - 53.
Proof. unfold fexp, SpecFloat.emin, emax, prec. lia. Qed.

Lemma binary_round_aux_normal sx m e l N D :
  represents (shr_record_of_loc m l) N D ->
  53 <= Zdigits2 m ->
  - 1074 <= e + (Zdigits2 m - 53) <= 970 ->
  let k := Zdigits2 m - 53 in
  let m1 := round_half_even_div N (2 ^ k * D) in
  exists p e',
    binary_round_aux prec emax sx m e l = S754_finite sx p e' /\
    valid_binary (S754_finite sx p e') = true /\
    Zpos p * 2 ^ (e' - (e + k)) = m1 /\
    e + k <= e' <= e + k + 1 /\
    2 ^ 52 <= Zpos p < 2 ^ 53.
Proof.
  intros R Hd He k m1.
  pose proof R as (HN & HD & Hm & _). cbn in Hm.
  assert (Hm' : shr_m (shr_record_of_loc m l) = m) by (destruct l as [|[]]; reflexivity).
  rewrite Hm' in Hm.
  assert (Hmpos : 0 < m).
  { destruct m as [|q|q]; cbn in Hd; try lia.
    pose proof (Z.div_pos N D HN HD). lia. }
  rewrite (binary_round_aux_spec sx m e l N D R). cbv zeta.
  rewrite (fexp_normal (Zdigits2 m + e)) by lia.
  replace (Z.max 0 (Zdigits2 m + e - 53 - e)) with (Zdigits2 m - 53) by lia.
  fold k. fold m1.
  assert (Hk : 0 <= k) by (unfold k; lia).
  assert (Hek : - 1074 <= e + k <= 970) by (unfold k; lia).
  assert (Hdk : Zdigits2 m = 53 + k) by (unfold k; lia).
  clearbody k.
  assert (P2k : 0 < 2 ^ k) by (apply Z.pow_pos_nonneg; lia).
  pose proof (Zdigits2_bounds m Hmpos) as [B1 B2].
  (* the quotient by [2^k] has 53 digits *)
  assert (Hq : N / (2 ^ k * D) = m / 2 ^ k).
  { rewrite Z.mul_comm, <- Z.div_div by lia. now rewrite <- Hm. }
  assert (Hq1 : 2 ^ 52 <= m / 2 ^ k < 2 ^ 53).
  { replace (Zdigits2 m - 1) with (52 + k) in B1 by lia.
    rewrite Hdk in B2.
    rewrite Z.pow_add_r in B1, B2 by lia. split.
    - apply Z.div_le_lower_bound; lia.
    - apply Z.div_lt_upper_bound; lia. }
  pose proof (round_half_even_div_bounds N (2 ^ k * D) ltac:(nia)) as [M1 M2].
  fold m1 in M1, M2. rewrite Hq in M1, M2.
  destruct (Z.eq_dec m1 (2 ^ 53)) as [E53|N53].
  - (* the rounding carries into the next binade *)
    assert (Zdigits2 m1 = 54) as ->.
    { apply Zdigits2_unique; rewrite E53; [lia|]. change (54 - 1) with 53. lia. }
    rewrite fexp_normal by lia.
    replace (Z.max 0 (54 + (e + k) - 53 - (e + k))) with 1 by lia.
    rewrite E53. change (2 ^ 53 / 2 ^ 1) with (Zpos (Z.to_pos (2 ^ 52))).
    assert ((e + k + 1 <=? emax - prec) = true) as ->
      by (apply Z.leb_le; unfold emax, prec; lia).
    eexists _, _. split; [reflexivity|].
    split.
    { unfold SpecFloat.valid_binary, SpecFloat.bounded, SpecFloat.canonical_mantissa.
      change (Zpos (digits2_pos (Z.to_pos (2 ^ 52)))) with 53.
      rewrite fexp_normal by lia.
      apply andb_true_iff. split; [apply Z.eqb_eq; lia|].
      apply Z.leb_le. unfold emax, prec. lia. }
    split; [|split; [lia|]].
    + replace (e + k + 1 - (e + k)) with 1 by lia. reflexivity.
    + change (Zpos (Z.to_pos (2 ^ 52))) with (2 ^ 52). lia.
  - assert (Hm1 : 2 ^ 52 <= m1 < 2 ^ 53) by lia.
    assert (Zdigits2 m1 = 53) as ->
      by (apply Zdigits2_unique; [lia|]; change (53 - 1) with 52; lia).
    rewrite fexp_normal by lia.
    replace (Z.max 0 (53 + (e + k) - 53 - (e + k))) with 0 by lia.
    change (2 ^ 0) with 1. rewrite Z.div_1_r, Z.add_0_r.
    destruct m1 as [|p|p] eqn:Em1; try lia.
    assert ((e + k <=? emax - prec) = true) as ->
      by (apply Z.leb_le; unfold emax, prec; lia).
    exists p, (e + k). split; [reflexivity|].
    split.
    { unfold SpecFloat.valid_binary, SpecFloat.bounded, SpecFloat.canonical_mantissa.
      assert (Zpos (digits2_pos p) = 53) as ->.
      { change (Zpos (digits2_pos p)) with (Zdigits2 (Zpos p)).
        apply Zdigits2_unique; [lia|]. change (53 - 1) with 52. lia. }
      rewrite fexp_normal by lia.
      apply andb_true_iff. split; [apply Z.eqb_eq; lia|].
      apply Z.leb_le. unfold emax, prec. lia. }
    split; [|split; [lia|lia]].
    replace (e + k - (e + k)) with 0 by lia. lia.
Qed.

Lemma bpow_gt_0 e : (0 < bpow e)%R.
Proof. apply powerRZ_lt. lra. Qed.

Lemma bpow_add a b : bpow (a + b) = (bpow a * bpow b)%R.
Proof. apply powerRZ_add. lra. Qed.

Lemma bpow_IZR k : 0 <= k -> bpow k = IZR (2 ^ k).
Proof.
  intros Hk. unfold bpow. rewrite <- (Z2Nat.id k) by assumption.
  rewrite <- pow_powerRZ, pow_IZR. reflexivity.
Qed.

Lemma bpow_le a b : a <= b -> (bpow a <= bpow b)%R.
Proof.
  intros H. replace b with (a + (b - a)) by lia.
  rewrite bpow_add, (bpow_IZR (b - a)) by lia.
  assert (1 <= 2 ^ (b - a)) by (apply (Z.pow_le_mono_r 2 0); lia).
  apply IZR_le in H0. pose proof (bpow_gt_0 a). nra.
Qed.

Lemma bpow_lt a b : a < b -> (bpow a < bpow b)%R.
Proof.
  intros H. replace b with (a + (b - a)) by lia.
  rewrite bpow_add, (bpow_IZR (b - a)) by lia.
  assert (2 <= 2 ^ (b - a)).
  { replace (b - a) with (1 + (b - a - 1)) by lia.
    rewrite Z.pow_add_r by lia.
    assert (1 <= 2 ^ (b - a - 1)) by (apply (Z.pow_le_mono_r 2 0); lia). lia. }
  apply IZR_le in H0. pose proof (bpow_gt_0 a). nra.
Qed.

Lemma bpow_0 : bpow 0 = 1%R.
Proof. reflexivity. Qed.

Lemma bpow_opp e : bpow (- e) = (/ bpow e)%R.
Proof. apply powerRZ_neg'. Qed.

(** The value of a rounded product or quotient, and its error. *)
Lemma binary_round_aux_value sx m e l N D :
  represents (shr_record_of_loc m l) N D ->
  53 <= Zdigits2 m ->
  - 1074 <= e + (Zdigits2 m - 53) <= 970 ->
  exists p e',
    binary_round_aux prec emax sx m e l = S754_finite sx p e' /\
    valid_binary (S754_finite sx p e') = true /\
    2 ^ 52 <= Zpos p < 2 ^ 53 /\
    e + (Zdigits2 m - 53) <= e' <= e + (Zdigits2 m - 53) + 1 /\
    (Rabs (IZR (Zpos p) * bpow e' - IZR N / IZR D * bpow e)
       <= bpow (- 53) * (IZR N / IZR D * bpow e))%R.
Proof.
  intros R Hd He.
  destruct (binary_round_aux_normal sx m e l N D R Hd He)
    as (p & e' & E & V & Hp & He' & Pp).
  exists p, e'. repeat (split; [assumption|]).
  set (k := Zdigits2 m - 53) in *.
  set (m1 := round_half_even_div N (2 ^ k * D)) in *.
  destruct R as (HN & HD & Hm & _).
  assert (Hm' : m = N / D) by (rewrite <- Hm; destruct l as [|[]]; reflexivity).
  assert (Hk : 0 <= k) by (unfold k; lia).
  assert (P2k : 0 < 2 ^ k) by (apply Z.pow_pos_nonneg; lia).
  assert (Hmpos : 0 < m).
  { pose proof (Z.div_pos N D HN HD). rewrite <- Hm' in *.
    destruct (Z.eq_dec m 0) as [E0|]; [|lia].
    rewrite E0 in Hd. cbn in Hd. lia. }
  pose proof (Zdigits2_bounds m Hmpos) as [B1 _].
  replace (Zdigits2 m - 1) with (52 + k) in B1 by (unfold k; lia).
  rewrite Z.pow_add_r in B1 by lia.
  pose proof (round_half_even_div_le N (2 ^ k * D) HN ltac:(nia)) as Err.
  fold m1 in Err.
  (* to the reals *)
  assert (Ep : (IZR (Zpos p) * bpow e' = IZR m1 * bpow k * bpow e)%R).
  { rewrite <- Hp, mult_IZR.
    rewrite <- (bpow_IZR (e' - (e + k))) by lia.
    replace e' with ((e' - (e + k)) + (k + e)) at 1 by lia.
    rewrite !bpow_add. ring. }
  rewrite Ep.
  assert (RD : (0 < IZR D)%R) by (apply IZR_lt; lia).
  assert (RN : (IZR (2 ^ 52 * 2 ^ k) * IZR D <= IZR N)%R).
  { rewrite <- mult_IZR. apply IZR_le.
    pose proof (Z.div_mod N D ltac:(lia)). pose proof (Z.mod_pos_bound N D HD).
    rewrite <- Hm' in *. nia. }
  rewrite mult_IZR in RN.
  assert (RE : (2 * Rabs (IZR m1 * (IZR (2 ^ k) * IZR D) - IZR N)
                <= IZR (2 ^ k) * IZR D)%R).
  { rewrite <- !mult_IZR, <- minus_IZR, <- abs_IZR, <- mult_IZR.
    apply IZR_le. exact Err. }
  rewrite <- (bpow_IZR k) in RE, RN by lia.
  pose proof (bpow_gt_0 k) as Pk. pose proof (bpow_gt_0 e) as Pe.
  replace (IZR m1 * bpow k * bpow e - IZR N / IZR D * bpow e)%R
    with ((IZR m1 * (bpow k * IZR D) - IZR N) * (bpow e / IZR D))%R
    by (field; lra).
  rewrite Rabs_mult.
  rewrite (Rabs_pos_eq (bpow e / IZR D))
    by (apply Rlt_le, Rdiv_lt_0_compat; assumption).
  assert (B53 : bpow (-53) = (/ IZR (2 ^ 53))%R).
  { change (-53) with (- (53)). rewrite bpow_opp, bpow_IZR by lia. reflexivity. }
  rewrite B53.
  assert (R52 : IZR (2 ^ 53) = (2 * IZR (2 ^ 52))%R).
  { rewrite <- mult_IZR. reflexivity. }
  assert (P52 : (0 < IZR (2 ^ 52))%R) by (apply IZR_lt; lia).
  assert (PQ : (0 < bpow e / IZR D)%R) by (apply Rdiv_lt_0_compat; assumption).
  set (A := Rabs (IZR m1 * (bpow k * IZR D) - IZR N)) in *.
  set (Q := (bpow e / IZR D)%R) in *.
  replace (/ IZR (2 ^ 53) * (IZR N / IZR D * bpow e))%R
    with (IZR N / IZR (2 ^ 53) * Q)%R by (unfold Q; field; lra).
  apply Rmult_le_compat_r; [lra|].
  apply Rmult_le_reg_r with (IZR (2 ^ 53)); [lra|].
  replace (IZR N / IZR (2 ^ 53) * IZR (2 ^ 53))%R with (IZR N) by (field; lra).
  rewrite R52. nra.
Qed.

Lemma Zdigits2_range m a b :
  0 <= a -> 2 ^ a <= m < 2 ^ b -> a + 1 <= Zdigits2 m <= b.
Proof.
  intros Ha [L U].
  assert (0 < m) by (pose proof (Z.pow_pos_nonneg 2 a); lia).
  pose proof (Zdigits2_bounds m H) as [B1 B2].
  pose proof (Zdigits2_nonneg m).
  split.
  - destruct (Z_lt_le_dec (Zdigits2 m) (a + 1)) as [C|C]; [|assumption].
    assert (2 ^ Zdigits2 m <= 2 ^ a) by (apply Z.pow_le_mono_r; lia). lia.
  - destruct (Z_lt_le_dec b (Zdigits2 m)) as [C|C]; [|assumption].
    assert (0 <= b).
    { destruct (Z_lt_le_dec b 0); [|assumption].
      rewrite Z.pow_neg_r in U by assumption. lia. }
    assert (2 ^ b <= 2 ^ (Zdigits2 m - 1)) by (apply Z.pow_le_mono_r; lia). lia.
Qed.

Lemma new_location_represents N d :
  0 <= N -> 0 < d ->
  represents (shr_record_of_loc (N / d) (new_location d (N mod d))) N d.
Proof.
  intros HN Hd. pose proof (Z.mod_pos_bound N d Hd) as B.
  unfold represents. split; [assumption|]. split; [assumption|].
  unfold new_location.
  destruct (Z.even d) eqn:Ev;
    [unfold new_location_even|unfold new_location_odd];
    destruct (Z.eqb_spec (N mod d) 0) as [E0|N0];
    try (rewrite E0; cbn; split; reflexivity).
  - destruct (Z.compare_spec (2 * (N mod d)) d) as [C|C|C]; cbn;
      (split; [reflexivity|lia]).
  - assert (Od : Z.odd d = true) by (rewrite <- Z.negb_even, Ev; reflexivity).
    apply Z.odd_spec in Od as (c & Ec).
    destruct (Z.compare_spec (2 * (N mod d) + 1) d) as [C|C|C]; cbn;
      (split; [reflexivity|lia]).
Qed.

(* ===================================================================== *)
(** ** Integers as binary64 numbers *)
(* ===================================================================== *)

Lemma Zdigits2_abs n : Zdigits2 (Z.abs n) = Zdigits2 n.
Proof. destruct n; reflexivity. Qed.

Lemma Zdigits2_small n : n <> 0 -> Z.abs n < 2 ^ 53 -> 1 <= Zdigits2 n <= 53.
Proof.
  intros N0 H. rewrite <- Zdigits2_abs.
  pose proof (Zdigits2_range (Z.abs n) 0 53 ltac:(lia)
                ltac:(change (2 ^ 0) with 1; lia)). lia.
Qed.

Lemma canon_mantissa a :
  0 < a < 2 ^ 53 ->
  2 ^ 52 <= a * 2 ^ (53 - Zdigits2 a) < 2 ^ 53.
Proof.
  intros Ha. pose proof (Zdigits2_bounds a ltac:(lia)) as [B1 B2].
  pose proof (Zdigits2_small a ltac:(lia) ltac:(lia)) as Hd.
  set (d := Zdigits2 a) in *.
  assert (P : 0 < 2 ^ (53 - d)) by (apply Z.pow_pos_nonneg; lia).
  assert (E52 : 2 ^ 52 = 2 ^ (d - 1) * 2 ^ (53 - d))
    by (rewrite <- Z.pow_add_r by lia; f_equal; lia).
  assert (E53 : 2 ^ 53 = 2 ^ d * 2 ^ (53 - d))
    by (rewrite <- Z.pow_add_r by lia; f_equal; lia).
  rewrite E52, E53 at 1. split.
  - apply Z.mul_le_mono_nonneg_r; lia.
  - apply Z.mul_lt_mono_pos_r; lia.
Qed.

(** Rounding an integer multiple of a power of two that needs at most 53
    bits is exact. *)
Lemma binary_round_exact s a e :
  0 < a < 2 ^ 53 -> - 1000 <= e <= 0 ->
  binary_round prec emax s (Z.to_pos (a * 2 ^ (- e))) e
    = S754_finite s (Z.to_pos (a * 2 ^ (53 - Zdigits2 a))) (Zdigits2 a - 53).
Proof.
  intros Ha He.
  pose proof (Zdigits2_small a ltac:(lia) ltac:(lia)) as Hd.
  pose proof (canon_mantissa a Ha) as Hc.
  set (d := Zdigits2 a) in *.
  assert (Pe : 0 < 2 ^ (- e)) by (apply Z.pow_pos_nonneg; lia).
  unfold binary_round. rewrite shl_align_spec. cbv zeta.
  assert (Hmx : Zpos (Z.to_pos (a * 2 ^ (- e))) = a * 2 ^ (- e))
    by (apply Z2Pos.id; nia).
  change (Zpos (digits2_pos (Z.to_pos (a * 2 ^ (- e)))))
    with (Zdigits2 (Zpos (Z.to_pos (a * 2 ^ (- e))))).
  rewrite Hmx, Zdigits2_mul_pow2 by lia. fold d.
  replace (d + - e + e) with d by lia.
  rewrite fexp_normal by lia.
  set (k0 := Z.max 0 (e - (d - 53))).
  assert (Pk0 : 0 < 2 ^ k0) by (apply Z.pow_pos_nonneg; lia).
  set (mz := a * 2 ^ (- e) * 2 ^ k0).
  assert (Hmz : Zpos (Z.to_pos mz) = mz) by (apply Z2Pos.id; unfold mz; nia).
  rewrite Hmz.
  assert (Dmz : Zdigits2 mz = d - e + k0).
  { unfold mz. rewrite <- Z.mul_assoc, <- Z.pow_add_r by lia.
    rewrite Zdigits2_mul_pow2 by lia. fold d. lia. }
  destruct (binary_round_aux_normal s mz (e - k0) loc_Exact mz 1
              (represents_exact mz ltac:(unfold mz; nia))
              ltac:(lia) ltac:(lia))
    as (p & e' & E & _ & Hp & He' & Pp).
  rewrite E. rewrite Dmz in Hp, He'.
  set (k := d - e + k0 - 53) in *.
  assert (Hk : 0 <= k <= - e + k0) by (unfold k; lia).
  assert (Em : mz = a * 2 ^ (53 - d) * 2 ^ k).
  { unfold mz. rewrite <- !Z.mul_assoc, <- !Z.pow_add_r by lia.
    f_equal. f_equal. unfold k. lia. }
  assert (P2k : 0 < 2 ^ k) by (apply Z.pow_pos_nonneg; lia).
  rewrite Z.mul_1_r in Hp.
  rewrite round_half_even_div_exact in Hp
    by (try lia; rewrite Em; apply Z.mod_mul; lia).
  rewrite Em, Z.div_mul in Hp by lia.
  assert (e' = e - k0 + k) as ->.
  { destruct (Z.eq_dec e' (e - k0 + k)) as [|N]; [assumption|].
    assert (e' = e - k0 + k + 1) as -> by lia.
    replace (e - k0 + k + 1 - (e - k0 + k)) with 1 in Hp by lia.
    change (2 ^ 1) with 2 in Hp. lia. }
  replace (e - k0 + k - (e - k0 + k)) with 0 in Hp by lia.
  change (2 ^ 0) with 1 in Hp. rewrite Z.mul_1_r in Hp.
  f_equal.
  - rewrite <- Hp. now rewrite Pos2Z.id.
  - unfold k. lia.
Qed.

Lemma binary_normalize_int n e :
  n <> 0 -> Z.abs n < 2 ^ 53 -> - 1000 <= e <= 0 ->
  binary_normalize prec emax (n * 2 ^ (- e)) e false = canon n.
Proof.
  intros N0 Hn He.
  assert (Pe : 0 < 2 ^ (- e)) by (apply Z.pow_pos_nonneg; lia).
  destruct n as [|a|a]; [contradiction|..]; cbn [canon Z.abs Z.ltb Z.compare].
  - pose proof (binary_round_exact false (Zpos a) e ltac:(lia) He) as E.
    destruct (Zpos a * 2 ^ (- e)) as [|q|q] eqn:Eq; try nia.
    cbn [binary_normalize]. cbn [Z.to_pos] in E. exact E.
  - pose proof (binary_round_exact true (Zpos a) e ltac:(lia) He) as E.
    change (Zneg a) with (- Zpos a). rewrite Z.mul_opp_l.
    destruct (Zpos a * 2 ^ (- e)) as [|q|q] eqn:Eq; try nia.
    cbn [binary_normalize Z.opp]. cbn [Z.to_pos] in E. exact E.
Qed.

Lemma canon_valid n : Z.abs n < 2 ^ 53 -> valid_binary (canon n) = true.
Proof.
  intros Hn. destruct (Z.eq_dec n 0) as [->|N0]; [reflexivity|].
  pose proof (Zdigits2_small n N0 Hn) as Hd.
  pose proof (canon_mantissa (Z.abs n) ltac:(lia)) as Hc.
  rewrite Zdigits2_abs in Hc.
  destruct n as [|a|a]; [contradiction|..]; cbn [canon];
    unfold SpecFloat.valid_binary, SpecFloat.bounded, SpecFloat.canonical_mantissa;
    match goal with |- context [digits2_pos ?p] =>
      change (Zpos (digits2_pos p)) with (Zdigits2 (Zpos p));
      assert (Zdigits2 (Zpos p) = 53) as ->
        by (apply Zdigits2_unique; rewrite Z2Pos.id by lia;
            [lia|change (53 - 1) with 52; exact Hc])
    end;
    rewrite fexp_normal by lia;
    apply andb_true_iff; (split; [apply Z.eqb_eq|apply Z.leb_le; unfold emax, prec]); lia.
Qed.

(** The conversion of an integer of at most 53 bits is exact. *)
Lemma Z2float_canon n : Z.abs n < 2 ^ 53 -> Prim2SF (Z2float n) = canon n.
Proof.
  intros Hn. unfold Z2float.
  destruct (Z.eq_dec n 0) as [->|N0]; [reflexivity|].
  pose proof (binary_normalize_int n 0 N0 Hn ltac:(lia)) as E.
  change (2 ^ (- 0)) with 1 in E. rewrite Z.mul_1_r in E. rewrite E.
  apply Prim2SF_SF2Prim, canon_valid, Hn.
Qed.

(** The mantissa of [canon n], aligned to a smaller exponent. *)
Lemma canon_align n ez :
  n <> 0 -> Z.abs n < 2 ^ 53 -> ez <= Zdigits2 n - 53 -> - 1000 <= ez ->
  cond_Zopp (n <? 0)
    (Zpos (fst (shl_align (Z.to_pos (Z.abs n * 2 ^ (53 - Zdigits2 n)))
                  (Zdigits2 n - 53) ez)))
  = n * 2 ^ (- ez).
Proof.
  intros N0 Hn He1 He2.
  pose proof (Zdigits2_small n N0 Hn) as Hd.
  pose proof (canon_mantissa (Z.abs n) ltac:(lia)) as Hc.
  rewrite Zdigits2_abs in Hc.
  rewrite shl_align_spec. cbn [fst].
  rewrite Z.max_r by lia.
  rewrite (Z2Pos.id (Z.abs n * _)) by lia.
  assert (P : 0 < 2 ^ (Zdigits2 n - 53 - ez)) by (apply Z.pow_pos_nonneg; lia).
  rewrite Z2Pos.id by nia.
  rewrite <- Z.mul_assoc, <- Z.pow_add_r by lia.
  replace (53 - Zdigits2 n + (Zdigits2 n - 53 - ez)) with (- ez) by lia.
  unfold cond_Zopp. destruct (Z.ltb_spec n 0); lia.
Qed.

Lemma canon_exponent n :
  n <> 0 -> Z.abs n < 2 ^ 53 -> - 52 <= Zdigits2 n - 53 <= 0.
Proof. intros N0 Hn. pose proof (Zdigits2_small n N0 Hn). lia. Qed.

(** Sums and differences of integers are exact as long as they need at most
    53 bits. *)
Lemma SFsub_canon a b :
  Z.abs a < 2 ^ 53 -> Z.abs b < 2 ^ 53 -> Z.abs (a - b) < 2 ^ 53 ->
  SFsub prec emax (canon a) (canon b) = canon (a - b).
Proof.
  intros Ha Hb Hab.
  destruct (Z.eq_dec a 0) as [->|Na]; [|destruct (Z.eq_dec b 0) as [->|Nb]].
  - destruct b as [|q|q]; [reflexivity|..]; cbn [canon SFsub Z.sub Z.add Z.opp];
      reflexivity.
  - rewrite Z.sub_0_r. destruct a; [contradiction|..]; reflexivity.
  - pose proof (canon_exponent a Na Ha) as Ea.
    pose proof (canon_exponent b Nb Hb) as Eb.
    assert (Ca : canon a = S754_finite (a <? 0)
              (Z.to_pos (Z.abs a * 2 ^ (53 - Zdigits2 a))) (Zdigits2 a - 53))
      by (destruct a; [contradiction|..]; reflexivity).
    assert (Cb : canon b = S754_finite (b <? 0)
              (Z.to_pos (Z.abs b * 2 ^ (53 - Zdigits2 b))) (Zdigits2 b - 53))
      by (destruct b; [contradiction|..]; reflexivity).
    rewrite Ca, Cb. cbn [SFsub]. cbv zeta.
    set (ez := Z.min (Zdigits2 a - 53) (Zdigits2 b - 53)).
    rewrite (canon_align a ez), (canon_align b ez) by (unfold ez; lia).
    rewrite <- Z.mul_sub_distr_r.
    destruct (Z.eq_dec (a - b) 0) as [E0|N0].
    + rewrite E0. reflexivity.
    + apply binary_normalize_int; [assumption..|unfold ez; lia].
Qed.

Lemma SFadd_canon a b :
  Z.abs a < 2 ^ 53 -> Z.abs b < 2 ^ 53 -> Z.abs (a + b) < 2 ^ 53 ->
  SFadd prec emax (canon a) (canon b) = canon (a + b).
Proof.
  intros Ha Hb Hab.
  destruct (Z.eq_dec a 0) as [->|Na]; [|destruct (Z.eq_dec b 0) as [->|Nb]].
  - destruct b as [|q|q]; reflexivity.
  - rewrite Z.add_0_r. destruct a; [contradiction|..]; reflexivity.
  - pose proof (canon_exponent a Na Ha) as Ea.
    pose proof (canon_exponent b Nb Hb) as Eb.
    assert (Ca : canon a = S754_finite (a <? 0)
              (Z.to_pos (Z.abs a * 2 ^ (53 - Zdigits2 a))) (Zdigits2 a - 53))
      by (destruct a; [contradiction|..]; reflexivity).
    assert (Cb : canon b = S754_finite (b <? 0)
              (Z.to_pos (Z.abs b * 2 ^ (53 - Zdigits2 b))) (Zdigits2 b - 53))
      by (destruct b; [contradiction|..]; reflexivity).
    rewrite Ca, Cb. cbn [SFadd]. cbv zeta.
    set (ez := Z.min (Zdigits2 a - 53) (Zdigits2 b - 53)).
    rewrite (canon_align a ez), (canon_align b ez) by (unfold ez; lia).
    rewrite <- Z.mul_add_distr_r.
    destruct (Z.eq_dec (a + b) 0) as [E0|N0].
    + rewrite E0. reflexivity.
    + apply binary_normalize_int; [assumption..|unfold ez; lia].
Qed.

Lemma Z2float_sub a b :
  Z.abs a < 2 ^ 53 -> Z.abs b < 2 ^ 53 -> Z.abs (a - b) < 2 ^ 53 ->
  (Z2float a - Z2float b)%float = Z2float (a - b).
Proof.
  intros Ha Hb Hab. apply Prim2SF_inj.
  rewrite sub_spec, !Z2float_canon by assumption.
  now apply SFsub_canon.
Qed.

Lemma Z2float_add a b :
  Z.abs a < 2 ^ 53 -> Z.abs b < 2 ^ 53 -> Z.abs (a + b) < 2 ^ 53 ->
  (Z2float a + Z2float b)%float = Z2float (a + b).
Proof.
  intros Ha Hb Hab. apply Prim2SF_inj.
  rewrite add_spec, !Z2float_canon by assumption.
  now apply SFadd_canon.
Qed.

Lemma Z2float_opp n :
  Z.abs n < 2 ^ 53 -> n <> 0 -> (- Z2float n)%float = Z2float (- n).
Proof.
  intros Hn N0. apply Prim2SF_inj.
  rewrite opp_spec, !Z2float_canon by lia.
  destruct n as [|q|q]; [contradiction|..]; reflexivity.
Qed.

(** The order of the floats of two integers is the order of the integers. *)
Lemma SFkey_canon_pos a :
  0 < a < 2 ^ 53 ->
  SFkey (canon a) = (Zdigits2 a + 1022) * 2 ^ 53 + a * 2 ^ (53 - Zdigits2 a).
Proof.
  intros Ha. pose proof (canon_mantissa a Ha).
  destruct a as [|q|q]; try lia. cbn [canon SFkey Z.ltb Z.compare Z.abs].
  cbv zeta. rewrite Z2Pos.id by lia. f_equal. f_equal. lia.
Qed.

Lemma SFkey_canon_neg a : SFkey (canon (- a)) = - SFkey (canon a).
Proof.
  destruct a; [reflexivity|reflexivity|].
  change (- Zneg p) with (Zpos p).
  change (SFkey (canon (Zneg p))) with (- SFkey (canon (Zpos p))). lia.
Qed.

Lemma Zdigits2_mono a b : 0 < a <= b -> Zdigits2 a <= Zdigits2 b.
Proof.
  intros H. pose proof (Zdigits2_bounds a ltac:(lia)) as [A1 A2].
  pose proof (Zdigits2_bounds b ltac:(lia)) as [B1 B2].
  pose proof (Zdigits2_nonneg b).
  destruct (Z_lt_le_dec (Zdigits2 b) (Zdigits2 a)) as [C|C]; [|assumption].
  assert (2 ^ Zdigits2 b <= 2 ^ (Zdigits2 a - 1)) by (apply Z.pow_le_mono_r; lia).
  lia.
Qed.

Lemma SFkey_canon_pos_lt a b :
  0 < a -> a < b -> b < 2 ^ 53 -> SFkey (canon a) < SFkey (canon b).
Proof.
  intros Ha Hab Hb. rewrite !SFkey_canon_pos by lia.
  pose proof (canon_mantissa a ltac:(lia)) as Ma.
  pose proof (canon_mantissa b ltac:(lia)) as Mb.
  pose proof (Zdigits2_mono a b ltac:(lia)) as Hd.
  destruct (Z.eq_dec (Zdigits2 a) (Zdigits2 b)) as [E|N].
  - rewrite E.
    pose proof (Zdigits2_small b ltac:(lia) ltac:(lia)).
    assert (0 < 2 ^ (53 - Zdigits2 b)) by (apply Z.pow_pos_nonneg; lia). nia.
  - assert (0 < 2 ^ 53) by lia. nia.
Qed.

Lemma SFkey_canon_gt_0 a : 0 < a < 2 ^ 53 -> 0 < SFkey (canon a).
Proof.
  intros Ha. rewrite SFkey_canon_pos by assumption.
  pose proof (canon_mantissa a Ha). pose proof (Zdigits2_nonneg a).
  assert (0 < 2 ^ 53) by lia. nia.
Qed.

Lemma SFkey_canon_lt a b :
  Z.abs a < 2 ^ 53 -> Z.abs b < 2 ^ 53 -> a < b ->
  SFkey (canon a) < SFkey (canon b).
Proof.
  intros Ha Hb Hab.
  destruct (Z_lt_le_dec 0 a) as [Pa|Na].
  - apply SFkey_canon_pos_lt; lia.
  - destruct (Z.eq_dec a 0) as [->|Za].
    + cbn [canon SFkey]. apply SFkey_canon_gt_0. lia.
    + (* a < 0 *)
      replace a with (- (- a)) by lia. rewrite (SFkey_canon_neg (- a)).
      pose proof (SFkey_canon_gt_0 (- a) ltac:(lia)).
      destruct (Z_lt_le_dec 0 b) as [Pb|Nb].
      * pose proof (SFkey_canon_gt_0 b ltac:(lia)). lia.
      * destruct (Z.eq_dec b 0) as [->|Zb]; [cbn [canon SFkey]; lia|].
        replace b with (- (- b)) by lia. rewrite (SFkey_canon_neg (- b)).
        pose proof (SFkey_canon_pos_lt (- b) (- a) ltac:(lia) ltac:(lia) ltac:(lia)).
        lia.
Qed.

Lemma key_Z2float_lt a b :
  Z.abs a < 2 ^ 53 -> Z.abs b < 2 ^ 53 -> a < b ->
  key (Z2float a) < key (Z2float b).
Proof.
  intros Ha Hb Hab. unfold key. rewrite !Z2float_canon by assumption.
  now apply SFkey_canon_lt.
Qed.

Lemma Z2float_not_nan n : Z.abs n < 2 ^ 53 -> is_nan (Z2float n) = false.
Proof.
  intros Hn. apply is_nan_false. rewrite Z2float_canon by assumption.
  destruct n; discriminate.
Qed.

Lemma Z2float_ltb a b :
  Z.abs a < 2 ^ 53 -> Z.abs b < 2 ^ 53 ->
  (Z2float a <? Z2float b)%float = (a <? b).
Proof.
  intros Ha Hb. rewrite ltb_key by (apply Z2float_not_nan; assumption).
  destruct (Z.ltb_spec a b) as [L|L].
  - apply Z.ltb_lt. now apply key_Z2float_lt.
  - apply Z.ltb_ge. destruct (Z.eq_dec a b) as [->|N]; [lia|].
    pose proof (key_Z2float_lt b a Hb Ha ltac:(lia)). lia.
Qed.

Lemma Rabs_le_inv (x y : R) : (Rabs x <= y -> - y <= x <= y)%R.
Proof. unfold Rabs. destruct (Rcase_abs x); lra. Qed.

Lemma canon_nonzero d :
  d <> 0 -> Z.abs d < 2 ^ 53 ->
  exists md,
    canon d = S754_finite (d <? 0) md (Zdigits2 d - 53) /\
    2 ^ 52 <= Zpos md < 2 ^ 53 /\
    Zpos md = Z.abs d * 2 ^ (53 - Zdigits2 d).
Proof.
  intros N0 Hd. pose proof (canon_mantissa (Z.abs d) ltac:(lia)) as Hc.
  rewrite Zdigits2_abs in Hc.
  exists (Z.to_pos (Z.abs d * 2 ^ (53 - Zdigits2 d))).
  rewrite Z2Pos.id by lia.
  split; [destruct d; [contradiction|..]; reflexivity|]. split; [assumption|reflexivity].
Qed.

Lemma canon_value d md :
  d <> 0 -> Z.abs d < 2 ^ 53 ->
  Zpos md = Z.abs d * 2 ^ (53 - Zdigits2 d) ->
  (IZR (Zpos md) * bpow (Zdigits2 d - 53) = IZR (Z.abs d))%R.
Proof.
  intros N0 Hd E. pose proof (Zdigits2_small d N0 Hd).
  rewrite E, mult_IZR, <- bpow_IZR by lia.
  rewrite Rmult_assoc, <- bpow_add.
  replace (53 - Zdigits2 d + (Zdigits2 d - 53)) with 0 by lia.
  rewrite bpow_0. ring.
Qed.

(* ===================================================================== *)
(** ** The round trip of quantization *)
(* ===================================================================== *)

Lemma np_round_mul_div_zero s ss ms es :
  Prim2SF s = S754_finite ss ms es ->
  np_round ((s * Z2float 0) / s) = Z2float 0.
Proof.
  intros Es.
  assert (E : (s * Z2float 0 / s)%float = Z2float 0).
  { apply Prim2SF_inj. rewrite div_spec, mul_spec, Es.
    change (Prim2SF (Z2float 0)) with (S754_zero false).
    cbn. now destruct ss. }
  rewrite E. reflexivity.
Qed.

(** Clipping leaves the float of an integer of the range as it is. *)
Lemma np_clip1_Z2float lo hi n :
  Z.abs lo < 2 ^ 53 -> Z.abs hi < 2 ^ 53 -> lo <= n <= hi ->
  np_clip1 (Z2float lo) (Z2float hi) (Z2float n) = Z2float n.
Proof.
  intros Hlo Hhi Hn. assert (Z.abs n < 2 ^ 53) by lia.
  unfold np_clip1. rewrite (Z2float_not_nan n) by assumption.
  rewrite Z2float_ltb by assumption.
  destruct (Z.ltb_spec lo n) as [L|L].
  - rewrite (Z2float_not_nan n), Z2float_ltb by assumption.
    destruct (Z.ltb_spec n hi) as [L'|L']; [reflexivity|].
    f_equal. lia.
  - assert (n = lo) as -> by lia.
    rewrite (Z2float_not_nan lo), Z2float_ltb by assumption.
    destruct (Z.ltb_spec lo hi) as [L'|L']; [reflexivity|].
    f_equal. lia.
Qed.

Lemma in_int_spec w n : in_int w n = true <-> - 2 ^ (w - 1) <= n < 2 ^ (w - 1).
Proof. unfold in_int. rewrite andb_true_iff, Z.leb_le, Z.ltb_lt. tauto. Qed.

Lemma wrap_32_id n : in_int 32 n = true -> wrap 32 n = n.
Proof.
  intros H. apply in_int_spec in H. change (2 ^ (32 - 1)) with (2 ^ 31) in H.
  unfold wrap. change (2 ^ (32 - 1)) with (2 ^ 31).
  rewrite Z.mod_small; [lia|].
  change (2 ^ 32) with (2 * 2 ^ 31). lia.
Qed.

(* ===================================================================== *)
(** ** Rounding, products and quotients of any finite scale *)
(* ===================================================================== *)

(** Rounding in the normal range, overflow being excluded by the result. *)
Lemma binary_round_aux_finite sx m e l N D :
  represents (shr_record_of_loc m l) N D ->
  53 <= Zdigits2 m ->
  - 1074 <= e + (Zdigits2 m - 53) ->
  (forall s', binary_round_aux prec emax sx m e l <> S754_infinity s') ->
  let k := Zdigits2 m - 53 in
  let m1 := round_half_even_div N (2 ^ k * D) in
  exists p e',
    binary_round_aux prec emax sx m e l = S754_finite sx p e' /\
    Zpos p * 2 ^ (e' - (e + k)) = m1 /\
    e + k <= e' <= e + k + 1 /\
    2 ^ 52 <= Zpos p < 2 ^ 53.
Proof.
  intros R Hd He Hfin k m1.
  pose proof R as (HN & HD & Hm & _). cbn in Hm.
  assert (Hm' : shr_m (shr_record_of_loc m l) = m) by (destruct l as [|[]]; reflexivity).
  rewrite Hm' in Hm.
  assert (Hmpos : 0 < m).
  { destruct m as [|q|q]; cbn in Hd; try lia.
    pose proof (Z.div_pos N D HN HD). lia. }
  rewrite (binary_round_aux_spec sx m e l N D R) in Hfin |- *. cbv zeta in Hfin |- *.
  rewrite (fexp_normal (Zdigits2 m + e)) in Hfin |- * by lia.
  replace (Z.max 0 (Zdigits2 m + e - 53 - e)) with (Zdigits2 m - 53) in Hfin |- * by lia.
  fold k in Hfin |- *. fold m1 in Hfin |- *.
  assert (Hk : 0 <= k) by (unfold k; lia).
  assert (Hek : - 1074 <= e + k) by (unfold k; lia).
  assert (Hdk : Zdigits2 m = 53 + k) by (unfold k; lia).
  clearbody k.
  assert (P2k : 0 < 2 ^ k) by (apply Z.pow_pos_nonneg; lia).
  pose proof (Zdigits2_bounds m Hmpos) as [B1 B2].
  assert (Hq : N / (2 ^ k * D) = m / 2 ^ k).
  { rewrite Z.mul_comm, <- Z.div_div by lia. now rewrite <- Hm. }
  assert (Hq1 : 2 ^ 52 <= m / 2 ^ k < 2 ^ 53).
  { replace (Zdigits2 m - 1) with (52 + k) in B1 by lia.
    rewrite Hdk in B2.
    rewrite Z.pow_add_r in B1, B2 by lia. split.
    - apply Z.div_le_lower_bound; lia.
    - apply Z.div_lt_upper_bound; lia. }
  pose proof (round_half_even_div_bounds N (2 ^ k * D) ltac:(nia)) as [M1 M2].
  fold m1 in M1, M2. rewrite Hq in M1, M2.
  destruct (Z.eq_dec m1 (2 ^ 53)) as [E53|N53].
  - assert (Zdigits2 m1 = 54) as Dm1.
    { apply Zdigits2_unique; rewrite E53; [lia|]. change (54 - 1) with 53. lia. }
    rewrite Dm1 in Hfin |- *.
    rewrite fexp_normal in Hfin |- * by lia.
    replace (Z.max 0 (54 + (e + k) - 53 - (e + k))) with 1 in Hfin |- * by lia.
    rewrite E53 in Hfin |- *.
    change (2 ^ 53 / 2 ^ 1) with (Zpos (Z.to_pos (2 ^ 52))) in Hfin |- *.
    destruct (e + k + 1 <=? emax - prec) eqn:T;
      [|exfalso; eapply Hfin; reflexivity].
    eexists _, _. split; [reflexivity|].
    split; [|split; [lia|]].
    + replace (e + k + 1 - (e + k)) with 1 by lia. reflexivity.
    + change (Zpos (Z.to_pos (2 ^ 52))) with (2 ^ 52). lia.
  - assert (Hm1 : 2 ^ 52 <= m1 < 2 ^ 53) by lia.
    assert (Zdigits2 m1 = 53) as Dm1
      by (apply Zdigits2_unique; [lia|]; change (53 - 1) with 52; lia).
    rewrite Dm1 in Hfin |- *.
    rewrite fexp_normal in Hfin |- * by lia.
    replace (Z.max 0 (53 + (e + k) - 53 - (e + k))) with 0 in Hfin |- * by lia.
    change (2 ^ 0) with 1 in Hfin |- *. rewrite Z.div_1_r, Z.add_0_r in Hfin |- *.
    destruct m1 as [|p|p] eqn:Em1; try lia.
    destruct (e + k <=? emax - prec) eqn:T;
      [|exfalso; eapply Hfin; reflexivity].
    exists p, (e + k). split; [reflexivity|].
    split; [|split; [lia|lia]].
    replace (e + k - (e + k)) with 0 by lia. lia.
Qed.

(** The value of a number rounded in the normal range, and its error. *)
Lemma binary_round_aux_finite_value sx m e l N D :
  represents (shr_record_of_loc m l) N D ->
  53 <= Zdigits2 m ->
  - 1074 <= e + (Zdigits2 m - 53) ->
  (forall s', binary_round_aux prec emax sx m e l <> S754_infinity s') ->
  exists p e',
    binary_round_aux prec emax sx m e l = S754_finite sx p e' /\
    2 ^ 52 <= Zpos p < 2 ^ 53 /\
    e + (Zdigits2 m - 53) <= e' <= e + (Zdigits2 m - 53) + 1 /\
    (Rabs (IZR (Zpos p) * bpow e' - IZR N / IZR D * bpow e)
       <= bpow (- 53) * (IZR N / IZR D * bpow e))%R.
Proof.
  intros R Hd He Hfin.
  destruct (binary_round_aux_finite sx m e l N D R Hd He Hfin)
    as (p & e' & E & Hp & He' & Pp).
  exists p, e'. repeat (split; [assumption|]).
  set (k := Zdigits2 m - 53) in *.
  set (m1 := round_half_even_div N (2 ^ k * D)) in *.
  destruct R as (HN & HD & Hm & _).
  assert (Hm' : m = N / D) by (rewrite <- Hm; destruct l as [|[]]; reflexivity).
  assert (Hk : 0 <= k) by (unfold k; lia).
  assert (P2k : 0 < 2 ^ k) by (apply Z.pow_pos_nonneg; lia).
  assert (Hmpos : 0 < m).
  { pose proof (Z.div_pos N D HN HD). rewrite <- Hm' in *.
    destruct (Z.eq_dec m 0) as [E0|]; [|lia].
    rewrite E0 in Hd. cbn in Hd. lia. }
  pose proof (Zdigits2_bounds m Hmpos) as [B1 _].
  replace (Zdigits2 m - 1) with (52 + k) in B1 by (unfold k; lia).
  rewrite Z.pow_add_r in B1 by lia.
  pose proof (round_half_even_div_le N (2 ^ k * D) HN ltac:(nia)) as Err.
  fold m1 in Err.
  assert (Ep : (IZR (Zpos p) * bpow e' = IZR m1 * bpow k * bpow e)%R).
  { rewrite <- Hp, mult_IZR.
    rewrite <- (bpow_IZR (e' - (e + k))) by lia.
    replace e' with ((e' - (e + k)) + (k + e)) at 1 by lia.
    rewrite !bpow_add. ring. }
  rewrite Ep.
  assert (RD : (0 < IZR D)%R) by (apply IZR_lt; lia).
  assert (RN : (IZR (2 ^ 52 * 2 ^ k) * IZR D <= IZR N)%R).
  { rewrite <- mult_IZR. apply IZR_le.
    pose proof (Z.div_mod N D ltac:(lia)). pose proof (Z.mod_pos_bound N D HD).
    rewrite <- Hm' in *. nia. }
  rewrite mult_IZR in RN.
  assert (RE : (2 * Rabs (IZR m1 * (IZR (2 ^ k) * IZR D) - IZR N)
                <= IZR (2 ^ k) * IZR D)%R).
  { rewrite <- !mult_IZR, <- minus_IZR, <- abs_IZR, <- mult_IZR.
    apply IZR_le. exact Err. }
  rewrite <- (bpow_IZR k) in RE, RN by lia.
  pose proof (bpow_gt_0 k) as Pk. pose proof (bpow_gt_0 e) as Pe.
  replace (IZR m1 * bpow k * bpow e - IZR N / IZR D * bpow e)%R
    with ((IZR m1 * (bpow k * IZR D) - IZR N) * (bpow e / IZR D))%R
    by (field; lra).
  rewrite Rabs_mult.
  rewrite (Rabs_pos_eq (bpow e / IZR D))
    by (apply Rlt_le, Rdiv_lt_0_compat; assumption).
  assert (B53 : bpow (-53) = (/ IZR (2 ^ 53))%R).
  { change (-53) with (- (53)). rewrite bpow_opp, bpow_IZR by lia. reflexivity. }
  rewrite B53.
  assert (R52 : IZR (2 ^ 53) = (2 * IZR (2 ^ 52))%R).
  { rewrite <- mult_IZR. reflexivity. }
  assert (P52 : (0 < IZR (2 ^ 52))%R) by (apply IZR_lt; lia).
  assert (PQ : (0 < bpow e / IZR D)%R) by (apply Rdiv_lt_0_compat; assumption).
  set (A := Rabs (IZR m1 * (bpow k * IZR D) - IZR N)) in *.
  set (Q := (bpow e / IZR D)%R) in *.
  replace (/ IZR (2 ^ 53) * (IZR N / IZR D * bpow e))%R
    with (IZR N / IZR (2 ^ 53) * Q)%R by (unfold Q; field; lra).
  apply Rmult_le_compat_r; [lra|].
  apply Rmult_le_reg_r with (IZR (2 ^ 53)); [lra|].
  replace (IZR N / IZR (2 ^ 53) * IZR (2 ^ 53))%R with (IZR N) by (field; lra).
  rewrite R52. nra.
Qed.

Lemma Zdigits2_pos_mul a b :
  0 < a -> 0 < b ->
  Zdigits2 a + Zdigits2 b - 1 <= Zdigits2 (a * b) <= Zdigits2 a + Zdigits2 b.
Proof.
  intros Ha Hb.
  pose proof (Zdigits2_bounds a Ha) as [A1 A2].
  pose proof (Zdigits2_bounds b Hb) as [B1 B2].
  pose proof (Zdigits2_nonneg a). pose proof (Zdigits2_nonneg b).
  assert (1 <= Zdigits2 a).
  { destruct (Z_lt_le_dec (Zdigits2 a) 1); [|assumption].
    assert (Zdigits2 a = 0) as E by lia. rewrite E in A2. cbn in A2. lia. }
  assert (1 <= Zdigits2 b).
  { destruct (Z_lt_le_dec (Zdigits2 b) 1); [|assumption].
    assert (Zdigits2 b = 0) as E by lia. rewrite E in B2. cbn in B2. lia. }
  pose proof (Zdigits2_range (a * b) (Zdigits2 a + Zdigits2 b - 2)
                (Zdigits2 a + Zdigits2 b) ltac:(lia)) as R.
  replace (Zdigits2 a + Zdigits2 b - 2) with ((Zdigits2 a - 1) + (Zdigits2 b - 1))
    in R by lia.
  rewrite !Z.pow_add_r in R by lia.
  assert (0 < 2 ^ (Zdigits2 a - 1)) by (apply Z.pow_pos_nonneg; lia).
  assert (0 < 2 ^ (Zdigits2 b - 1)) by (apply Z.pow_pos_nonneg; lia).
  specialize (R ltac:(nia)). lia.
Qed.

(** The product of a number and an integer of at most 51 bits that does
    not overflow: it is exact when it is subnormal, and rounded with a
    relative error of [2^-53] otherwise. *)
Lemma SFmul_int ss ms es d :
  valid_binary (S754_finite ss ms es) = true ->
  d <> 0 -> Z.abs d < 2 ^ 51 ->
  (forall s', SFmul prec emax (S754_finite ss ms es) (canon d)
              <> S754_infinity s') ->
  exists mp ep,
    SFmul prec emax (S754_finite ss ms es) (canon d)
      = S754_finite (xorb ss (d <? 0)) mp ep /\
    Zpos mp < 2 ^ 53 /\
    Zdigits2 d - 1
      <= Zdigits2 (Zpos mp) + ep - (Zdigits2 (Zpos ms) + es)
      <= Zdigits2 d + 1 /\
    (Rabs (IZR (Zpos mp) * bpow ep
           - IZR (Zpos ms) * bpow es * IZR (Z.abs d))
       <= bpow (- 53) * (IZR (Zpos ms) * bpow es * IZR (Z.abs d)))%R.
Proof.
  intros Vs N0 Hd Hfin.
  assert (Hd53 : Z.abs d < 2 ^ 53) by lia.
  destruct (canon_nonzero d N0 Hd53) as (md & Cd & Hmd & Emd).
  pose proof (canon_value d md N0 Hd53 Emd) as Vd.
  assert (Hdd : 1 <= Zdigits2 d <= 51).
  { rewrite <- Zdigits2_abs.
    pose proof (Zdigits2_range (Z.abs d) 0 51 ltac:(lia)
                  ltac:(change (2 ^ 0) with 1; lia)). lia. }
  rewrite Cd in Hfin |- *. cbn [SFmul] in Hfin |- *.
  set (ed := Zdigits2 d - 53) in *.
  set (ds := Zdigits2 (Zpos ms)).
  assert (Dmd : Zdigits2 (Zpos md) = 53)
    by (apply Zdigits2_unique; [lia|]; change (53 - 1) with 52; lia).
  pose proof (Zdigits2_pos_mul (Zpos ms) (Zpos md) ltac:(lia) ltac:(lia)) as Dm.
  rewrite Dmd in Dm. fold ds in Dm.
  change (Zpos ms * Zpos md) with (Zpos (ms * md)) in Dm.
  assert (Hds : 1 <= ds).
  { pose proof (Zdigits2_range (Zpos ms) 0 (Zpos ms + 1) ltac:(lia)) as R.
    change (2 ^ 0) with 1 in R.
    assert (Zpos ms < 2 ^ (Zpos ms + 1)).
    { pose proof (Z.pow_gt_lin_r 2 (Zpos ms + 1) ltac:(lia) ltac:(lia)). lia. }
    unfold ds. lia. }
  pose proof (valid_binary_bounds _ _ _ Vs) as [Hms Hes].
  destruct (Z_le_gt_dec (- 1074)
              (es + ed + (Zdigits2 (Zpos (ms * md)) - 53))) as [An|Bs].
  - (* the product is a normal number *)
    destruct (binary_round_aux_finite_value (xorb ss (d <? 0)) (Zpos (ms * md))
                (es + ed) loc_Exact (Zpos (ms * md)) 1
                (represents_exact (Zpos (ms * md)) ltac:(lia)) ltac:(lia) An Hfin)
      as (p & e' & E & Hp & He & Err).
    exists p, e'. split; [exact E|]. split; [lia|]. split.
    + assert (Zdigits2 (Zpos p) = 53) as ->
        by (apply Zdigits2_unique; [lia|]; change (53 - 1) with 52; lia).
      unfold ed in *. lia.
    + rewrite Pos2Z.inj_mul, mult_IZR in Err.
      replace (IZR (Zpos ms) * IZR (Zpos md) / 1 * bpow (es + ed))%R
        with (IZR (Zpos ms) * bpow es * (IZR (Zpos md) * bpow ed))%R in Err
        by (rewrite bpow_add; field).
      rewrite Vd in Err. exact Err.
  - (* the product is subnormal, and exact *)
    assert (Ees : es = - 1074).
    { revert Vs.
      unfold SpecFloat.valid_binary, SpecFloat.bounded,
        SpecFloat.canonical_mantissa.
      rewrite andb_true_iff, Z.eqb_eq. intros [C _].
      change (Zpos (digits2_pos ms)) with ds in C.
      unfold fexp, SpecFloat.emin, emax, prec in C. unfold ed in *. lia. }
    set (k := 53 - Zdigits2 d) in *.
    assert (Hk : 0 < k) by (unfold k; lia).
    assert (P2k : 0 < 2 ^ k) by (apply Z.pow_pos_nonneg; lia).
    assert (Em : Zpos (ms * md) = Zpos ms * Z.abs d * 2 ^ k).
    { rewrite Pos2Z.inj_mul, Emd. fold k. ring. }
    set (m1 := Zpos ms * Z.abs d) in *.
    assert (Hm1 : 0 < m1) by (unfold m1; lia).
    assert (Dm1 : Zdigits2 (Zpos (ms * md)) = Zdigits2 m1 + k).
    { rewrite Em. apply Zdigits2_mul_pow2; lia. }
    assert (D53 : Zdigits2 m1 < 53) by (unfold ed, k in *; lia).
    rewrite (binary_round_aux_spec _ _ _ _ (Zpos (ms * md)) 1
               (represents_exact (Zpos (ms * md)) ltac:(lia))) in Hfin |- *.
    cbv zeta in Hfin |- *.
    assert (F1 : fexp prec emax (Zdigits2 (Zpos (ms * md)) + (es + ed)) = - 1074).
    { unfold fexp, SpecFloat.emin, emax, prec. unfold ed in *. lia. }
    rewrite F1.
    replace (Z.max 0 (- 1074 - (es + ed))) with k by (unfold ed, k; lia).
    rewrite Z.mul_1_r.
    assert (R1 : round_half_even_div (Zpos (ms * md)) (2 ^ k) = m1).
    { rewrite round_half_even_div_exact by
        (try lia; rewrite Em; apply Z.mod_mul; lia).
      rewrite Em. apply Z.div_mul. lia. }
    rewrite R1.
    replace (es + ed + k) with (- 1074) by (unfold ed, k; lia).
    assert (F2 : fexp prec emax (Zdigits2 m1 + - 1074) = - 1074).
    { unfold fexp, SpecFloat.emin, emax, prec. lia. }
    rewrite F2. change (Z.max 0 (- 1074 - - 1074)) with 0.
    change (2 ^ 0) with 1. rewrite Z.div_1_r.
    assert (E1 : Zpos ms * Z.abs d = m1) by reflexivity. clearbody m1.
    destruct m1 as [|p|p]; try lia.
    change (- 1074 + 0 <=? emax - prec) with true. cbv iota.
    exists p, (- 1074). split; [reflexivity|].
    assert (Hp53 : Zpos p < 2 ^ 53).
    { pose proof (Zdigits2_bounds (Zpos p) ltac:(lia)) as [_ U].
      eapply Z.lt_le_trans; [exact U|]. apply Z.pow_le_mono_r; lia. }
    split; [exact Hp53|]. split.
    + rewrite Ees. fold ds. unfold k in *. lia.
    + assert (EP : (IZR (Zpos p) * bpow (-1074)
                    = IZR (Zpos ms) * bpow es * IZR (Z.abs d))%R).
      { rewrite <- E1, mult_IZR, Ees. ring. }
      rewrite EP, Rminus_diag, Rabs_R0.
      apply Rmult_le_pos; [apply Rlt_le, bpow_gt_0|].
      apply Rmult_le_pos; [apply Rmult_le_pos|].
      * apply IZR_le. lia.
      * apply Rlt_le, bpow_gt_0.
      * apply IZR_le. lia.
Qed.

Lemma Zdigits2_ge_1 a : 0 < a -> 1 <= Zdigits2 a.
Proof.
  intros Ha. pose proof (Zdigits2_bounds a Ha) as [_ U].
  pose proof (Zdigits2_nonneg a).
  destruct (Z_lt_le_dec (Zdigits2 a) 1); [|assumption].
  assert (Zdigits2 a = 0) as E by lia. rewrite E in U. cbn in U. lia.
Qed.

(** The quotient of two numbers, normal or not, when it lies in the normal
    range. *)
Lemma SFdiv_general sx mx ex sy my ey :
  Zpos mx < 2 ^ 53 -> Zpos my < 2 ^ 53 ->
  let x := Zdigits2 (Zpos mx) + ex - (Zdigits2 (Zpos my) + ey) in
  - 1021 <= x <= 1022 ->
  exists p e',
    SFdiv prec emax (S754_finite sx mx ex) (S754_finite sy my ey)
      = S754_finite (xorb sx sy) p e' /\
    2 ^ 52 <= Zpos p < 2 ^ 53 /\
    x - 53 <= e' <= x - 51 /\
    (Rabs (IZR (Zpos p) * bpow e'
           - IZR (Zpos mx) / IZR (Zpos my) * bpow (ex - ey))
       <= bpow (- 53) * (IZR (Zpos mx) / IZR (Zpos my) * bpow (ex - ey)))%R.
Proof.
  intros Hx Hy x Hr. cbn [SFdiv]. unfold SFdiv_core_binary.
  set (d1 := Zdigits2 (Zpos mx)) in *. set (d2 := Zdigits2 (Zpos my)) in *.
  pose proof (Zdigits2_ge_1 (Zpos mx) ltac:(lia)) as G1.
  pose proof (Zdigits2_ge_1 (Zpos my) ltac:(lia)) as G2.
  fold d1 in G1. fold d2 in G2.
  pose proof (Zdigits2_bounds (Zpos mx) ltac:(lia)) as [X1 X2].
  pose proof (Zdigits2_bounds (Zpos my) ltac:(lia)) as [Y1 Y2].
  fold d1 in X1, X2. fold d2 in Y1, Y2.
  assert (L1 : d1 <= 53).
  { destruct (Z_lt_le_dec 53 d1) as [C|C]; [|assumption].
    assert (2 ^ 53 <= 2 ^ (d1 - 1)) by (apply Z.pow_le_mono_r; lia). lia. }
  assert (L2 : d2 <= 53).
  { destruct (Z_lt_le_dec 53 d2) as [C|C]; [|assumption].
    assert (2 ^ 53 <= 2 ^ (d2 - 1)) by (apply Z.pow_le_mono_r; lia). lia. }
  fold x.
  assert (Hf : fexp prec emax x = x - 53)
    by (unfold fexp, SpecFloat.emin, emax, prec; lia).
  rewrite Hf. rewrite (Z.min_l (x - 53)) by (unfold x; lia).
  set (sh := 53 + d2 - d1).
  replace (ex - ey - (x - 53)) with sh by (unfold sh, x; lia).
  assert (Hsh : 0 < sh) by (unfold sh; lia).
  destruct sh as [|psh|psh] eqn:Esh; try lia. rewrite <- Esh in *.
  cbv beta iota zeta. rewrite Z.shiftl_mul_pow2 by lia.
  set (M := Zpos mx * 2 ^ sh).
  assert (P2s : 0 < 2 ^ sh) by (apply Z.pow_pos_nonneg; lia).
  pose proof (Z_div_mod M (Zpos my) ltac:(lia)) as DM.
  unfold Z.div, Z.modulo in *.
  destruct (Z.div_eucl M (Zpos my)) as [q r] eqn:Eqr.
  pose proof (new_location_represents M (Zpos my) ltac:(unfold M; lia) ltac:(lia)) as R.
  unfold Z.div, Z.modulo in R. rewrite Eqr in R.
  destruct DM as [EM Br].
  assert (HM : 2 ^ (52 + d2) <= M < 2 ^ (53 + d2)).
  { unfold M.
    replace (52 + d2) with ((d1 - 1) + sh) by (unfold sh; lia).
    replace (53 + d2) with (d1 + sh) by (unfold sh; lia).
    rewrite !Z.pow_add_r by lia. nia. }
  assert (Hq : 2 ^ 52 <= q < 2 ^ 54).
  { replace (52 + d2) with (52 + 1 + (d2 - 1)) in HM by lia.
    replace (53 + d2) with (53 + d2) in HM by lia.
    rewrite (Z.pow_add_r 2 (52 + 1)) in HM by lia.
    rewrite (Z.pow_add_r 2 53 d2) in HM by lia.
    change (2 ^ (52 + 1)) with (2 * 2 ^ 52) in HM.
    assert (0 < 2 ^ (d2 - 1)) by (apply Z.pow_pos_nonneg; lia).
    assert (E2 : 2 ^ d2 = 2 * 2 ^ (d2 - 1)).
    { replace d2 with (1 + (d2 - 1)) at 1 by lia.
      rewrite Z.pow_add_r by lia. reflexivity. }
    change (2 ^ 54) with (4 * 2 ^ 52). change (2 ^ 53) with (2 * 2 ^ 52) in HM.
    split; nia. }
  assert (Hd : 53 <= Zdigits2 q <= 54) by (apply (Zdigits2_range _ 52 54); lia).
  destruct (binary_round_aux_value (xorb sx sy) q (x - 53)
              (new_location (Zpos my) r) M (Zpos my) R ltac:(lia) ltac:(lia))
    as (p & e' & E & V & Hp & He & Err).
  exists p, e'. split; [exact E|]. split; [exact Hp|]. split; [lia|].
  assert (EQ : (IZR M / IZR (Zpos my) * bpow (x - 53)
                = IZR (Zpos mx) / IZR (Zpos my) * bpow (ex - ey))%R).
  { unfold M. rewrite mult_IZR, <- (bpow_IZR sh) by lia.
    replace (ex - ey) with (sh + (x - 53)) by (unfold sh, x; lia).
    rewrite bpow_add. field. apply eq_IZR_contrapositive. lia. }
  rewrite EQ in Err. exact Err.
Qed.

Lemma is_finite_spec x :
  is_finite x = true ->
  forall s', Prim2SF x <> S754_infinity s'.
Proof.
  unfold is_finite. rewrite FloatAxioms.ltb_spec, abs_spec.
  change (Prim2SF infinity) with (S754_infinity false).
  intros H s' E. rewrite E in H. discriminate H.
Qed.

(** Two roundings, each with a relative error [u], of [x * y] and of the
    quotient of the result by [x], end within [(2 u + u^2) y] of [y]. *)
Lemma mul_div_error_sharp (X Y P T u : R) :
  (0 < X -> 0 <= Y -> 0 < u <= 1 ->
   Rabs (P - X * Y) <= u * (X * Y) ->
   Rabs (T - P / X) <= u * (P / X) ->
   Rabs (T - Y) <= (2 * u + u * u) * Y)%R.
Proof.
  intros HX HY Hu HP HT.
  set (Q := (P / X)%R) in *.
  assert (EP : P = (Q * X)%R) by (unfold Q; field; lra).
  rewrite EP in HP.
  apply Rabs_le_inv in HP. apply Rabs_le_inv in HT.
  assert (HQ : (- (u * Y) <= Q - Y <= u * Y)%R).
  { split; apply Rmult_le_reg_r with X; trivial; nra. }
  apply Rabs_le. split; nra.
Qed.

(** Re-quantizing a dequantized integer of at most 51 bits gives the
    integer back, for every scale that is a number other than zero, as long
    as the product does not overflow. *)
Lemma np_round_mul_div_finite s ss ms es d :
  Prim2SF s = S754_finite ss ms es ->
  d <> 0 -> Z.abs d < 2 ^ 51 ->
  is_finite (s * Z2float d) = true ->
  np_round ((s * Z2float d) / s) = Z2float d.
Proof.
  intros Es N0 Hd Hfin.
  assert (Hd53 : Z.abs d < 2 ^ 53) by lia.
  pose proof (Prim2SF_valid s) as Vs. rewrite Es in Vs.
  pose proof (valid_binary_bounds _ _ _ Vs) as [Hms Ves].
  assert (Hdd : 1 <= Zdigits2 d <= 51).
  { rewrite <- Zdigits2_abs.
    pose proof (Zdigits2_range (Z.abs d) 0 51 ltac:(lia)
                  ltac:(change (2 ^ 0) with 1; lia)). lia. }
  pose proof (is_finite_spec _ Hfin) as Hinf.
  rewrite mul_spec, Es, Z2float_canon in Hinf by assumption.
  unfold SF64mul in Hinf.
  (* the product *)
  destruct (SFmul_int ss ms es d Vs N0 Hd Hinf)
    as (mp & ep & Ep & Hmp & Hx & Errp).
  (* the quotient *)
  destruct (SFdiv_general (xorb ss (d <? 0)) mp ep ss ms es Hmp Hms
              ltac:(lia))
    as (mt & et & Et & Hmt & Het & Errt).
  assert (Sg : xorb (xorb ss (d <? 0)) ss = (d <? 0))
    by (destruct ss, (d <? 0); reflexivity).
  rewrite Sg in Et.
  assert (Pt : Prim2SF ((s * Z2float d) / s) = S754_finite (d <? 0) mt et).
  { rewrite div_spec, mul_spec, Z2float_canon, Es by assumption.
    unfold SF64div, SF64mul. rewrite Ep. exact Et. }
  (* the error, in the reals *)
  set (X := (IZR (Zpos ms) * bpow es)%R) in *.
  set (Y := IZR (Z.abs d)) in *.
  set (P := (IZR (Zpos mp) * bpow ep)%R) in *.
  set (T := (IZR (Zpos mt) * bpow et)%R) in *.
  assert (HX : (0 < X)%R).
  { unfold X. apply Rmult_lt_0_compat; [apply IZR_lt; lia|apply bpow_gt_0]. }
  assert (HY : (1 <= Y)%R) by (apply IZR_le; lia).
  assert (HY51 : (Y <= IZR (2 ^ 51 - 1))%R) by (apply IZR_le; lia).
  assert (E2 : (IZR (Zpos mp) / IZR (Zpos ms) * bpow (ep - es) = P / X)%R).
  { unfold P, X. replace (ep - es) with (ep + - es) by lia.
    rewrite bpow_add, bpow_opp. field.
    split; [apply Rgt_not_eq, bpow_gt_0|apply eq_IZR_contrapositive; lia]. }
  rewrite E2 in Errt.
  assert (U : bpow (-53) = (/ IZR (2 ^ 53))%R).
  { change (-53) with (- (53)). rewrite bpow_opp, bpow_IZR by lia. reflexivity. }
  assert (PU : (0 < IZR (2 ^ 53))%R) by (apply IZR_lt; lia).
  assert (Hu : (0 < bpow (-53) <= 1)%R).
  { split; [apply bpow_gt_0|]. rewrite U.
    replace 1%R with (/ 1)%R by field.
    apply Rinv_le_contravar; [lra|]. apply IZR_le. lia. }
  pose proof (mul_div_error_sharp X Y P T (bpow (-53)) HX ltac:(lra) Hu Errp Errt)
    as Err.
  assert (Half : (Rabs (T - Y) < / 2)%R).
  { eapply Rle_lt_trans; [exact Err|]. rewrite U.
    set (V := IZR (2 ^ 53)) in *.
    assert (K : (2 * (2 * V + 1) * IZR (2 ^ 51 - 1) < V * V)%R).
    { unfold V. rewrite <- !mult_IZR, <- plus_IZR, <- !mult_IZR.
      apply IZR_lt. lia. }
    apply Rmult_lt_reg_r with (2 * (V * V))%R; [nra|].
    replace ((2 * / V + / V * / V) * Y * (2 * (V * V)))%R
      with (2 * (2 * V + 1) * Y)%R by (field; lra).
    replace (/ 2 * (2 * (V * V)))%R with (V * V)%R by field.
    nra. }
  (* the exponent of the quotient is negative *)
  assert (Hneg : et < 0).
  { destruct (Z_lt_le_dec et 0) as [|C]; [assumption|exfalso].
    pose proof (bpow_le 0 et C) as B. rewrite bpow_0 in B.
    assert (M52 : (IZR (2 ^ 52) <= IZR (Zpos mt))%R) by (apply IZR_le; lia).
    assert (P52 : (0 < IZR (2 ^ 52))%R) by (apply IZR_lt; lia).
    assert (T52 : (IZR (2 ^ 52) <= T)%R) by (unfold T; nra).
    apply Rabs_def2 in Half.
    assert (L : (IZR (2 ^ 51 - 1) + 1 <= IZR (2 ^ 52))%R).
    { rewrite <- plus_IZR. apply IZR_le. lia. }
    lra. }
  (* rounding to the nearest integer *)
  unfold np_round. rewrite Pt.
  assert ((0 <=? et) = false) as -> by (apply Z.leb_gt; assumption).
  assert (Hn : round_half_even_div (Zpos mt) (2 ^ (- et)) = Z.abs d).
  { assert (P2 : 0 < 2 ^ (- et)) by (apply Z.pow_pos_nonneg; lia).
    apply round_half_even_div_nearest; [assumption|].
    apply lt_IZR. rewrite mult_IZR, abs_IZR, minus_IZR, mult_IZR.
    rewrite <- (bpow_IZR (- et)) by lia. fold Y.
    assert (ET : (Y * bpow (- et) - IZR (Zpos mt) = (Y - T) * bpow (- et))%R).
    { unfold T. rewrite Rmult_minus_distr_r, Rmult_assoc, <- bpow_add.
      replace (et + - et) with 0 by lia. rewrite bpow_0. ring. }
    rewrite ET, Rabs_mult, (Rabs_pos_eq (bpow (- et)))
      by (apply Rlt_le, bpow_gt_0).
    rewrite Rabs_minus_sym.
    pose proof (bpow_gt_0 (- et)). nra. }
  rewrite Hn.
  destruct (Z.ltb_spec d 0) as [L|L].
  - rewrite Z2float_opp by lia. f_equal. lia.
  - f_equal. lia.
Qed.

Lemma wide_bounds_1024 b : 54 <= b <= 1024 -> wide_bounds b = true.
Proof.
  intros Hb. apply (forallb_Z_range wide_bounds 54 971); [|lia].
  vm_compute. reflexivity.
Qed.

Lemma key_Z2float_le a b :
  Z.abs a < 2 ^ 53 -> Z.abs b < 2 ^ 53 -> a <= b ->
  key (Z2float a) <= key (Z2float b).
Proof.
  intros Ha Hb Hab. destruct (Z.eq_dec a b) as [->|N]; [lia|].
  apply Z.lt_le_incl, key_Z2float_lt; lia.
Qed.

(** Clipping an array of integers of the range returns it, with no
    warning. *)
Lemma clip_range_Z2float ns b h :
  ns <> [] -> 1 <= b <= 53 ->
  Forall (fun n => in_int b n = true) ns ->
  clip_range (map Z2float ns) b h = (h, Return (map Z2float ns)).
Proof.
  intros Hne Hb Hns.
  assert (P : 1 <= 2 ^ (b - 1) <= 2 ^ 52).
  { split; [apply (Z.pow_le_mono_r 2 0); lia|apply Z.pow_le_mono_r; lia]. }
  assert (Hns' : Forall (fun n => - 2 ^ (b - 1) <= n <= 2 ^ (b - 1) - 1) ns).
  { eapply Forall_impl; [exact Hns|]. intros n Hn. apply in_int_spec in Hn. lia. }
  destruct (as_float64_bounds b ltac:(lia)) as [Alo Ahi].
  erewrite clip_range_ok;
    [|destruct ns; [contradiction|discriminate]|exact Alo|exact Ahi].
  set (lo := Z2float (- 2 ^ (b - 1))). set (hi := Z2float (2 ^ (b - 1) - 1)).
  assert (Hnan : Forall (fun v => is_nan v = false) (map Z2float ns)).
  { apply Forall_map. eapply Forall_impl; [exact Hns'|].
    intros n Hn. cbn beta in Hn. apply Z2float_not_nan. lia. }
  rewrite overflows_spec
    by (try exact Hnan; apply Z2float_not_nan; lia).
  assert (Eo : existsb (fun v => (hi <? v)%float || (v <? lo)%float)
                 (map Z2float ns) = false).
  { clear - Hns' P. induction Hns' as [|n ns Hn _ IH]; [reflexivity|].
    cbn [map existsb]. rewrite IH, orb_false_r.
    unfold hi, lo. rewrite !Z2float_ltb by lia.
    apply orb_false_iff. split; [apply Z.ltb_ge|apply Z.ltb_ge]; lia. }
  rewrite Eo. f_equal. f_equal.
  rewrite <- (map_id (map Z2float ns)) at 2. rewrite !map_map.
  apply map_ext_Forall. eapply Forall_impl; [exact Hns'|].
  intros n Hn. cbn beta in Hn |- *. unfold lo, hi, id.
  apply np_clip1_Z2float; lia.
Qed.

(** The same for every bit width up to 1024, on integers of magnitude up to
    [3 * 2^51]. *)
Lemma clip_range_integers ns b h :
  ns <> [] -> 1 <= b <= 1024 ->
  Forall (fun n => in_int b n = true /\ Z.abs n <= 3 * 2 ^ 51) ns ->
  clip_range (map Z2float ns) b h = (h, Return (map Z2float ns)).
Proof.
  intros Hne Hb Hns.
  destruct (Z_le_gt_dec b 53) as [S|W].
  { apply clip_range_Z2float; [assumption|lia|].
    eapply Forall_impl; [exact Hns|]. now intros n [Hn _]. }
  pose proof (wide_bounds_1024 b ltac:(lia)) as WB. unfold wide_bounds in WB.
  destruct (as_float64 (py_neg (py_pow2 (b - 1)))) as [|lo] eqn:Alo;
    [discriminate|].
  destruct (as_float64 (py_pred (py_pow2 (b - 1)))) as [|hi] eqn:Ahi;
    [discriminate|].
  erewrite clip_range_ok;
    [|destruct ns; [contradiction|discriminate]|exact Alo|exact Ahi].
  apply andb_true_iff in WB as [WB Khi].
  apply andb_true_iff in WB as [WB Klo].
  apply andb_true_iff in WB as [Nlo Nhi].
  apply negb_true_iff in Nlo, Nhi. apply Z.ltb_lt in Klo, Khi.
  assert (In : Forall (fun v => is_nan v = false /\
                         (lo <? v)%float = true /\ (v <? hi)%float = true)
                 (map Z2float ns)).
  { apply Forall_map. eapply Forall_impl; [exact Hns|].
    intros n [_ Hn']. cbn beta.
    assert (Hn : Z.abs n < 2 ^ 53) by lia.
    pose proof (Z2float_not_nan n Hn) as Nn.
    rewrite !ltb_key by assumption.
    pose proof (key_Z2float_le (- (3 * 2 ^ 51)) n ltac:(lia) Hn ltac:(lia)).
    pose proof (key_Z2float_le n (3 * 2 ^ 51) Hn ltac:(lia) ltac:(lia)).
    split; [assumption|]. split; apply Z.ltb_lt; lia. }
  rewrite overflows_spec; [|assumption..|].
  2:{ eapply Forall_impl; [exact In|]. now intros v [Nv _]. }
  assert (Eo : existsb (fun v => (hi <? v)%float || (v <? lo)%float)
                 (map Z2float ns) = false).
  { clear - In Nlo Nhi. induction In as [|v l (Nv & L & U) _ IH]; [reflexivity|].
    cbn [existsb]. rewrite IH, orb_false_r.
    rewrite ltb_key in L, U by assumption. rewrite !ltb_key by assumption.
    apply Z.ltb_lt in L, U. apply orb_false_iff.
    split; apply Z.ltb_ge; lia. }
  rewrite Eo. f_equal. f_equal.
  rewrite <- (map_id (map Z2float ns)) at 2.
  apply map_ext_Forall. eapply Forall_impl; [exact In|].
  intros v (Nv & L & U). unfold np_clip1, id. now rewrite Nv, L, Nv, U.
Qed.

(** A scale that is not zero and has a finite product with an integer is a
    finite number other than zero. *)
Lemma finite_scale s d :
  Z.abs d < 2 ^ 53 ->
  (s =? 0)%float = false -> is_finite (s * Z2float d) = true ->
  exists ss ms es, Prim2SF s = S754_finite ss ms es.
Proof.
  intros Hd Hs Hf. unfold is_finite in Hf.
  rewrite FloatAxioms.eqb_spec in Hs.
  rewrite FloatAxioms.ltb_spec, abs_spec, mul_spec, Z2float_canon in Hf
    by assumption.
  change (Prim2SF 0) with (S754_zero false) in Hs.
  change (Prim2SF infinity) with (S754_infinity false) in Hf.
  destruct (Prim2SF s) as [sz|si| |ss ms es]; [..|eauto].
  - destruct sz; discriminate Hs.
  - destruct d; discriminate Hf.
  - discriminate Hf.
Qed.

(** The round trip on a [float64] array of integers. *)
Lemma roundtrip_float64_wide ns s z b h :
  ns <> [] -> 1 <= b <= 1024 ->
  Forall (fun n => in_int b n = true) ns ->
  in_int 53 z = true ->
  Forall (fun n => Z.abs (n - z) < 2 ^ 51) ns ->
  (s =? 0)%float = false ->
  Forall (fun n => is_finite (s * Z2float (n - z)) = true) ns ->
  exists deq,
    dequantize_data (NdFloat64 (map Z2float ns)) s z = inr deq /\
    quantize_data deq s z b h = (h, Return (map Z2float ns)).
Proof.
  intros Hne Hb Hns Hz Hd Hs Hf.
  apply in_int_spec in Hz. change (2 ^ (53 - 1)) with (2 ^ 52) in Hz.
  assert (Hall : Forall (fun n => Z.abs (n - z) < 2 ^ 51 /\
                           is_finite (s * Z2float (n - z)) = true) ns).
  { rewrite List.Forall_forall in *. auto. }
  assert (Ez : py_float z = inr (Z2float z)).
  { apply py_float_ok.
    assert (2 ^ 52 <= 2 ^ 1000) by (apply Z.pow_le_mono_r; lia). lia. }
  assert (Es : exists ss ms es, Prim2SF s = S754_finite ss ms es).
  { destruct ns as [|n ns]; [contradiction|].
    inversion Hall as [|? ? [Hn Fn] _]; subst.
    apply (finite_scale s (n - z)); [lia|assumption..]. }
  destruct Es as (ss & ms & es & Es).
  exists (map (fun n => (s * Z2float (n - z))%float) ns). split.
  { unfold dequantize_data, sub_zero_point. rewrite Ez. f_equal.
    rewrite !map_map. apply map_ext_Forall.
    eapply Forall_impl; [exact Hd|]. intros n Hn. cbn beta in Hn |- *.
    rewrite Z2float_sub by lia. reflexivity. }
  unfold quantize_data. rewrite (bind_lift_eq _ _ _ _ Ez).
  assert (Ev : map (fun x => (np_round (x / s) + Z2float z)%float)
                 (map (fun n => (s * Z2float (n - z))%float) ns)
               = map Z2float ns).
  { rewrite map_map. apply map_ext_Forall.
    eapply Forall_impl; [exact Hall|]. intros n [Hn Fn]. cbn beta in Hn |- *.
    assert (R : np_round ((s * Z2float (n - z)) / s) = Z2float (n - z)).
    { destruct (Z.eq_dec (n - z) 0) as [E0|N0].
      - rewrite E0. eapply np_round_mul_div_zero, Es.
      - eapply np_round_mul_div_finite; eassumption. }
    rewrite R, Z2float_add by lia. f_equal. lia. }
  rewrite Ev. apply clip_range_integers; [assumption..|].
  rewrite List.Forall_forall in *. intros n Hin.
  split; [auto|]. specialize (Hd n Hin). cbn beta in Hd. lia.
Qed.

Lemma wrap_id w n : 1 <= w -> in_int w n = true -> wrap w n = n.
Proof.
  intros Hw H. apply in_int_spec in H. unfold wrap.
  replace (2 ^ w) with (2 * 2 ^ (w - 1))
    by (rewrite <- Z.pow_succ_r by lia; f_equal; lia).
  rewrite Z.mod_small; lia.
Qed.

(* ===================================================================== *)
(** ** The conversions when they return, and the specification's retyping *)
(* ===================================================================== *)

(** Activation retyping of an 8-bit tensor quantized per layer returns: the
    model it leaves. *)
Lemma change_activation_tensor_8to16_ok h r t s ss z zs :
  tensors h !! r = Some t ->
  type t = INT8 ->
  quantizedDimension (quantization t) = 0 ->
  scale (quantization t) = s :: ss ->
  zeroPoint (quantization t) = z :: zs ->
  in_int 64 z = true ->
  change_activation_tensor_8to16 r h =
    (heap_log ("Set " ++ name t ++ " from int8 to int16 ")
       (heap_set_tensor r
          {| type := INT16; buffer := buffer t; name := name t;
             quantization :=
               {| scale := [scale_8to16 s z]; zeroPoint := [0];
                  quantizedDimension := 0 |} |} h), Return tt).
Proof.
  intros Ht Hty Hd Hs Hz Hr.
  unfold change_activation_tensor_8to16.
  rewrite (bind_eq _ _ _ _ _ (tensor_read_ok _ _ _ Ht)).
  rewrite (bind_lift_eq _ _ _ _ TENSOR_TYPE_CODE_int8).
  rewrite Hty, decide_True by reflexivity.
  erewrite bind_eq by (eapply change_quantization_settings_8to16_ok; eassumption).
  rewrite (bind_lift_eq _ _ _ _ TENSOR_TYPE_CODE_int16).
  erewrite bind_eq by (eapply tensor_update_ok, heap_set_tensor_lookup; eassumption).
  rewrite heap_set_tensor_twice.
  erewrite bind_eq by (eapply tensor_read_ok, heap_set_tensor_lookup; eassumption).
  reflexivity.
Qed.

(** On an 8-bit tensor quantized per channel it raises, and changes
    nothing. *)
Lemma change_activation_tensor_8to16_per_channel h r t :
  tensors h !! r = Some t -> type t = INT8 ->
  quantizedDimension (quantization t) <> 0 ->
  change_activation_tensor_8to16 r h = (h, Raise per_channel_error).
Proof.
  intros Ht Hty Hd. unfold change_activation_tensor_8to16.
  rewrite (bind_eq _ _ _ _ _ (tensor_read_ok _ _ _ Ht)).
  rewrite (bind_lift_eq _ _ _ _ TENSOR_TYPE_CODE_int8).
  rewrite Hty, decide_True by reflexivity.
  erewrite bind_raise; [reflexivity|].
  unfold change_quantization_settings_8to16.
  rewrite (bind_eq _ _ _ _ _ (tensor_read_ok _ _ _ Ht)).
  destruct (Z.eqb_spec (quantizedDimension (quantization t)) 0); [contradiction|].
  reflexivity.
Qed.

(** The first steps of [requantize_fully_connected]: the three tensors are
    looked up before anything is changed. *)
Lemma requantize_fully_connected_lookup op h i0 i1 o0 ri rw ro :
  getitem (inputs op) 0 = inr i0 ->
  py_index (length (tensors h)) i0 = Some ri ->
  getitem (inputs op) 1 = inr i1 ->
  py_index (length (tensors h)) i1 = Some rw ->
  getitem (outputs op) 0 = inr o0 ->
  py_index (length (tensors h)) o0 = Some ro ->
  requantize_fully_connected op h =
    (change_activation_tensor_8to16 ri;;
     change_activation_tensor_8to16 ro;;
     let* i2 := lift (getitem (inputs op) 2) in
     if negb (i2 =? -1) then
       let* bias_tensor := tensors_getitem i2 in
       set_bias_type_int64 ri rw bias_tensor
     else ret tt) h.
Proof.
  intros Hi0 Hri Hi1 Hrw Ho0 Hro. unfold requantize_fully_connected.
  erewrite bind_lift_eq by exact Hi0.
  erewrite bind_eq by (apply tensors_getitem_ok; eassumption).
  erewrite bind_lift_eq by exact Hi1.
  erewrite bind_eq by (apply tensors_getitem_ok; eassumption).
  erewrite bind_lift_eq by exact Ho0.
  erewrite bind_eq by (apply tensors_getitem_ok; eassumption).
  reflexivity.
Qed.

(** A bias retyping on a buffer that encodes a non-empty sequence [q] of
    32-bit signed integers returns: the model it leaves. *)
Lemma set_bias_type_int64_ok
    h i w b ti tw tb pb buf q sb sbs zb zbs si sis sw sws :
  tensors h !! i = Some ti -> tensors h !! w = Some tw ->
  tensors h !! b = Some tb ->
  py_index (length (buffers h)) (buffer tb) = Some pb ->
  buffers h !! pb = Some buf ->
  data buf = tobytes_int32 q ->
  Forall (fun n => in_int 32 n = true) q ->
  q <> [] ->
  scale (quantization tb) = sb :: sbs ->
  zeroPoint (quantization tb) = zb :: zbs ->
  in_int 64 zb = true ->
  scale (quantization ti) = si :: sis ->
  scale (quantization tw) = sw :: sws ->
  exists deq qd h1,
    dequantize_data (NdInt32 q) sb zb = inr deq /\
    quantize_data deq (si * sw) 0 64 h = (h1, Return qd) /\
    set_bias_type_int64 i w b h =
      (heap_log ("Set " ++ name tb ++ " from int32 to int64")
         (heap_set_tensor b
            {| type := INT64; buffer := buffer tb; name := name tb;
               quantization :=
                 {| scale := [(si * sw)%float]; zeroPoint := [0];
                    quantizedDimension :=
                      quantizedDimension (quantization tb) |} |}
            (heap_set_buffer pb
               {| data := tobytes_int64 (map astype_int64 qd) |} h1)),
       Return tt).
Proof.
  intros Hti Htw Htb Hpb Hbuf Hdata Hq Hne Hsb Hzb Hz Hsi Hsw.
  destruct (dequantize_data_int32_ok q sb zb Hz) as (deq & Hdeq & Hlen).
  assert (Hdne : deq <> []).
  { destruct deq; [|discriminate]. destruct q; [contradiction|discriminate]. }
  pose proof (quantize_data_ok deq (si * sw) 0 64 _ _ _ h Hdne
                eq_refl eq_refl eq_refl) as Hqd.
  cbv zeta in Hqd.
  eexists deq, _, _. split; [exact Hdeq|]. split; [exact Hqd|].
  set (h1 := if overflows _ _ _ then _ else _) in *.
  assert (S1 : same_store h h1) by (eapply quantize_data_same_store, Hqd).
  destruct S1 as [ST SB].
  unfold set_bias_type_int64.
  erewrite bind_eq by (apply tensor_read_ok; eassumption).
  erewrite bind_eq by (apply buffers_getitem_ok; eassumption).
  rewrite Hsb, Hzb.
  erewrite bind_lift_eq by reflexivity.
  erewrite bind_lift_eq by reflexivity.
  erewrite bind_eq by (apply buffer_read_ok; eassumption).
  rewrite Hdata.
  erewrite bind_lift_eq by (apply frombuffer_tobytes_int32; assumption).
  erewrite bind_lift_eq by exact Hdeq.
  erewrite bind_eq by (apply tensor_read_ok; eassumption).
  rewrite Hsi. erewrite bind_lift_eq by reflexivity.
  erewrite bind_eq by (apply tensor_read_ok; eassumption).
  rewrite Hsw. erewrite bind_lift_eq by reflexivity.
  erewrite bind_eq by exact Hqd.
  erewrite bind_eq by (eapply buffer_write_ok; rewrite SB; eassumption).
  rewrite (bind_lift_eq _ _ _ _ TENSOR_TYPE_CODE_int64).
  assert (Htb2 : tensors (heap_set_buffer pb
            {| data := tobytes_int64 (map astype_int64
                 (map (np_clip1 (-9223372036854775808) 9223372036854775808)
                    (map (fun x => (np_round (x / (si * sw)) + 0)%float) deq))) |}
            h1) !! b = Some tb) by (cbn; congruence).
  erewrite bind_eq by (eapply tensor_update_ok; eassumption).
  erewrite bind_eq
    by (eapply tensor_update_ok, heap_set_tensor_lookup; eassumption).
  rewrite heap_set_tensor_twice.
  erewrite bind_eq
    by (eapply tensor_update_ok, heap_set_tensor_lookup; eassumption).
  rewrite heap_set_tensor_twice.
  erewrite bind_eq
    by (eapply tensor_read_ok, heap_set_tensor_lookup; eassumption).
  reflexivity.
Qed.

(** A fully connected operator whose bias slot holds -1 is converted by
    the two activation retypings alone; and, however the conversion ends,
    the weight tensor and its buffer are as they were. *)
Lemma requantize_fully_connected_weight op h i0 i1 o0 ri rw ro :
  getitem (inputs op) 0 = inr i0 ->
  py_index (length (tensors h)) i0 = Some ri ->
  getitem (inputs op) 1 = inr i1 ->
  py_index (length (tensors h)) i1 = Some rw ->
  getitem (outputs op) 0 = inr o0 ->
  py_index (length (tensors h)) o0 = Some ro ->
  (getitem (inputs op) 2 = inr (-1) ->
   requantize_fully_connected op h =
     (change_activation_tensor_8to16 ri;;
      change_activation_tensor_8to16 ro) h) /\
  (forall h' out,
     requantize_fully_connected op h = (h', out) ->
     rw <> ri -> rw <> ro ->
     (forall i2 rb, getitem (inputs op) 2 = inr i2 -> i2 <> -1 ->
        py_index (length (tensors h)) i2 = Some rb -> rb <> rw) ->
     tensors h' !! rw = tensors h !! rw /\
     forall tw pw, tensors h !! rw = Some tw ->
       py_index (length (buffers h)) (buffer tw) = Some pw ->
       (forall i2 rb tb, getitem (inputs op) 2 = inr i2 -> i2 <> -1 ->
          py_index (length (tensors h)) i2 = Some rb ->
          tensors h !! rb = Some tb ->
          py_index (length (buffers h)) (buffer tb) <> Some pw) ->
       buffers h' !! pw = buffers h !! pw).
Proof.
  intros Hi0 Hri Hi1 Hrw Ho0 Hro. split.
  - intros Hi2. unfold requantize_fully_connected.
    erewrite bind_lift_eq by exact Hi0.
    erewrite bind_eq by (apply tensors_getitem_ok; eassumption).
    erewrite bind_lift_eq by exact Hi1.
    erewrite bind_eq by (apply tensors_getitem_ok; eassumption).
    erewrite bind_lift_eq by exact Ho0.
    erewrite bind_eq by (apply tensors_getitem_ok; eassumption).
    unfold bind.
    destruct (change_activation_tensor_8to16 ri h) as [h1 [[]|e]]; [|reflexivity].
    destruct (change_activation_tensor_8to16 ro h1) as [h2 [[]|e]]; [|reflexivity].
    rewrite Hi2. reflexivity.
  - intros h' out H Nri Nro Nb.
    unfold requantize_fully_connected in H.
    erewrite bind_lift_eq in H by exact Hi0.
    erewrite bind_eq in H by (apply tensors_getitem_ok; eassumption).
    erewrite bind_lift_eq in H by exact Hi1.
    erewrite bind_eq in H by (apply tensors_getitem_ok; eassumption).
    erewrite bind_lift_eq in H by exact Ho0.
    erewrite bind_eq in H by (apply tensors_getitem_ok; eassumption).
    assert (F : frame (fun r => r <> rw)
                  (fun p => exists i2 rb tb,
                     getitem (inputs op) 2 = inr i2 /\ i2 <> -1 /\
                     py_index (length (tensors h)) i2 = Some rb /\
                     tensors h !! rb = Some tb /\
                     py_index (length (buffers h)) (buffer tb) = Some p) h h').
    { apply bind_inv in H as [(e & H & _)|([] & h1 & K & H)].
      { eapply change_activation_tensor_8to16_frame_in, H. congruence. }
      assert (F1 : frame (fun r => r <> rw) (fun _ => False) h h1).
      { eapply change_activation_tensor_8to16_frame_in, K. congruence. }
      apply bind_inv in H as [(e & H & _)|([] & h2 & K2 & H)].
      { eapply frame_trans;
          [eapply frame_weaken; [| |exact F1]; [auto|intros p []]|].
        eapply change_activation_tensor_8to16_frame_in, H. congruence. }
      assert (F2 : frame (fun r => r <> rw) (fun _ => False) h h2).
      { eapply frame_trans; [exact F1|].
        eapply change_activation_tensor_8to16_frame_in, K2. congruence. }
      clear F1 K K2.
      apply bind_lift_inv in H as [(e & _ & -> & _)|(i2 & Hi2 & H)].
      { eapply frame_weaken; [| |exact F2]; [auto|intros p []]. }
      destruct (Z.eqb_spec i2 (-1)) as [E|N]; cbn [negb] in H.
      { inversion H; subst. eapply frame_weaken; [| |exact F2]; [auto|intros p []]. }
      pose proof F2 as (L1 & L2 & FT & FB & FBuf).
      apply bind_inv in H as [(e & H & _)|(rb & h3 & K & H)].
      { apply tensors_getitem_inv in H as [-> _].
        eapply frame_weaken; [| |exact F2]; [auto|intros p []]. }
      apply tensors_getitem_inv in K as [-> Hrb]. rewrite L1 in Hrb.
      apply set_bias_type_int64_frame in H.
      eapply frame_trans;
        [eapply frame_weaken; [| |exact F2]; [auto|intros p []]|].
      eapply frame_weaken; [| |exact H].
      + intros r <-. eapply Nb; eassumption.
      + intros p (tb & Htb & Hp).
        pose proof (FBuf rb) as Eb. rewrite Htb in Eb. cbn in Eb.
        destruct (tensors h !! rb) as [tb0|] eqn:Etb0; [|discriminate].
        cbn in Eb. injection Eb as Eb.
        exists i2, rb, tb0. rewrite <- Eb, <- L2. auto. }
    destruct F as (_ & _ & FT & FB & _). split.
    + apply FT. tauto.
    + intros tw pw Htw Hpw Nbuf. apply FB.
      intros (i2 & rb & tb & Hi2 & N & Hrb & Htb & Hp).
      eapply Nbuf; eassumption.
Qed.

(** An integer of the 64-bit range is converted to itself. *)
Lemma astype_int64_exact x n :
  float_to_Z x = Some n -> in_int 64 n = true -> astype_int64 x = n.
Proof.
  intros Hx Hn. unfold astype_int64.
  assert (T : trunc x = Some n).
  { unfold float_to_Z in Hx. unfold trunc.
    destruct (Prim2SF x) as [| | |s m e]; try discriminate Hx; [exact Hx|].
    destruct (0 <=? e).
    - rewrite <- Hx. f_equal. destruct s; lia.
    - destruct (Zpos m mod 2 ^ (- e) =? 0); [|discriminate].
      rewrite <- Hx. f_equal. destruct s; lia. }
  rewrite T, Hn. reflexivity.
Qed.

(** The program retypes an activation as the specification says. *)
Lemma spec_retype_activation_ok r h h1 :
  spec_retype_activation r h = Some h1 ->
  change_activation_tensor_8to16 r h = (h1, Return tt).
Proof.
  unfold spec_retype_activation, spec_retyped_activation.
  destruct (tensors h !! r) as [t|] eqn:Ht; [|discriminate].
  destruct (decide (type t = INT8)) as [Ety|Nty].
  - destruct (scale (quantization t)) as [|s ss] eqn:Hs; [discriminate|].
    destruct (zeroPoint (quantization t)) as [|z zs] eqn:Hz; [discriminate|].
    destruct (Z.eqb_spec (quantizedDimension (quantization t)) 0) as [Hd|];
      [|discriminate].
    destruct (in_int 64 z) eqn:Hr; [|discriminate].
    cbn [andb]. intros E. injection E as <-.
    eapply change_activation_tensor_8to16_ok; eassumption.
  - intros E. injection E as <-.
    apply change_activation_tensor_8to16_other with t; assumption.
Qed.

(** The specification's retyping keeps the number of tensors, and changes
    no buffer. *)
Lemma spec_retype_activation_frame r h h1 :
  spec_retype_activation r h = Some h1 ->
  frame (eq r) (fun _ => False) h h1.
Proof.
  intros H. eapply change_activation_tensor_8to16_frame.
  apply spec_retype_activation_ok, H.
Qed.

(* ===================================================================== *)
(** ** The claims of the specification *)
(* ===================================================================== *)

(** Claim C1.  For a tensor whose declared type is the 8-bit signed code and
    whose [quantizedDimension] is 0, with layer-level scale [s] and zero
    point [z] (a 64-bit integer, as the schema stores it), activation
    retyping sets the quantization to scale
    [max(|s * (128 - z)|, |s * (-128 - z)|) / 32767] and zero point [0] and
    the declared type to the 16-bit signed code.  Nothing else of the model
    changes, and the conversion is logged. *)
Theorem activation_retyping_int8 h r t s ss z zs :
  tensors h !! r = Some t ->
  type t = INT8 ->
  quantizedDimension (quantization t) = 0 ->
  scale (quantization t) = s :: ss ->
  zeroPoint (quantization t) = z :: zs ->
  in_int 64 z = true ->
  change_activation_tensor_8to16 r h =
    (heap_log ("Set " ++ name t ++ " from int8 to int16 ")
       (heap_set_tensor r
          {| type := INT16; buffer := buffer t; name := name t;
             quantization :=
               {| scale :=
                    [(py_max (abs (s * Z2float (128 - z)))
                             (abs (s * Z2float (-128 - z))) / 32767)%float];
                  zeroPoint := [0];
                  quantizedDimension := 0 |} |} h), Return tt).
Proof.
  intros Ht Hty Hd Hs Hz Hr.
  unfold change_activation_tensor_8to16.
  rewrite (bind_eq _ _ _ _ _ (tensor_read_ok _ _ _ Ht)).
  erewrite bind_lift_eq by reflexivity.
  rewrite Hty. rewrite decide_True by reflexivity.
  erewrite bind_eq by (eapply change_quantization_settings_8to16_ok; eassumption).
  erewrite bind_lift_eq by reflexivity.
  erewrite bind_eq by (eapply tensor_update_ok, heap_set_tensor_lookup; eassumption).
  rewrite heap_set_tensor_twice.
  erewrite bind_eq by (eapply tensor_read_ok, heap_set_tensor_lookup; eassumption).
  reflexivity.
Qed.

(** The activation of the specification's example: scale 0.5 and zero
    point 10. *)
Lemma activation_retyping_int8_witness :
  change_activation_tensor_8to16 0 activation_example =
    (heap_log "Set activation from int8 to int16 "
       (heap_set_tensor 0
          (layer_tensor INT16 0 "activation"
             (py_max (abs (0.5 * (128 - 10))) (abs (0.5 * (-128 - 10)))
              / 32767) 0 0)
          activation_example), Return tt).
Proof.
  exact (activation_retyping_int8 activation_example 0 _ 0.5 [] 10 []
           eq_refl eq_refl eq_refl eq_refl eq_refl eq_refl).
Defined.

(** Claim C2, amended.  For a bias tensor with layer-level scale [sb] and
    zero point [zb] whose buffer encodes a non-empty sequence [q] of 32-bit
    signed integers, bias retyping overwrites the buffer with the 64-bit
    signed encoding of a sequence that holds, at every position where
    [quantize(dequantize(q, sb, zb), si * sw, 0, 64)] is an integer of the
    64-bit signed range, that integer, [si] and [sw] being the scales of
    the input and of the weight tensor; it sets the type of the bias to the
    64-bit signed code and its quantization to scale [si * sw] and zero
    point [0]. *)
Theorem bias_retyping_nonempty
    h i w b ti tw tb pb buf q sb sbs zb zbs si sis sw sws :
  tensors h !! i = Some ti -> tensors h !! w = Some tw ->
  tensors h !! b = Some tb ->
  py_index (length (buffers h)) (buffer tb) = Some pb ->
  buffers h !! pb = Some buf ->
  data buf = tobytes_int32 q ->
  Forall (fun n => in_int 32 n = true) q ->
  q <> [] ->
  scale (quantization tb) = sb :: sbs ->
  zeroPoint (quantization tb) = zb :: zbs ->
  in_int 64 zb = true ->
  scale (quantization ti) = si :: sis ->
  scale (quantization tw) = sw :: sws ->
  exists deq qd h1 stored,
    dequantize_data (NdInt32 q) sb zb = inr deq /\
    quantize_data deq (si * sw) 0 64 h = (h1, Return qd) /\
    Forall2 (fun v m => forall n, float_to_Z v = Some n ->
                          in_int 64 n = true -> m = n) qd stored /\
    set_bias_type_int64 i w b h =
      (heap_log ("Set " ++ name tb ++ " from int32 to int64")
         (heap_set_tensor b
            {| type := INT64; buffer := buffer tb; name := name tb;
               quantization :=
                 {| scale := [(si * sw)%float]; zeroPoint := [0];
                    quantizedDimension :=
                      quantizedDimension (quantization tb) |} |}
            (heap_set_buffer pb {| data := tobytes_int64 stored |} h1)),
       Return tt).
Proof.
  intros Hti Htw Htb Hpb Hbuf Hdata Hq Hne Hsb Hzb Hz Hsi Hsw.
  destruct (set_bias_type_int64_ok h i w b ti tw tb pb buf q sb sbs zb zbs
              si sis sw sws Hti Htw Htb Hpb Hbuf Hdata Hq Hne Hsb Hzb Hz
              Hsi Hsw) as (deq & qd & h1 & D & Q & E).
  exists deq, qd, h1, (map astype_int64 qd).
  split; [exact D|]. split; [exact Q|]. split; [|exact E].
  clear. induction qd as [|v qd IH]; constructor; [|exact IH].
  intros n Hv Hn. apply astype_int64_exact; assumption.
Qed.

(** The bias conversion instance of the specification. *)
Lemma bias_retyping_nonempty_witness :
  exists deq qd h1 stored,
    dequantize_data (NdInt32 [5; -5]) 0.05 0 = inr deq /\
    quantize_data deq (0.1 * 0.2) 0 64 bias_example = (h1, Return qd) /\
    Forall2 (fun v m => forall n, float_to_Z v = Some n ->
                          in_int 64 n = true -> m = n) qd stored /\
    set_bias_type_int64 0 1 2 bias_example =
      (heap_log "Set bias from int32 to int64"
         (heap_set_tensor 2 (layer_tensor INT64 1 "bias" (0.1 * 0.2) 0 0)
            (heap_set_buffer 1 {| data := tobytes_int64 stored |} h1)),
       Return tt).
Proof.
  refine (bias_retyping_nonempty bias_example 0 1 2 _ _ _ 1 _ [5; -5]
            0.05 [] 0 [] 0.1 [] 0.2 []
            eq_refl eq_refl eq_refl eq_refl eq_refl eq_refl _ _
            eq_refl eq_refl eq_refl eq_refl eq_refl).
  - repeat constructor.
  - discriminate.
Defined.

(** A bias tensor whose buffer is empty encodes the empty sequence: the
    retyping raises [ValueError] and overwrites nothing. *)
Lemma bias_retyping_empty_buffer :
  frombuffer_int32 [] = inr [] /\
  set_bias_type_int64 0 1 2 empty_bias_example
    = (empty_bias_example, Raise ValueError).
Proof. split; reflexivity. Qed.

(** Claim C3 is not met by the code.  Tensors with [quantizedDimension = 1]
    that the conversion touches are converted without an error: the bias of
    a fully connected operator, for [set_bias_type_int64] has no test of the
    field where [change_quantization_settings_8to16] raises on it, and the
    8-bit output of a softmax operator. *)
Lemma per_channel_tensors_converted :
  (quantizedDimension <$> (quantization <$> tensors fc_per_channel_bias !! 3%nat))
    = Some 1 /\
  (exists h, requantize_fully_connected fc_op fc_per_channel_bias = (h, Return tt) /\
     type <$> tensors h !! 3%nat = Some INT64) /\
  (quantizedDimension <$> (quantization <$> tensors softmax_example !! 1%nat))
    = Some 1 /\
  (exists h, requantize_softmax softmax_op softmax_example = (h, Return tt) /\
     tensors h !! 1%nat
       = Some (layer_tensor INT16 0 "probabilities" (1 / 32768) 0 1)).
Proof.
  split; [reflexivity|]. split.
  - eexists. split; [vm_compute; reflexivity|reflexivity].
  - split; [reflexivity|].
    eexists. split; [vm_compute; reflexivity|reflexivity].
Qed.

(** Claim C4, amended.  For the bias conversion instance with input scale
    0.1, weight scale 0.2 and the int32 bias buffer [5, -5] quantized at
    scale 0.05 with zero point 0: the new bias scale is the binary64
    product [0.1 * 0.2 = 0.020000000000000004] (which is not the binary64
    number 0.02) with zero point 0, the dequantized values are
    [0.25, -0.25], and the re-quantized 64-bit stored values are
    [12, -12]. *)
Theorem bias_example_result :
  dequantize_data (NdInt32 [5; -5]) 0.05 0 = inr [0.25; -0.25]%float /\
  quantize_data [0.25; -0.25]%float (0.1 * 0.2) 0 64 bias_example
    = (bias_example, Return [12; -12]%float) /\
  set_bias_type_int64 0 1 2 bias_example =
    ({| tensors := [ layer_tensor INT16 0 "input" 0.1 0 0;
                     layer_tensor INT8 0 "weight" 0.2 0 0;
                     layer_tensor INT64 1 "bias" (0.1 * 0.2) 0 0 ];
        buffers := [ {| data := [] |}; {| data := tobytes_int64 [12; -12] |} ];
        logs := ["Set bias from int32 to int64"%string] |}, Return tt) /\
  (0.1 * 0.2)%float = 0.020000000000000004%float /\
  (0.1 * 0.2 =? 0.02)%float = false /\
  (0.25 / (0.1 * 0.2))%float = 12.499999999999998%float.
Proof. repeat split; vm_compute; reflexivity. Qed.

(** The values stored for the instance are not [13, -13]. *)
Lemma bias_example_not_13 :
  exists h, set_bias_type_int64 0 1 2 bias_example = (h, Return tt) /\
    buffers h !! 1%nat = Some {| data := tobytes_int64 [12; -12] |} /\
    tobytes_int64 [12; -12] <> tobytes_int64 [13; -13] /\
    (0.1 * 0.2 =? 0.02)%float = false.
Proof.
  eexists. split; [vm_compute; reflexivity|].
  split; [reflexivity|]. split; [vm_compute; discriminate|].
  vm_compute. reflexivity.
Qed.

(** Claim C5, amended.  For every non-empty input array, scale, zero point
    (a 64-bit integer) and bit width [1 <= b <= 54] such that no value
    [round(data / scale) + zero_point] is a NaN, [quantize_data] returns
    these values clamped element by element into
    [[-2^(b-1), 2^(b-1) - 1]], bounds that binary64 represents exactly;
    it logs a warning exactly when one of the values before clamping lies
    outside the range, and returns the clamped result either way.  In
    particular [quantize([1000], 1.0, 0, 8) = [127]] and
    [quantize([-1000], 1.0, 0, 8) = [-128]], each with a warning. *)
Theorem quantize_data_clamps :
  (forall data s z b h,
     data <> [] -> 1 <= b <= 54 -> in_int 64 z = true ->
     let lo := Z2float (- 2 ^ (b - 1)) in
     let hi := Z2float (2 ^ (b - 1) - 1) in
     let pre := map (fun x => (np_round (x / s) + Z2float z)%float) data in
     Forall (fun v => is_nan v = false) pre ->
     float_to_Z lo = Some (- 2 ^ (b - 1)) /\
     float_to_Z hi = Some (2 ^ (b - 1) - 1) /\
     quantize_data data s z b h =
       ((if existsb (fun v => (hi <? v)%float || (v <? lo)%float) pre
         then heap_log overflow_warning h else h),
        Return (map (np_clip1 lo hi) pre)) /\
     Forall (fun r => (lo <=? r)%float = true /\ (r <=? hi)%float = true)
       (map (np_clip1 lo hi) pre)) /\
  (forall h, quantize_data [1000%float] 1 0 8 h
             = (heap_log overflow_warning h, Return [127%float])) /\
  (forall h, quantize_data [(-1000)%float] 1 0 8 h
             = (heap_log overflow_warning h, Return [(-128)%float])).
Proof.
  split; [|split; intros h; apply quantize_data_examples].
  intros data s z b h Hd Hb Hz lo hi pre Hpre.
  destruct (exact_bounds_spec b (exact_bounds_54 b Hb)) as (Elo & Ehi & Hle).
  fold lo in Elo, Hle. fold hi in Ehi, Hle.
  destruct (leb_not_nan _ _ Hle) as [Nlo Nhi].
  destruct (as_float64_bounds b ltac:(lia)) as [Alo Ahi].
  apply in_int_64 in Hz.
  assert (2 ^ 63 <= 2 ^ 1000) by (apply Z.pow_le_mono_r; lia).
  pose proof (quantize_data_ok data s z b _ _ _ h Hd
                (py_float_ok z ltac:(lia)) Alo Ahi) as Q.
  cbv zeta in Q. fold lo hi pre in Q.
  rewrite (overflows_spec lo hi pre Nlo Nhi Hpre) in Q.
  repeat (split; [assumption|]).
  apply Forall_map. eapply Forall_impl; [exact Hpre|].
  intros v Nv. cbn beta. apply np_clip1_range; assumption.
Qed.

Lemma quantize_data_clamps_witness :
  quantize_data [1000; 3]%float 1 0 8 empty_heap
    = (heap_log overflow_warning empty_heap, Return [127; 3]%float).
Proof.
  destruct quantize_data_clamps as [G _].
  refine (proj1 (proj2 (proj2
            (G [1000; 3]%float 1%float 0 8 empty_heap _ _ eq_refl _)))).
  - discriminate.
  - lia.
  - repeat constructor.
Defined.

(** An empty array makes [quantize_data] raise [ValueError]; with a NaN in
    the array, the NaN is returned and no warning is logged although 1000
    lies out of the 8-bit range. *)
Lemma quantize_data_empty_or_nan :
  quantize_data [] 1 0 8 empty_heap = (empty_heap, Raise ValueError) /\
  quantize_data [nan; 1000%float] 1 0 8 empty_heap
    = (empty_heap, Return [nan; 127%float]).
Proof.
  split; [reflexivity|].
  rewrite (quantize_data_ok _ _ _ _ 0 (-128) 127 empty_heap)
    by (discriminate || reflexivity). reflexivity.
Qed.

(** Claim C6, amended.  For every non-empty array [q] of integers of the
    signed range of bit width [b] (at most 1024, so that the bounds are
    binary64 numbers), every zero point [z] such that each difference
    [q - z] is of magnitude below [2^51], and every scale [s] other than
    zero whose products [s * (q - z)] are finite -- a subnormal scale
    included -- [quantize(dequantize(q, s, z), s, z, b)] returns exactly
    the values of [q], and logs no warning.  The array is held as [int32],
    and then no difference [q - z] with a 32-bit zero point leaves the
    32-bit range, or as [float64], and then the zero point is an integer of
    53 bits, one that binary64 holds. *)
Theorem quantize_dequantize_roundtrip (int32 : bool) ns s z b h :
  ns <> [] -> b <= 1024 ->
  Forall (fun n => in_int b n = true) ns ->
  (if int32
   then Forall (fun n => in_int 32 n = true /\
                         (in_int 32 z = true -> in_int 32 (n - z) = true)) ns
   else in_int 53 z = true) ->
  Forall (fun n => Z.abs (n - z) < 2 ^ 51) ns ->
  (s =? 0)%float = false ->
  Forall (fun n => is_finite (s * Z2float (n - z)) = true) ns ->
  exists deq,
    dequantize_data (int_array int32 ns) s z = inr deq /\
    quantize_data deq s z b h = (h, Return (map Z2float ns)).
Proof.
  intros Hne Hb Hns Hi Hd Hs Hf.
  assert (Hb1 : 1 <= b).
  { destruct ns as [|n ns]; [contradiction|].
    inversion Hns as [|? ? Hn _]; subst.
    destruct (Z_le_gt_dec 1 b) as [|G]; [assumption|exfalso].
    unfold in_int in Hn. rewrite Z.pow_neg_r in Hn by lia.
    apply andb_true_iff in Hn as [L U].
    apply Z.leb_le in L. apply Z.ltb_lt in U. lia. }
  assert (Hz : in_int 53 z = true).
  { destruct int32; [|exact Hi].
    destruct ns as [|n ns]; [contradiction|].
    inversion Hi as [|? ? [Hn _] _]; subst.
    inversion Hd as [|? ? Hn' _]; subst.
    apply in_int_spec in Hn. apply in_int_spec.
    change (2 ^ (32 - 1)) with 2147483648 in Hn.
    change (2 ^ (53 - 1)) with 4503599627370496.
    change (2 ^ 51) with 2251799813685248 in Hn'. lia. }
  destruct (roundtrip_float64_wide ns s z b h Hne ltac:(lia) Hns Hz Hd Hs Hf)
    as (deq & D & Q).
  exists deq. split; [|exact Q].
  destruct int32; [|exact D]. rewrite <- D.
  unfold int_array, dequantize_data, sub_zero_point.
  apply in_int_spec in Hz. change (2 ^ (53 - 1)) with (2 ^ 52) in Hz.
  rewrite py_float_ok
    by (assert (2 ^ 52 <= 2 ^ 1000) by (apply Z.pow_le_mono_r; lia); lia).
  assert (E : Forall (fun n => Z2float (n - z) = (Z2float n - Z2float z)%float) ns).
  { eapply Forall_impl; [exact Hd|]. intros n Hn. cbn beta in Hn.
    rewrite Z2float_sub by lia. reflexivity. }
  destruct (in_int 32 z) eqn:Hz32.
  - f_equal. rewrite !map_map. apply map_ext_Forall.
    rewrite List.Forall_forall in E, Hi. apply List.Forall_forall.
    intros n Hin. destruct (Hi n Hin) as [_ Hw].
    rewrite wrap_id by (auto; lia). f_equal. apply E, Hin.
  - assert (Hz64 : in_int 64 z = true).
    { apply in_int_spec. change (2 ^ (64 - 1)) with (2 ^ 11 * 2 ^ 52). lia. }
    rewrite Hz64. f_equal. rewrite !map_map. apply map_ext_Forall.
    rewrite List.Forall_forall in E, Hd. apply List.Forall_forall.
    intros n Hin. pose proof (Hd n Hin) as Hn. cbn beta in Hn.
    rewrite wrap_id; [f_equal; apply E, Hin|lia|].
    apply in_int_spec. change (2 ^ (64 - 1)) with (2 ^ 12 * 2 ^ 51). lia.
Qed.

(** Two 48-bit values about a zero point of 34 bits, at the subnormal scale
    [2^-1070]. *)
Lemma quantize_dequantize_roundtrip_witness :
  exists deq,
    dequantize_data (int_array false [1099511627777; -7]) 0x1p-1070 8589934592
      = inr deq /\
    quantize_data deq 0x1p-1070 8589934592 48 empty_heap
      = (empty_heap, Return (map Z2float [1099511627777; -7])).
Proof.
  apply (quantize_dequantize_roundtrip false [1099511627777; -7]
           0x1p-1070 8589934592 48 empty_heap).
  - discriminate.
  - lia.
  - repeat constructor.
  - reflexivity.
  - repeat constructor.
  - reflexivity.
  - repeat constructor.
Defined.

(** The round trip as first stated fails: at scale [2^1023] the product
    with 100 is infinite and the value comes back as 127; the difference
    [2^51 + 1390346191] comes back one higher at a scale just below 2, in a
    [float64] array and, with that zero point, in the [int32] array [[0]],
    which comes back as [[1]]; an [int32] difference that wraps around
    comes back as [-2^31]; and on the empty array [quantize_data] raises
    [ValueError]. *)
Lemma quantize_dequantize_not_exact :
  (exists deq,
     dequantize_data (int_array false [100]) 0x1p1023 0 = inr deq /\
     quantize_data deq 0x1p1023 0 8 empty_heap
       = (heap_log overflow_warning empty_heap, Return [127%float])) /\
  (exists deq,
     dequantize_data (int_array false [2251801204031439])
       0x1.fffffb924992fp+0 0 = inr deq /\
     quantize_data deq 0x1.fffffb924992fp+0 0 64 empty_heap
       = (empty_heap, Return [Z2float 2251801204031440])) /\
  (exists deq,
     dequantize_data (int_array true [0])
       0x1.fffffb924992fp+0 (-2251801204031439) = inr deq /\
     quantize_data deq 0x1.fffffb924992fp+0 (-2251801204031439) 8 empty_heap
       = (empty_heap, Return [1%float])) /\
  (exists deq,
     dequantize_data (int_array true [2147483646]) 1 (-2) = inr deq /\
     quantize_data deq 1 (-2) 32 empty_heap
       = (heap_log overflow_warning empty_heap,
          Return [(-2147483648)%float])) /\
  (exists deq,
     dequantize_data (int_array true []) 1 0 = inr deq /\
     quantize_data deq 1 0 8 empty_heap = (empty_heap, Raise ValueError)).
Proof.
  repeat split; eexists; (split; [vm_compute; reflexivity|]);
    vm_compute; reflexivity.
Qed.

(** Claim C7.  Activation retyping is idempotent: applied to the model it
    has left, it returns that model unchanged, with the outcome of the first
    application; for it leaves a tensor whose type is not the 8-bit signed
    code as it is, and a first application that converts an 8-bit tensor
    gives it the 16-bit signed code. *)
Theorem activation_retyping_idempotent :
  (forall h r,
     change_activation_tensor_8to16 r (fst (change_activation_tensor_8to16 r h))
     = change_activation_tensor_8to16 r h) /\
  (forall h r t, tensors h !! r = Some t -> type t <> INT8 ->
     change_activation_tensor_8to16 r h = (h, Return tt)) /\
  (forall h r t h', tensors h !! r = Some t -> type t = INT8 ->
     change_activation_tensor_8to16 r h = (h', Return tt) ->
     exists t', tensors h' !! r = Some t' /\ type t' = INT16).
Proof.
  split; [|split].
  - intros h r.
    destruct (change_activation_tensor_8to16 r h) as [h' o] eqn:E.
    cbn [fst]. pose proof E as I.
    apply change_activation_tensor_8to16_inv in I.
    destruct o as [[]|e].
    + destruct I as [[-> _]|(t & q & Ht & Hty & ->)]; [assumption|].
      eapply change_activation_tensor_8to16_other.
      * cbn. apply list_lookup_insert_eq. eapply lookup_lt_Some, Ht.
      * discriminate.
    + now subst h'.
  - intros h r t. apply change_activation_tensor_8to16_other.
  - intros h r t h' Ht Hty E.
    apply change_activation_tensor_8to16_inv in E
      as [[_ N]|(t1 & q & Ht1 & _ & ->)].
    + exfalso. eapply N; eassumption.
    + eexists. split;
        [cbn; apply list_lookup_insert_eq; eapply lookup_lt_Some, Ht
        |reflexivity].
Qed.

(** Claim C8, amended.  For a softmax operator whose output tensor is not
    its input tensor and has the 8-bit signed code, requantization, once the
    retyping of the input activation has returned, sets the quantization of
    the output tensor to scale [1 / 32768] and zero point [0] and its type
    to the 16-bit signed code, whatever its scale and zero point were; an
    output tensor of another type is left unchanged. *)
Theorem requantize_softmax_output op h i o ri ro tout :
  getitem (inputs op) 0 = inr i ->
  py_index (length (tensors h)) i = Some ri ->
  getitem (outputs op) 0 = inr o ->
  py_index (length (tensors h)) o = Some ro ->
  tensors h !! ro = Some tout ->
  (type tout = INT8 -> ri <> ro ->
   forall h1, change_activation_tensor_8to16 ri h = (h1, Return tt) ->
   requantize_softmax op h =
     (heap_log ("Set " ++ name tout ++ " from int8 to int16 ")
        (heap_set_tensor ro
           {| type := INT16; buffer := buffer tout; name := name tout;
              quantization :=
                {| scale := [(1 / 32768)%float]; zeroPoint := [0];
                   quantizedDimension :=
                     quantizedDimension (quantization tout) |} |} h1),
      Return tt)) /\
  (type tout <> INT8 ->
   forall h' out, requantize_softmax op h = (h', out) ->
   tensors h' !! ro = Some tout).
Proof.
  intros Hi Hri Ho Hro Hto. split.
  - intros Hty Hne h1 Hin. unfold requantize_softmax.
    erewrite bind_lift_eq by exact Hi.
    erewrite bind_eq by (apply tensors_getitem_ok; eassumption).
    erewrite bind_lift_eq by exact Ho.
    erewrite bind_eq by (apply tensors_getitem_ok; eassumption).
    erewrite bind_eq by exact Hin.
    pose proof (change_activation_tensor_8to16_frame _ _ _ _ Hin)
      as (_ & _ & F & _).
    assert (Hto1 : tensors h1 !! ro = Some tout) by (rewrite F; congruence).
    erewrite bind_eq by (apply tensor_read_ok; eassumption).
    rewrite (bind_lift_eq _ _ _ _ TENSOR_TYPE_CODE_int8).
    rewrite decide_True by assumption.
    erewrite bind_eq by (eapply tensor_update_ok; eassumption).
    erewrite bind_eq
      by (eapply tensor_update_ok, heap_set_tensor_lookup; eassumption).
    rewrite heap_set_tensor_twice.
    rewrite (bind_lift_eq _ _ _ _ TENSOR_TYPE_CODE_int16).
    erewrite bind_eq
      by (eapply tensor_update_ok, heap_set_tensor_lookup; eassumption).
    rewrite heap_set_tensor_twice.
    erewrite bind_eq
      by (eapply tensor_read_ok, heap_set_tensor_lookup; eassumption).
    reflexivity.
  - intros Hty h' out H. unfold requantize_softmax in H.
    erewrite bind_lift_eq in H by exact Hi.
    erewrite bind_eq in H by (apply tensors_getitem_ok; eassumption).
    erewrite bind_lift_eq in H by exact Ho.
    erewrite bind_eq in H by (apply tensors_getitem_ok; eassumption).
    assert (G : forall h1 o1, change_activation_tensor_8to16 ri h = (h1, o1) ->
                tensors h1 !! ro = Some tout).
    { intros h1 o1 E. destruct (decide (ri = ro)) as [<-|N].
      - rewrite (change_activation_tensor_8to16_other _ _ _ Hto Hty) in E.
        inversion E; subst; assumption.
      - apply change_activation_tensor_8to16_frame in E as (_ & _ & F & _).
        rewrite F; congruence. }
    apply bind_inv in H as [(e & H & _)|([] & h1 & K & H)];
      [eapply G, H|].
    apply G in K.
    erewrite bind_eq in H by (apply tensor_read_ok; eassumption).
    rewrite (bind_lift_eq _ _ _ _ TENSOR_TYPE_CODE_int8) in H.
    rewrite decide_False in H by assumption.
    inversion H; subst. assumption.
Qed.

Lemma requantize_softmax_output_witness :
  requantize_softmax softmax_op softmax_example =
    (heap_log "Set probabilities from int8 to int16 "
       (heap_set_tensor 1
          (layer_tensor INT16 0 "probabilities" (1 / 32768) 0 1)
          softmax_example), Return tt).
Proof.
  refine (proj1 (requantize_softmax_output softmax_op softmax_example 0 1
            0%nat 1%nat _ eq_refl eq_refl eq_refl eq_refl eq_refl)
            eq_refl _ softmax_example eq_refl).
  discriminate.
Defined.

(** The claim as first stated fails on two softmax operators whose output
    is 8-bit: with an 8-bit input quantized per channel the conversion
    raises and the output keeps its type, scale and zero point; and when
    the output tensor is the input tensor it ends with the 16-bit scale
    derived from its range, not with [1 / 32768]. *)
Lemma requantize_softmax_output_fails :
  (tensors softmax_per_channel_input !! 1%nat
     = Some (layer_tensor INT8 0 "probabilities" 0.00390625 (-128) 0) /\
   requantize_softmax softmax_op softmax_per_channel_input
     = (softmax_per_channel_input, Raise per_channel_error)) /\
  (tensors activation_example !! 0%nat
     = Some (layer_tensor INT8 0 "activation" 0.5 10 0) /\
   requantize_softmax softmax_in_place_op activation_example
     = (heap_log "Set activation from int8 to int16 "
          (heap_set_tensor 0
             (layer_tensor INT16 0 "activation" (scale_8to16 0.5 10) 0 0)
             activation_example), Return tt) /\
   (scale_8to16 0.5 10 =? 1 / 32768)%float = false).
Proof.
  split; [split; reflexivity|].
  split; [reflexivity|]. split; [|vm_compute; reflexivity].
  unfold requantize_softmax.
  erewrite bind_lift_eq by reflexivity.
  erewrite bind_eq by (apply tensors_getitem_ok; reflexivity).
  erewrite bind_lift_eq by reflexivity.
  erewrite bind_eq by (apply tensors_getitem_ok; reflexivity).
  erewrite bind_eq
    by (eapply (change_activation_tensor_8to16_ok activation_example 0);
        reflexivity).
  reflexivity.
Qed.

(** Claim C9, amended.  For a fully connected operator both of whose
    activation retypings succeed as the specification describes them
    (section 4.2: an 8-bit activation is quantized per layer and is
    converted, another one is left as it is), requantization retypes the
    input and the output activation: with the bias slot holding the
    sentinel -1 it returns without an error and leaves exactly the model
    [h2] of the two retypings, with no step on a bias; with a bias, however
    its retyping ends, every tensor but the bias is as in [h2].  Whether
    the retypings succeed or not, a bias slot holding -1 adds no step and
    no error to theirs and, however the call ends, the weight tensor
    (distinct from the activations and from the bias) is as it was, and so
    is its buffer (distinct from the buffer of the bias). *)
Theorem requantize_fully_connected_frame op h i0 i1 o0 ri rw ro :
  getitem (inputs op) 0 = inr i0 ->
  py_index (length (tensors h)) i0 = Some ri ->
  getitem (inputs op) 1 = inr i1 ->
  py_index (length (tensors h)) i1 = Some rw ->
  getitem (outputs op) 0 = inr o0 ->
  py_index (length (tensors h)) o0 = Some ro ->
  (forall h1 h2,
     spec_retype_activation ri h = Some h1 ->
     spec_retype_activation ro h1 = Some h2 ->
     (getitem (inputs op) 2 = inr (-1) ->
      requantize_fully_connected op h = (h2, Return tt)) /\
     (forall h' out,
        requantize_fully_connected op h = (h', out) ->
        forall r,
          (forall i2, getitem (inputs op) 2 = inr i2 -> i2 <> -1 ->
             py_index (length (tensors h)) i2 <> Some r) ->
          tensors h' !! r = tensors h2 !! r)) /\
  (getitem (inputs op) 2 = inr (-1) ->
   requantize_fully_connected op h =
     (change_activation_tensor_8to16 ri;;
      change_activation_tensor_8to16 ro) h) /\
  (forall h' out,
     requantize_fully_connected op h = (h', out) ->
     rw <> ri -> rw <> ro ->
     (forall i2 rb, getitem (inputs op) 2 = inr i2 -> i2 <> -1 ->
        py_index (length (tensors h)) i2 = Some rb -> rb <> rw) ->
     tensors h' !! rw = tensors h !! rw /\
     forall tw pw, tensors h !! rw = Some tw ->
       py_index (length (buffers h)) (buffer tw) = Some pw ->
       (forall i2 rb tb, getitem (inputs op) 2 = inr i2 -> i2 <> -1 ->
          py_index (length (tensors h)) i2 = Some rb ->
          tensors h !! rb = Some tb ->
          py_index (length (buffers h)) (buffer tb) <> Some pw) ->
       buffers h' !! pw = buffers h !! pw).
Proof.
  intros Hi0 Hri Hi1 Hrw Ho0 Hro.
  destruct (requantize_fully_connected_weight op h i0 i1 o0 ri rw ro
              Hi0 Hri Hi1 Hrw Ho0 Hro) as [S W].
  split; [|split; assumption].
  intros h1 h2 R1 R2.
  pose proof (spec_retype_activation_frame _ _ _ R1) as (L1 & _).
  pose proof (spec_retype_activation_frame _ _ _ R2) as (L2 & _).
  apply spec_retype_activation_ok in R1, R2.
  assert (E : requantize_fully_connected op h =
              (let* i2 := lift (getitem (inputs op) 2) in
               if negb (i2 =? -1) then
                 let* bias_tensor := tensors_getitem i2 in
                 set_bias_type_int64 ri rw bias_tensor
               else ret tt) h2).
  { unfold requantize_fully_connected.
    erewrite bind_lift_eq by exact Hi0.
    erewrite bind_eq by (apply tensors_getitem_ok; eassumption).
    erewrite bind_lift_eq by exact Hi1.
    erewrite bind_eq by (apply tensors_getitem_ok; eassumption).
    erewrite bind_lift_eq by exact Ho0.
    erewrite bind_eq by (apply tensors_getitem_ok; eassumption).
    erewrite bind_eq by exact R1.
    erewrite bind_eq by exact R2. reflexivity. }
  split.
  - intros Hi2. rewrite E.
    erewrite bind_lift_eq by exact Hi2. reflexivity.
  - intros h' out H r Hr. rewrite E in H.
    apply bind_lift_inv in H as [(e & _ & -> & _)|(i2 & Hi2 & H)];
      [reflexivity|].
    destruct (Z.eqb_spec i2 (-1)) as [->|N]; cbn [negb] in H.
    { inversion H; subst. reflexivity. }
    apply bind_inv in H as [(e & H & _)|(rb & h3 & K & H)].
    { apply tensors_getitem_inv in H as [-> _]. reflexivity. }
    apply tensors_getitem_inv in K as [-> Hrb]. rewrite L2, L1 in Hrb.
    apply set_bias_type_int64_frame in H as (_ & _ & FT & _).
    apply FT. intros <-. exact (Hr i2 Hi2 N Hrb).
Qed.

(** A fully connected operator without bias, its three tensors 8-bit. *)
Lemma requantize_fully_connected_frame_witness :
  requantize_fully_connected fc_no_bias_op fc_no_bias =
    (heap_log "Set output from int8 to int16 "
       (heap_set_tensor 2
          (layer_tensor INT16 0 "output" (scale_8to16 0.25 (-3)) 0 0)
          (heap_log "Set input from int8 to int16 "
             (heap_set_tensor 0
                (layer_tensor INT16 0 "input" (scale_8to16 0.5 10) 0 0)
                fc_no_bias))), Return tt) /\
  tensors (fst (requantize_fully_connected fc_no_bias_op fc_no_bias)) !! 1%nat
    = tensors fc_no_bias !! 1%nat /\
  buffers (fst (requantize_fully_connected fc_no_bias_op fc_no_bias)) !! 1%nat
    = buffers fc_no_bias !! 1%nat.
Proof.
  destruct (requantize_fully_connected_frame fc_no_bias_op fc_no_bias
              0 1 2 0%nat 1%nat 2%nat
              eq_refl eq_refl eq_refl eq_refl eq_refl eq_refl) as (A & _ & B).
  split; [exact (proj1 (A _ _ eq_refl eq_refl) eq_refl)|].
  destruct (B _ _ (surjective_pairing _)) as [T U].
  - discriminate.
  - discriminate.
  - intros i2 rb E N. injection E as <-. contradiction.
  - split; [exact T|].
    apply (U _ 1%nat eq_refl eq_refl).
    intros i2 rb tb E N. injection E as <-. contradiction.
Defined.

(** The claim as first stated fails on four fully connected operators.
    With the bias slot holding -1 and an 8-bit output quantized per
    channel, the conversion raises an error, after the input has been
    retyped.  A weight that is the input tensor is retyped with it; a
    weight that is the bias tensor is retyped as a bias; and a weight whose
    buffer is the buffer of the bias keeps its type and quantization, but
    its buffer is rewritten. *)
Lemma requantize_fully_connected_fails :
  (getitem (inputs fc_no_bias_op) 2 = inr (-1) /\
   requantize_fully_connected fc_no_bias_op fc_per_channel_output =
     (heap_log "Set input from int8 to int16 "
        (heap_set_tensor 0
           (layer_tensor INT16 0 "input" (scale_8to16 0.5 10) 0 0)
           fc_per_channel_output), Raise per_channel_error)) /\
  (exists h,
     requantize_fully_connected fc_weight_is_input_op fc_shared_buffer
       = (h, Return tt) /\
     tensors fc_shared_buffer !! 0%nat
       = Some (layer_tensor INT8 0 "input" 0.5 10 0) /\
     tensors h !! 0%nat
       = Some (layer_tensor INT16 0 "input" (scale_8to16 0.5 10) 0 0)) /\
  (exists h,
     requantize_fully_connected fc_weight_is_bias_op fc_shared_buffer
       = (h, Return tt) /\
     tensors fc_shared_buffer !! 3%nat
       = Some (layer_tensor INT32 1 "bias" 0.05 0 0) /\
     tensors h !! 3%nat
       = Some (layer_tensor INT64 1 "bias" (scale_8to16 0.5 10 * 0.05) 0 0)) /\
  (exists h,
     requantize_fully_connected fc_op fc_shared_buffer = (h, Return tt) /\
     tensors h !! 1%nat = Some (layer_tensor INT8 1 "weight" 0.2 0 0) /\
     buffers fc_shared_buffer !! 1%nat
       = Some {| data := tobytes_int32 [5; -5] |} /\
     buffers h !! 1%nat = Some {| data := tobytes_int64 [594; -594] |}).
Proof.
  split; [split; [reflexivity|]|].
  { unfold requantize_fully_connected.
    erewrite bind_lift_eq by reflexivity.
    erewrite bind_eq by (apply tensors_getitem_ok; reflexivity).
    erewrite bind_lift_eq by reflexivity.
    erewrite bind_eq by (apply tensors_getitem_ok; reflexivity).
    erewrite bind_lift_eq by reflexivity.
    erewrite bind_eq by (apply tensors_getitem_ok; reflexivity).
    erewrite bind_eq
      by (eapply (change_activation_tensor_8to16_ok fc_per_channel_output 0);
          reflexivity).
    erewrite bind_raise; [reflexivity|].
    eapply change_activation_tensor_8to16_per_channel;
      [reflexivity|reflexivity|discriminate]. }
  repeat split; eexists; (split; [vm_compute; reflexivity|]);
    repeat split; vm_compute; reflexivity.
Qed.

(** Claim C10 fails at bit width 64, the one bias retyping uses: the upper
    bound [2^63 - 1] is not a binary64 number, the array is clipped at
    [2^63], which lies outside the range, and the conversion to [int64]
    that follows in [set_bias_type_int64] turns it into [-2^63]. *)
Lemma quantize_data_int64_upper :
  quantize_data [1e30%float] 1 0 64 empty_heap
    = (heap_log overflow_warning empty_heap,
       Return [9223372036854775808%float]) /\
  float_to_Z 9223372036854775808%float = Some (2 ^ 63) /\
  2 ^ 63 - 1 < 2 ^ 63 /\
  astype_int64 9223372036854775808%float = - 2 ^ 63.
Proof.
  split; [|split; [|split]]; [|vm_compute; reflexivity..].
  rewrite (quantize_data_ok _ _ _ _ 0
             (-9223372036854775808) 9223372036854775808 empty_heap)
    by (discriminate || reflexivity). reflexivity.
Qed.

(* ===================================================================== *)
(** ** Further properties of the program *)
(* ===================================================================== *)

(** Indexing a list raises nothing but [IndexError]. *)
Lemma getitem_error {A} (l : list A) i e : getitem l i = inl e -> e = IndexError.
Proof.
  unfold getitem. destruct (py_index _ _); [|congruence].
  destruct (l !! _); congruence.
Qed.

Lemma getitem_short {A} (l : list A) i :
  Z.of_nat (length l) <= i -> getitem l i = inl IndexError.
Proof.
  intros H. unfold getitem, py_index.
  destruct (Z.leb_spec 0 i); [|lia].
  destruct (Z.ltb_spec i (Z.of_nat (length l))); [lia|]. cbn.
  destruct (Z.ltb_spec i 0); [lia|]. now rewrite andb_false_r.
Qed.

Lemma tensors_getitem_error i h h' e :
  tensors_getitem i h = (h', Raise e) -> h' = h /\ e = IndexError.
Proof.
  unfold tensors_getitem. destruct (py_index _ _); intros [= <- <-]; auto.
Qed.

(** X1.  The reversed table [TENSOR_TYPE_CODE] inverts [TENSOR_CODE_TYPE]:
    a code is mapped to a data type exactly when the data type is mapped
    back to the code.  No two codes share a data type, so that reversing
    the items loses none. *)
Theorem tensor_type_code_inverse (c : TensorType) (d : dtype) :
  dict_get TENSOR_CODE_TYPE c = inr d <-> dict_get TENSOR_TYPE_CODE d = inr c.
Proof.
  split.
  - destruct c; vm_compute; intros [= <-]; reflexivity.
  - destruct d; try (vm_compute; intros [= <-]; reflexivity).
    unfold TENSOR_TYPE_CODE, TENSOR_CODE_TYPE. cbn [map fst snd dict_get].
    repeat (destruct (decide _) as [E|_];
            [try discriminate E; injection E as ->; intros [= <-]; reflexivity|]).
    discriminate.
Qed.

(** X2.  An 8-bit tensor quantized per layer that has no scale, or no zero
    point, makes activation retyping raise [IndexError]; the model is left
    as it was. *)
Theorem activation_retyping_missing_parameters h r t :
  tensors h !! r = Some t -> type t = INT8 ->
  quantizedDimension (quantization t) = 0 ->
  scale (quantization t) = [] \/ zeroPoint (quantization t) = [] ->
  change_activation_tensor_8to16 r h = (h, Raise IndexError).
Proof.
  intros Ht Hty Hd He. unfold change_activation_tensor_8to16.
  rewrite (bind_eq _ _ _ _ _ (tensor_read_ok _ _ _ Ht)).
  rewrite (bind_lift_eq _ _ _ _ TENSOR_TYPE_CODE_int8).
  destruct (decide (type t = INT8)); [|contradiction].
  apply bind_raise. unfold change_quantization_settings_8to16.
  rewrite (bind_eq _ _ _ _ _ (tensor_read_ok _ _ _ Ht)).
  rewrite Hd. cbn [Z.eqb negb].
  destruct (scale (quantization t)) as [|s ss] eqn:Es.
  - reflexivity.
  - destruct He as [He|He]; [discriminate|].
    rewrite (bind_lift_eq _ _ _ s) by reflexivity.
    rewrite He. reflexivity.
Qed.

(** An 8-bit tensor without quantization parameters. *)
Lemma activation_retyping_missing_parameters_witness :
  change_activation_tensor_8to16 0 unquantized_example
    = (unquantized_example, Raise IndexError).
Proof.
  eapply (activation_retyping_missing_parameters unquantized_example 0);
    [reflexivity|reflexivity|reflexivity|left; reflexivity].
Defined.

(** X3.  However it ends, activation retyping changes no buffer and no
    tensor but the one it is given, keeps the number of tensors, keeps the
    name and the buffer of the tensor, and adds at most one line to the
    log. *)
Theorem activation_retyping_frame r h :
  let h' := fst (change_activation_tensor_8to16 r h) in
  buffers h' = buffers h /\
  length (tensors h') = length (tensors h) /\
  (forall r', r' <> r -> tensors h' !! r' = tensors h !! r') /\
  (fun t => (name t, buffer t)) <$> tensors h' !! r
    = (fun t => (name t, buffer t)) <$> tensors h !! r /\
  (logs h' = logs h \/
   exists t, tensors h !! r = Some t /\
     logs h' = logs h ++ [("Set " ++ name t ++ " from int8 to int16 ")%string]).
Proof.
  destruct (change_activation_tensor_8to16 r h) as [h' o] eqn:E. cbn [fst].
  apply change_activation_tensor_8to16_inv in E.
  assert (Same : h' = h -> buffers h' = buffers h /\
    length (tensors h') = length (tensors h) /\
    (forall r', r' <> r -> tensors h' !! r' = tensors h !! r') /\
    (fun t => (name t, buffer t)) <$> tensors h' !! r
      = (fun t => (name t, buffer t)) <$> tensors h !! r /\
    (logs h' = logs h \/
     exists t, tensors h !! r = Some t /\
       logs h' = logs h ++ [("Set " ++ name t ++ " from int8 to int16 ")%string])).
  { intros ->. auto 6. }
  destruct o as [[]|e]; [|auto].
  destruct E as [[-> _]|(t & q & Ht & Hty & ->)]; [auto|]. clear Same.
  cbn [heap_log heap_set_tensor buffers tensors logs].
  split; [reflexivity|]. split; [apply length_insert|].
  split; [intros r' Hr; apply list_lookup_insert_ne; congruence|].
  split.
  - rewrite Ht, list_lookup_insert_eq; [reflexivity|].
    eapply lookup_lt_Some, Ht.
  - right. exists t. auto.
Qed.

(** X4.  An LSTM operator with fewer than 19 inputs makes
    [requantize_unidirectional_sequence_lstm] raise [IndexError] before
    anything is changed: the hidden state, input 18, is looked up before
    the first conversion. *)
Theorem lstm_short_inputs op h :
  (length (inputs op) < 19)%nat ->
  requantize_unidirectional_sequence_lstm op h = (h, Raise IndexError).
Proof.
  intros Hlen. unfold requantize_unidirectional_sequence_lstm.
  destruct (getitem (inputs op) 0) as [e|i0] eqn:E0.
  { apply getitem_error in E0 as ->. reflexivity. }
  rewrite (bind_lift_eq _ _ _ i0) by reflexivity.
  destruct (tensors_getitem i0 h) as [h1 [r0|e]] eqn:T0.
  2:{ destruct (tensors_getitem_error _ _ _ _ T0) as [-> ->].
      apply bind_raise. unfold tensors_getitem in *.
      destruct (py_index _ _); [discriminate|reflexivity]. }
  apply tensors_getitem_inv in T0 as [-> T0].
  rewrite (bind_eq _ _ _ _ _ (tensors_getitem_ok _ _ _ T0)).
  apply bind_lift_raise, getitem_short. lia.
Qed.

(** The LSTM operator without its hidden state, on the model of an LSTM:
    inputs 0 to 17 are there, and the first tensor is found. *)
Lemma lstm_short_inputs_witness :
  requantize_unidirectional_sequence_lstm lstm_short_op lstm_example
    = (lstm_example, Raise IndexError).
Proof. apply (lstm_short_inputs lstm_short_op lstm_example). cbn. lia. Defined.

(** What a bias retyping that returns has read and written. *)
Lemma set_bias_type_int64_inv i w b h h' :
  set_bias_type_int64 i w b h = (h', Return tt) ->
  exists tb pb sb zb buf q deq ti si tw sw h1 qd,
    tensors h !! b = Some tb /\
    py_index (length (buffers h)) (buffer tb) = Some pb /\
    getitem (scale (quantization tb)) 0 = inr sb /\
    getitem (zeroPoint (quantization tb)) 0 = inr zb /\
    buffers h !! pb = Some buf /\
    frombuffer_int32 (data buf) = inr q /\
    dequantize_data (NdInt32 q) sb zb = inr deq /\
    tensors h !! i = Some ti /\
    getitem (scale (quantization ti)) 0 = inr si /\
    tensors h !! w = Some tw /\
    getitem (scale (quantization tw)) 0 = inr sw /\
    quantize_data deq (si * sw) 0 64 h = (h1, Return qd) /\
    h' = heap_log ("Set " ++ name tb ++ " from int32 to int64")
           (heap_set_tensor b
              {| type := INT64; buffer := buffer tb; name := name tb;
                 quantization :=
                   {| scale := [(si * sw)%float]; zeroPoint := [0];
                      quantizedDimension :=
                        quantizedDimension (quantization tb) |} |}
              (heap_set_buffer pb
                 {| data := tobytes_int64 (map astype_int64 qd) |} h1)).
Proof.
  unfold set_bias_type_int64. intros H.
  apply bind_inv in H as [(e & _ & [=])|(tb & h1 & K & H)].
  apply tensor_read_inv in K as [-> Htb].
  apply bind_inv in H as [(e & _ & [=])|(pb & h1 & K & H)].
  apply buffers_getitem_inv in K as [-> Hpb].
  apply bind_lift_inv in H as [(? & _ & _ & [=])|(sb & Esb & H)].
  apply bind_lift_inv in H as [(? & _ & _ & [=])|(zb & Ezb & H)].
  apply bind_inv in H as [(e & _ & [=])|(buf & h1 & K & H)].
  apply buffer_read_inv in K as [-> Hbuf].
  apply bind_lift_inv in H as [(? & _ & _ & [=])|(q & Eq & H)].
  apply bind_lift_inv in H as [(? & _ & _ & [=])|(deq & Edeq & H)].
  apply bind_inv in H as [(e & _ & [=])|(ti & h1 & K & H)].
  apply tensor_read_inv in K as [-> Hti].
  apply bind_lift_inv in H as [(? & _ & _ & [=])|(si & Esi & H)].
  apply bind_inv in H as [(e & _ & [=])|(tw & h1 & K & H)].
  apply tensor_read_inv in K as [-> Htw].
  apply bind_lift_inv in H as [(? & _ & _ & [=])|(sw & Esw & H)].
  apply bind_inv in H as [(e & _ & [=])|(qd & h1 & K & H)].
  exists tb, pb, sb, zb, buf, q, deq, ti, si, tw, sw, h1, qd.
  repeat (split; [assumption|]).
  pose proof (quantize_data_same_store _ _ _ _ _ _ _ K) as [KT KB].
  apply bind_inv in H as [(e & _ & [=])|([] & h2 & K2 & H)].
  apply buffer_write_inv in K2 as ->.
  rewrite (bind_lift_eq _ _ _ _ TENSOR_TYPE_CODE_int64) in H.
  set (h2 := heap_set_buffer pb _ h1) in *.
  assert (Htb2 : tensors h2 !! b = Some tb) by (cbn; congruence).
  erewrite bind_eq in H by (eapply tensor_update_ok; eassumption).
  erewrite bind_eq in H
    by (eapply tensor_update_ok, heap_set_tensor_lookup; eassumption).
  rewrite heap_set_tensor_twice in H.
  erewrite bind_eq in H
    by (eapply tensor_update_ok, heap_set_tensor_lookup; eassumption).
  rewrite heap_set_tensor_twice in H.
  erewrite bind_eq in H
    by (eapply tensor_read_ok, heap_set_tensor_lookup; eassumption).
  rewrite logging_info_eq in H. inversion H. reflexivity.
Qed.

Lemma clip_range_length vals b h h' q :
  clip_range vals b h = (h', Return q) -> length q = length vals.
Proof.
  unfold clip_range. intros H.
  apply bind_lift_inv in H as [(? & _ & _ & [=])|(vmax & _ & H)].
  apply bind_lift_inv in H as [(? & _ & _ & [=])|(hi & _ & H)].
  apply bind_inv in H as [(e & _ & [=])|(over & h1 & _ & H)].
  apply bind_inv in H as [(e & _ & [=])|([] & h2 & _ & H)].
  apply bind_lift_inv in H as [(? & _ & _ & [=])|(lo & _ & H)].
  apply bind_lift_inv in H as [(? & _ & _ & [=])|(hi' & _ & H)].
  inversion H. apply length_map.
Qed.

Lemma quantize_data_length data s z b h h' q :
  quantize_data data s z b h = (h', Return q) -> length q = length data.
Proof.
  unfold quantize_data. intros H.
  apply bind_lift_inv in H as [(? & _ & _ & [=])|(zp & _ & H)].
  apply clip_range_length in H. now rewrite length_map in H.
Qed.

Lemma dequantize_data_length a s z deq :
  dequantize_data a s z = inr deq ->
  length deq = match a with NdInt32 q => length q | NdFloat64 q => length q end.
Proof.
  unfold dequantize_data, sub_zero_point. destruct a as [q|q].
  - destruct (in_int 32 z); [|destruct (in_int 64 z)];
      intros [= <-]; now rewrite ?length_map.
  - destruct (py_float z); intros [= <-]. now rewrite !length_map.
Qed.

Lemma le_bytes_length w n : length (le_bytes w n) = w.
Proof. revert n. induction w as [|w IH]; intros n; cbn; [|rewrite IH]; reflexivity. Qed.

Lemma tobytes_int64_length a : length (tobytes_int64 a) = (8 * length a)%nat.
Proof.
  unfold tobytes_int64. induction a as [|x a IH]; [reflexivity|].
  cbn [flat_map]. rewrite length_app, le_bytes_length, IH. cbn [length]. lia.
Qed.

(** [np.frombuffer] reads one [int32] for every four bytes, and refuses a
    buffer that does not consist of groups of four. *)
Lemma frombuffer_int32_spec bs :
  match frombuffer_int32 bs with
  | inr q => length bs = (4 * length q)%nat
  | inl e => e = ValueError /\ (length bs mod 4 <> 0)%nat
  end.
Proof.
  remember (length bs) as n eqn:En. revert bs En.
  induction n as [n IH] using lt_wf_ind. intros bs En.
  destruct bs as [|b0 [|b1 [|b2 [|b3 bs]]]]; cbn [frombuffer_int32].
  - subst. reflexivity.
  - subst. split; [reflexivity|]. cbn. lia.
  - subst. split; [reflexivity|]. cbn. lia.
  - subst. split; [reflexivity|]. cbn. lia.
  - cbn [length] in En.
    specialize (IH (length bs) ltac:(lia) bs eq_refl).
    destruct (frombuffer_int32 bs) as [e|q].
    + destruct IH as [-> IH]. split; [reflexivity|].
      subst n.
      replace (S (S (S (S (length bs))))) with (length bs + 1 * 4)%nat by lia.
      rewrite Nat.Div0.mod_add. exact IH.
    + cbn [length]. lia.
Qed.

(** X5.  A bias whose buffer does not hold a whole number of 32-bit
    values makes bias retyping raise [ValueError]; the model is left as it
    was. *)
Theorem bias_retyping_misaligned_buffer h i w b tb pb buf sb sbs zb zbs :
  tensors h !! b = Some tb ->
  py_index (length (buffers h)) (buffer tb) = Some pb ->
  buffers h !! pb = Some buf ->
  scale (quantization tb) = sb :: sbs ->
  zeroPoint (quantization tb) = zb :: zbs ->
  (length (data buf) mod 4 <> 0)%nat ->
  set_bias_type_int64 i w b h = (h, Raise ValueError).
Proof.
  intros Htb Hpb Hbuf Hs Hz Hlen. unfold set_bias_type_int64.
  rewrite (bind_eq _ _ _ _ _ (tensor_read_ok _ _ _ Htb)).
  rewrite (bind_eq _ _ _ _ _ (buffers_getitem_ok _ _ _ Hpb)).
  rewrite Hs, Hz.
  rewrite (bind_lift_eq _ _ _ sb) by reflexivity.
  rewrite (bind_lift_eq _ _ _ zb) by reflexivity.
  rewrite (bind_eq _ _ _ _ _ (buffer_read_ok _ _ _ Hbuf)).
  apply bind_lift_raise.
  pose proof (frombuffer_int32_spec (data buf)) as F.
  destruct (frombuffer_int32 (data buf)) as [e|q].
  - destruct F as [-> _]. reflexivity.
  - exfalso. apply Hlen. rewrite F, Nat.mul_comm. apply Nat.Div0.mod_mul.
Qed.

(** A tensor whose buffer holds three bytes, taken as a bias. *)
Lemma bias_retyping_misaligned_buffer_witness :
  set_bias_type_int64 0 1 1 fc_no_bias = (fc_no_bias, Raise ValueError).
Proof.
  eapply (bias_retyping_misaligned_buffer fc_no_bias 0 1 1 _ 1
            {| data := ["001"; "002"; "003"]%byte |} 0.2 [] 0 []);
    [reflexivity|reflexivity|reflexivity|reflexivity|reflexivity|].
  cbn. lia.
Defined.

(** X6.  A bias retyping that returns leaves in the buffer of the bias
    twice as many bytes as it found: one 64-bit value for every 32-bit
    value. *)
Theorem bias_retyping_buffer_size h i w b tb pb buf h' :
  tensors h !! b = Some tb ->
  py_index (length (buffers h)) (buffer tb) = Some pb ->
  buffers h !! pb = Some buf ->
  set_bias_type_int64 i w b h = (h', Return tt) ->
  exists buf', buffers h' !! pb = Some buf' /\
    length (data buf') = (2 * length (data buf))%nat.
Proof.
  intros Htb Hpb Hbuf H.
  apply set_bias_type_int64_inv in H
    as (tb' & pb' & sb & zb & buf' & q & deq & ti & si & tw & sw & h1 & qd
        & Htb' & Hpb' & _ & _ & Hbuf' & Eq & Edeq & _ & _ & _ & _ & Q & ->).
  assert (tb' = tb) as -> by congruence.
  assert (pb' = pb) as -> by congruence.
  assert (buf' = buf) as -> by congruence.
  pose proof (quantize_data_same_store _ _ _ _ _ _ _ Q) as [_ KB].
  eexists. split.
  - cbn [heap_log heap_set_tensor heap_set_buffer buffers].
    apply list_lookup_insert_eq. rewrite KB. eapply lookup_lt_Some, Hbuf.
  - cbn [data]. rewrite tobytes_int64_length, length_map.
    rewrite (quantize_data_length _ _ _ _ _ _ _ Q).
    rewrite (dequantize_data_length _ _ _ _ Edeq).
    pose proof (frombuffer_int32_spec (data buf)) as F. rewrite Eq in F. lia.
Qed.

(** The bias of two values: 8 bytes before, 16 after. *)
Lemma bias_retyping_buffer_size_witness :
  exists buf',
    buffers (fst (set_bias_type_int64 0 1 2 bias_example)) !! 1%nat = Some buf' /\
    length (data buf') = (2 * 8)%nat.
Proof.
  apply (bias_retyping_buffer_size bias_example 0 1 2
           (layer_tensor INT32 1 "bias" 0.05 0 0) 1
           {| data := tobytes_int32 [5; -5] |});
    [reflexivity|reflexivity|reflexivity|].
  vm_compute. reflexivity.
Defined.

(** X7.  However it ends, bias retyping keeps the number of tensors and of
    buffers, changes no tensor but the bias (so neither the input nor the
    weight it reads) and no buffer but the one of the bias, and changes the
    buffer index of no tensor. *)
Theorem bias_retyping_frame i w b h :
  let h' := fst (set_bias_type_int64 i w b h) in
  length (tensors h') = length (tensors h) /\
  length (buffers h') = length (buffers h) /\
  (forall r, r <> b -> tensors h' !! r = tensors h !! r) /\
  (forall p,
     (forall tb, tensors h !! b = Some tb ->
        py_index (length (buffers h)) (buffer tb) <> Some p) ->
     buffers h' !! p = buffers h !! p) /\
  (forall r, buffer <$> tensors h' !! r = buffer <$> tensors h !! r).
Proof.
  destruct (set_bias_type_int64 i w b h) as [h' o] eqn:E. cbn [fst].
  apply set_bias_type_int64_frame in E as (F1 & F2 & F3 & F4 & F5).
  split; [exact F1|]. split; [exact F2|].
  split; [intros r Hr; apply F3; congruence|].
  split; [|exact F5].
  intros p Hp. apply F4. intros (tb & Htb & Hpb). exact (Hp tb Htb Hpb).
Qed.

(** X8.  The conversion of a fully connected operator is not atomic: with
    an 8-bit input quantized per layer and an 8-bit output quantized per
    channel, it raises the per-channel error after the input has been
    converted to 16 bits, and the model keeps the converted input. *)
Theorem fully_connected_not_atomic
    op h i0 i1 o0 ri rw ro ti s ss z zs tout :
  getitem (inputs op) 0 = inr i0 ->
  py_index (length (tensors h)) i0 = Some ri ->
  getitem (inputs op) 1 = inr i1 ->
  py_index (length (tensors h)) i1 = Some rw ->
  getitem (outputs op) 0 = inr o0 ->
  py_index (length (tensors h)) o0 = Some ro ->
  tensors h !! ri = Some ti ->
  type ti = INT8 ->
  quantizedDimension (quantization ti) = 0 ->
  scale (quantization ti) = s :: ss ->
  zeroPoint (quantization ti) = z :: zs ->
  in_int 64 z = true ->
  tensors h !! ro = Some tout ->
  type tout = INT8 ->
  quantizedDimension (quantization tout) <> 0 ->
  ri <> ro ->
  requantize_fully_connected op h =
    (heap_log ("Set " ++ name ti ++ " from int8 to int16 ")
       (heap_set_tensor ri
          {| type := INT16; buffer := buffer ti; name := name ti;
             quantization :=
               {| scale := [scale_8to16 s z]; zeroPoint := [0];
                  quantizedDimension := 0 |} |} h),
     Raise per_channel_error).
Proof.
  intros Hi0 Hri Hi1 Hrw Ho0 Hro Hti Hty Hd Hs Hz Hzr Hto Htyo Hdo Ne.
  rewrite (requantize_fully_connected_lookup _ _ _ _ _ _ _ _
             Hi0 Hri Hi1 Hrw Ho0 Hro).
  erewrite bind_eq by (eapply change_activation_tensor_8to16_ok; eassumption).
  apply bind_raise.
  apply (change_activation_tensor_8to16_per_channel _ _ tout); [|assumption..].
  cbn [heap_log heap_set_tensor tensors].
  rewrite list_lookup_insert_ne by congruence. exact Hto.
Qed.

(** An operator whose output is quantized per channel. *)
Lemma fully_connected_not_atomic_witness :
  requantize_fully_connected fc_no_bias_op fc_per_channel_output =
    (heap_log "Set input from int8 to int16 "
       (heap_set_tensor 0
          (layer_tensor INT16 0 "input" (scale_8to16 0.5 10) 0 0)
          fc_per_channel_output),
     Raise per_channel_error).
Proof.
  apply (fully_connected_not_atomic fc_no_bias_op fc_per_channel_output
           0 1 2 0%nat 1%nat 2%nat
           (layer_tensor INT8 0 "input" 0.5 10 0) 0.5 [] 10 []
           (layer_tensor INT8 0 "output" 0.25 (-3) 1));
    try reflexivity; cbn; lia.
Defined.

(** X9.  A fully connected operator that lists exactly two inputs, an
    input and a weight (no bias slot at all, rather than the sentinel -1),
    and whose two activation conversions return, makes the conversion raise
    [IndexError]: the model is left with both activations converted. *)
Theorem fully_connected_short_inputs op h i0 i1 o0 ri rw ro h2 :
  getitem (inputs op) 0 = inr i0 ->
  py_index (length (tensors h)) i0 = Some ri ->
  getitem (inputs op) 1 = inr i1 ->
  py_index (length (tensors h)) i1 = Some rw ->
  getitem (outputs op) 0 = inr o0 ->
  py_index (length (tensors h)) o0 = Some ro ->
  length (inputs op) = 2%nat ->
  (change_activation_tensor_8to16 ri;;
   change_activation_tensor_8to16 ro) h = (h2, Return tt) ->
  requantize_fully_connected op h = (h2, Raise IndexError).
Proof.
  intros Hi0 Hri Hi1 Hrw Ho0 Hro Hlen H.
  rewrite (requantize_fully_connected_lookup _ _ _ _ _ _ _ _
             Hi0 Hri Hi1 Hrw Ho0 Hro).
  apply bind_inv in H as [(e & _ & [=])|([] & h1 & K1 & H)].
  rewrite (bind_eq _ _ _ _ _ K1), (bind_eq _ _ _ _ _ H).
  apply bind_lift_raise, getitem_short. lia.
Qed.

(** An operator with an input and a weight only, its tensors 8-bit. *)
Lemma fully_connected_short_inputs_witness :
  requantize_fully_connected fc_two_inputs_op fc_no_bias =
    (heap_log "Set output from int8 to int16 "
       (heap_set_tensor 2
          (layer_tensor INT16 0 "output" (scale_8to16 0.25 (-3)) 0 0)
          (heap_log "Set input from int8 to int16 "
             (heap_set_tensor 0
                (layer_tensor INT16 0 "input" (scale_8to16 0.5 10) 0 0)
                fc_no_bias))), Raise IndexError).
Proof.
  apply (fully_connected_short_inputs fc_two_inputs_op fc_no_bias
           0 1 2 0%nat 1%nat 2%nat);
    [reflexivity|reflexivity|reflexivity|reflexivity|reflexivity|reflexivity
    |reflexivity|vm_compute; reflexivity].
Defined.

(** X10.  When the conversion of a fully connected operator with an 8-bit
    input (scale [s], zero point [z]) and a bias returns, the bias has the
    64-bit code, zero point [0], and for its scale the product of the
    scale the input has after its conversion, [scale_8to16 s z], and the
    scale of the weight: the input is converted first and the bias reads
    the scale it then has. *)
Theorem fully_connected_bias_scale
    op h h' i0 i1 i2 o0 ri rw ro rb ti s ss z zs tw sw sws :
  getitem (inputs op) 0 = inr i0 ->
  py_index (length (tensors h)) i0 = Some ri ->
  getitem (inputs op) 1 = inr i1 ->
  py_index (length (tensors h)) i1 = Some rw ->
  getitem (outputs op) 0 = inr o0 ->
  py_index (length (tensors h)) o0 = Some ro ->
  getitem (inputs op) 2 = inr i2 -> i2 <> -1 ->
  py_index (length (tensors h)) i2 = Some rb ->
  tensors h !! ri = Some ti ->
  type ti = INT8 ->
  quantizedDimension (quantization ti) = 0 ->
  scale (quantization ti) = s :: ss ->
  zeroPoint (quantization ti) = z :: zs ->
  in_int 64 z = true ->
  tensors h !! rw = Some tw ->
  scale (quantization tw) = sw :: sws ->
  rw <> ri -> rw <> ro ->
  requantize_fully_connected op h = (h', Return tt) ->
  exists tb, tensors h' !! rb = Some tb /\
    type tb = INT64 /\
    scale (quantization tb) = [(scale_8to16 s z * sw)%float] /\
    zeroPoint (quantization tb) = [0].
Proof.
  intros Hi0 Hri Hi1 Hrw Ho0 Hro Hi2 Ni2 Hrb Hti Hty Hd Hs Hz Hzr Htw Hsw
    Nwi Nwo H.
  rewrite (requantize_fully_connected_lookup _ _ _ _ _ _ _ _
             Hi0 Hri Hi1 Hrw Ho0 Hro) in H.
  erewrite bind_eq in H
    by (eapply change_activation_tensor_8to16_ok; eassumption).
  set (ti' := {| type := INT16; buffer := buffer ti; name := name ti;
                 quantization := {| scale := [scale_8to16 s z];
                                    zeroPoint := [0];
                                    quantizedDimension := 0 |} |}) in *.
  set (h1 := heap_log _ (heap_set_tensor ri ti' h)) in *.
  assert (L1 : length (tensors h1) = length (tensors h))
    by apply length_insert.
  assert (Hti1 : tensors h1 !! ri = Some ti').
  { apply list_lookup_insert_eq. eapply lookup_lt_Some, Hti. }
  assert (Htw1 : tensors h1 !! rw = Some tw).
  { cbn. rewrite list_lookup_insert_ne by congruence. exact Htw. }
  apply bind_inv in H as [(e & _ & [=])|([] & h2 & K2 & H)].
  assert (L2 : length (tensors h2) = length (tensors h1) /\
               tensors h2 !! ri = Some ti' /\ tensors h2 !! rw = Some tw).
  { apply change_activation_tensor_8to16_inv in K2
      as [[-> _]|(t & q & Ht & Hty' & ->)]; [auto|].
    cbn [heap_log heap_set_tensor tensors].
    assert (ro <> ri).
    { intros ->. rewrite Hti1 in Ht. injection Ht as <-. discriminate Hty'. }
    rewrite length_insert, !list_lookup_insert_ne by congruence. auto. }
  destruct L2 as (L2 & Hti2 & Htw2).
  rewrite (bind_lift_eq _ _ _ _ Hi2) in H.
  destruct (Z.eqb_spec i2 (-1)) as [|_]; [contradiction|]. cbn [negb] in H.
  erewrite bind_eq in H
    by (apply tensors_getitem_ok; rewrite L2, L1; exact Hrb).
  apply set_bias_type_int64_inv in H
    as (tb & pb & sb & zb & buf & q & deq & ti2 & si & tw2 & sw2 & h3 & qd
        & Htb & _ & _ & _ & _ & _ & _ & Hti2' & Esi & Htw2' & Esw & Q & ->).
  rewrite Hti2 in Hti2'. injection Hti2' as <-.
  rewrite Htw2 in Htw2'. injection Htw2' as <-.
  rewrite Hsw in Esw. cbn in Esi, Esw.
  injection Esi as <-. injection Esw as <-.
  pose proof (quantize_data_same_store _ _ _ _ _ _ _ Q) as [KT _].
  eexists. split.
  - cbn [heap_log heap_set_tensor heap_set_buffer tensors].
    apply list_lookup_insert_eq. rewrite KT. eapply lookup_lt_Some, Htb.
  - auto.
Qed.

(** A fully connected operator with a bias. *)
Lemma fully_connected_bias_scale_witness :
  exists tb,
    tensors (fst (requantize_fully_connected fc_op fc_per_channel_bias)) !! 3%nat
      = Some tb /\
    type tb = INT64 /\
    scale (quantization tb) = [(scale_8to16 0.5 10 * 0.2)%float] /\
    zeroPoint (quantization tb) = [0].
Proof.
  apply (fully_connected_bias_scale fc_op fc_per_channel_bias _
           0 1 3 2 0%nat 1%nat 2%nat 3%nat
           (layer_tensor INT8 0 "input" 0.5 10 0) 0.5 [] 10 []
           (layer_tensor INT8 0 "weight" 0.2 0 0) 0.2 []);
    try reflexivity; lia.
Defined.

Lemma tensor_update_frame (T B : nat -> Prop) r f h h' o :
  T r -> (forall t, buffer (f t) = buffer t) ->
  tensor_update r f h = (h', o) -> frame T B h h'.
Proof.
  intros Hr Hf H. apply tensor_update_inv in H. destruct o as [[]|e].
  - destruct H as (t & Ht & ->). eapply frame_set_tensor; eauto.
  - destruct H as [-> _]. apply frame_refl.
Qed.

(** A step on a heap [h1] reached from [h0] within a frame stays within
    the frame, the tensors it names being those of [h0]. *)
Lemma change_activation_tensor_8to16_frame_from (T B : nat -> Prop)
    h0 h1 r h' o :
  frame T B h0 h1 -> T r ->
  change_activation_tensor_8to16 r h1 = (h', o) -> frame T B h0 h'.
Proof.
  intros F Hr H. eapply frame_trans; [exact F|].
  eapply change_activation_tensor_8to16_frame_in; eassumption.
Qed.

Lemma set_bias_type_int64_frame_from (T B : nat -> Prop) h0 h1 i w b h' o :
  frame T B h0 h1 -> T b ->
  (forall tb p, tensors h0 !! b = Some tb ->
     py_index (length (buffers h0)) (buffer tb) = Some p -> B p) ->
  set_bias_type_int64 i w b h1 = (h', o) -> frame T B h0 h'.
Proof.
  intros F Hb HB H. eapply frame_trans; [exact F|].
  destruct F as (L1 & L2 & _ & _ & FBuf).
  apply set_bias_type_int64_frame in H.
  eapply frame_weaken; [| |exact H].
  - intros r <-. exact Hb.
  - intros p (tb & Htb & Hp).
    pose proof (FBuf b) as Eb. rewrite Htb in Eb. cbn in Eb.
    destruct (tensors h0 !! b) as [tb0|] eqn:Etb0; [|discriminate].
    cbn in Eb. injection Eb as Eb.
    apply (HB tb0 p eq_refl). rewrite <- Eb, <- L2. exact Hp.
Qed.

Lemma for_each_frame {A} (T B : nat -> Prop) h0 (l : list A) body :
  (forall a h1 h2 o, In a l -> frame T B h0 h1 -> body a h1 = (h2, o) ->
     frame T B h0 h2) ->
  forall h1 h' o, frame T B h0 h1 -> for_each l body h1 = (h', o) ->
    frame T B h0 h'.
Proof.
  induction l as [|a l IH]; intros Hbody h1 h' o F H; cbn [for_each] in H.
  - inversion H; subst. exact F.
  - apply bind_inv in H as [(e & H & _)|([] & h2 & K & H)].
    + eapply Hbody; [left; reflexivity|exact F|exact H].
    + eapply IH; [|eapply Hbody; [left; reflexivity|exact F|exact K]|exact H].
      intros a' ha hb o' Hin. apply Hbody. right. exact Hin.
Qed.

Lemma frame_unfold (T B : nat -> Prop) h h' :
  frame T B h h' ->
  length (tensors h') = length (tensors h) /\
  length (buffers h') = length (buffers h) /\
  (forall r, ~ T r -> tensors h' !! r = tensors h !! r) /\
  (forall p, ~ B p -> buffers h' !! p = buffers h !! p).
Proof. intros (F1 & F2 & F3 & F4 & _). auto. Qed.

(** X11.  However it ends, the conversion of an LSTM operator keeps the
    number of tensors and of buffers, changes no tensor but the input
    (input 0), the hidden state (input 18), the output and the four biases
    (inputs 12 to 15), so that the weights stay as they are, and changes no
    buffer but those of the four biases. *)
Theorem lstm_frame op h :
  let h' := fst (requantize_unidirectional_sequence_lstm op h) in
  length (tensors h') = length (tensors h) /\
  length (buffers h') = length (buffers h) /\
  (forall r,
     (forall i x, In i [0; 18; 12; 13; 14; 15] ->
        getitem (inputs op) i = inr x ->
        py_index (length (tensors h)) x <> Some r) ->
     (forall x, getitem (outputs op) 0 = inr x ->
        py_index (length (tensors h)) x <> Some r) ->
     tensors h' !! r = tensors h !! r) /\
  (forall p,
     (forall i x rb tb, In i [12; 13; 14; 15] ->
        getitem (inputs op) i = inr x ->
        py_index (length (tensors h)) x = Some rb ->
        tensors h !! rb = Some tb ->
        py_index (length (buffers h)) (buffer tb) <> Some p) ->
     buffers h' !! p = buffers h !! p).
Proof.
  destruct (requantize_unidirectional_sequence_lstm op h) as [h' o] eqn:H.
  cbn [fst].
  set (T := fun r =>
    (exists i x, In i [0; 18; 12; 13; 14; 15] /\
       getitem (inputs op) i = inr x /\
       py_index (length (tensors h)) x = Some r) \/
    (exists x, getitem (outputs op) 0 = inr x /\
       py_index (length (tensors h)) x = Some r)).
  set (B := fun p =>
    exists i x rb tb, In i [12; 13; 14; 15] /\
      getitem (inputs op) i = inr x /\
      py_index (length (tensors h)) x = Some rb /\
      tensors h !! rb = Some tb /\
      py_index (length (buffers h)) (buffer tb) = Some p).
  assert (F : frame T B h h').
  { unfold requantize_unidirectional_sequence_lstm in H.
    apply bind_lift_inv in H as [(? & _ & -> & _)|(i0 & Hi0 & H)];
      [apply frame_refl|].
    apply bind_inv in H as [(e & H & _)|(r0 & h1 & K & H)];
      [apply tensors_getitem_inv in H as [-> _]; apply frame_refl|].
    apply tensors_getitem_inv in K as [-> Hr0].
    apply bind_lift_inv in H as [(? & _ & -> & _)|(i18 & Hi18 & H)];
      [apply frame_refl|].
    apply bind_inv in H as [(e & H & _)|(r18 & h1 & K & H)];
      [apply tensors_getitem_inv in H as [-> _]; apply frame_refl|].
    apply tensors_getitem_inv in K as [-> Hr18].
    apply bind_lift_inv in H as [(? & _ & -> & _)|(o0 & Ho0 & H)];
      [apply frame_refl|].
    apply bind_inv in H as [(e & H & _)|(ro & h1 & K & H)];
      [apply tensors_getitem_inv in H as [-> _]; apply frame_refl|].
    apply tensors_getitem_inv in K as [-> Hro].
    assert (T0 : T r0).
    { left. exists 0, i0. cbn. auto. }
    assert (T18 : T r18).
    { left. exists 18, i18. cbn. auto. }
    assert (To : T ro).
    { right. exists o0. auto. }
    pose proof (frame_refl T B h) as F.
    apply bind_inv in H as [(e & H & _)|([] & h1 & K & H)];
      [eapply change_activation_tensor_8to16_frame_from; [exact F| |exact H]; assumption|].
    eapply change_activation_tensor_8to16_frame_from in K; [|exact F|exact T0].
    clear F. rename K into F.
    apply bind_inv in H as [(e & H & _)|([] & h2 & K & H)];
      [eapply change_activation_tensor_8to16_frame_from; [exact F| |exact H]; assumption|].
    eapply change_activation_tensor_8to16_frame_from in K; [|exact F|exact T18].
    clear F. rename K into F.
    apply bind_inv in H as [(e & H & _)|([] & h3 & K & H)];
      [eapply change_activation_tensor_8to16_frame_from; [exact F| |exact H]; assumption|].
    eapply change_activation_tensor_8to16_frame_from in K; [|exact F|exact To].
    clear F. rename K into F.
    assert (Hbias : forall ids ha hb o',
      In ids (zip [1; 2; 3; 4] [12; 13; 14; 15]) -> frame T B h ha ->
      (let* iw := lift (getitem (inputs op) (fst ids)) in
       let* weight_tensor := tensors_getitem iw in
       let* ib := lift (getitem (inputs op) (snd ids)) in
       let* bias_tensor := tensors_getitem ib in
       set_bias_type_int64 r0 weight_tensor bias_tensor) ha = (hb, o') ->
      frame T B h hb).
    { intros [wi bi] ha hb o' Hin Fa Hb. cbn [fst snd] in Hb.
      apply bind_lift_inv in Hb as [(? & _ & -> & _)|(iw & Hiw & Hb)];
        [exact Fa|].
      apply bind_inv in Hb as [(e' & Hb & _)|(rw & h5 & K & Hb)];
        [apply tensors_getitem_inv in Hb as [-> _]; exact Fa|].
      apply tensors_getitem_inv in K as [-> Hrw].
      apply bind_lift_inv in Hb as [(? & _ & -> & _)|(ib & Hib & Hb)];
        [exact Fa|].
      apply bind_inv in Hb as [(e' & Hb & _)|(rb & h5 & K & Hb)];
        [apply tensors_getitem_inv in Hb as [-> _]; exact Fa|].
      apply tensors_getitem_inv in K as [-> Hrb].
      pose proof Fa as (La & _).
      rewrite La in Hrb.
      assert (Hbi : In bi [12; 13; 14; 15]).
      { cbn in Hin. cbn.
        destruct Hin as [[= _ <-]|[[= _ <-]|[[= _ <-]|[[= _ <-]|[]]]]]; auto. }
      eapply set_bias_type_int64_frame_from; [exact Fa| | |exact Hb].
      + left. exists bi, ib. split; [|auto].
        cbn in Hbi. cbn. tauto.
      + intros tb p Htb Hp. exists bi, ib, rb, tb. auto. }
    apply bind_inv in H as [(e & H & _)|([] & h4 & K & H)].
    - eapply for_each_frame; [exact Hbias|exact F|exact H].
    - eapply for_each_frame in K; [|exact Hbias|exact F].
      eapply for_each_frame; [|exact K|exact H].
      intros wi ha hb o' _ Fa Hb.
      apply bind_lift_inv in Hb as [(? & _ & -> & _)|(iw & Hiw & Hb)];
        [exact Fa|].
      apply bind_inv in Hb as [(e' & Hb & _)|(rw & h5 & K' & Hb)];
        [apply tensors_getitem_inv in Hb as [-> _]; exact Fa|].
      apply tensors_getitem_inv in K' as [-> Hrw].
      inversion Hb; subst. exact Fa. }
  apply frame_unfold in F as (F1 & F2 & F3 & F4).
  split; [exact F1|]. split; [exact F2|]. split.
  - intros r Hin Hout. apply F3. intros [(i & x & Hi & Hx & Hr)|(x & Hx & Hr)].
    + exact (Hin i x Hi Hx Hr).
    + exact (Hout x Hx Hr).
  - intros p Hp. apply F4. intros (i & x & rb & tb & Hi & Hx & Hrb & Htb & Hb).
    exact (Hp i x rb tb Hi Hx Hrb Htb Hb).
Qed.

(** X12.  However it ends, the conversion of a softmax operator changes no
    buffer, keeps the number of tensors, changes no tensor but its input
    and its output, and changes the buffer index of no tensor. *)
Theorem softmax_frame op h :
  let h' := fst (requantize_softmax op h) in
  buffers h' = buffers h /\
  length (tensors h') = length (tensors h) /\
  (forall r,
     (forall x, getitem (inputs op) 0 = inr x ->
        py_index (length (tensors h)) x <> Some r) ->
     (forall x, getitem (outputs op) 0 = inr x ->
        py_index (length (tensors h)) x <> Some r) ->
     tensors h' !! r = tensors h !! r) /\
  (forall r, buffer <$> tensors h' !! r = buffer <$> tensors h !! r).
Proof.
  destruct (requantize_softmax op h) as [h' o] eqn:H. cbn [fst].
  set (T := fun r =>
    (exists x, getitem (inputs op) 0 = inr x /\
       py_index (length (tensors h)) x = Some r) \/
    (exists x, getitem (outputs op) 0 = inr x /\
       py_index (length (tensors h)) x = Some r)).
  assert (F : frame T (fun _ => False) h h').
  { unfold requantize_softmax in H.
    apply bind_lift_inv in H as [(? & _ & -> & _)|(i0 & Hi0 & H)];
      [apply frame_refl|].
    apply bind_inv in H as [(e & H & _)|(ri & h1 & K & H)];
      [apply tensors_getitem_inv in H as [-> _]; apply frame_refl|].
    apply tensors_getitem_inv in K as [-> Hri].
    apply bind_lift_inv in H as [(? & _ & -> & _)|(o0 & Ho0 & H)];
      [apply frame_refl|].
    apply bind_inv in H as [(e & H & _)|(ro & h1 & K & H)];
      [apply tensors_getitem_inv in H as [-> _]; apply frame_refl|].
    apply tensors_getitem_inv in K as [-> Hro].
    assert (Ti : T ri) by (left; eauto).
    assert (To : T ro) by (right; eauto).
    apply bind_inv in H as [(e & H & _)|([] & h1 & K & H)];
      [eapply change_activation_tensor_8to16_frame_in; [exact Ti|exact H]|].
    eapply change_activation_tensor_8to16_frame_in in K; [|exact Ti].
    eapply frame_trans; [exact K|]. clear K.
    apply bind_inv in H as [(e & H & _)|(t & h2 & K & H)];
      [apply tensor_read_inv in H as [-> _]; apply frame_refl|].
    apply tensor_read_inv in K as [-> Ht].
    rewrite (bind_lift_eq _ _ _ _ TENSOR_TYPE_CODE_int8) in H.
    destruct (decide (type t = INT8)) as [Ety|Nty];
      [|inversion H; apply frame_refl].
    apply bind_inv in H as [(e & H & _)|([] & h2 & K & H)];
      [eapply tensor_update_frame; [exact To| |exact H]; reflexivity|].
    eapply tensor_update_frame in K; [|exact To|reflexivity].
    eapply frame_trans; [exact K|]. clear K.
    apply bind_inv in H as [(e & H & _)|([] & h3 & K & H)];
      [eapply tensor_update_frame; [exact To| |exact H]; reflexivity|].
    eapply tensor_update_frame in K; [|exact To|reflexivity].
    eapply frame_trans; [exact K|]. clear K.
    rewrite (bind_lift_eq _ _ _ _ TENSOR_TYPE_CODE_int16) in H.
    apply bind_inv in H as [(e & H & _)|([] & h4 & K & H)];
      [eapply tensor_update_frame; [exact To| |exact H]; reflexivity|].
    eapply tensor_update_frame in K; [|exact To|reflexivity].
    eapply frame_trans; [exact K|]. clear K.
    apply bind_inv in H as [(e & H & _)|(t' & h5 & K & H)];
      [apply tensor_read_inv in H as [-> _]; apply frame_refl|].
    apply tensor_read_inv in K as [-> _].
    rewrite logging_info_eq in H. inversion H.
    apply frame_same_store, same_store_log. }
  destruct F as (F1 & F2 & F3 & F4 & F5).
  split.
  { apply list_eq. intros p. apply F4. tauto. }
  split; [exact F1|]. split; [|exact F5].
  intros r Hin Hout. apply F3. intros [(x & Hx & Hr)|(x & Hx & Hr)].
  - exact (Hin x Hx Hr).
  - exact (Hout x Hx Hr).
Qed.

(** The log after [clip_range]: at most the warning is added. *)
Lemma clip_range_logs vals b h h' o :
  clip_range vals b h = (h', o) ->
  logs h' = logs h \/ logs h' = logs h ++ [overflow_warning].
Proof.
  unfold clip_range. intros H.
  apply bind_lift_inv in H as [(? & _ & -> & _)|(vmax & _ & H)]; [auto|].
  apply bind_lift_inv in H as [(? & _ & -> & _)|(hi & _ & H)]; [auto|].
  apply bind_inv in H as [(e & H & _)|(over & h1 & K1 & H)].
  { destruct (_ <? _)%float; [inversion H|].
    apply bind_lift_inv in H as [(? & _ & -> & _)|(? & ? & H)]; [auto|].
    apply bind_lift_inv in H as [(? & _ & -> & _)|(? & ? & H)]; [auto|].
    inversion H. }
  assert (h1 = h) as ->.
  { destruct (_ <? _)%float; [now inversion K1|].
    apply bind_lift_inv in K1 as [(? & _ & _ & ?)|(? & ? & K1)]; [discriminate|].
    apply bind_lift_inv in K1 as [(? & _ & _ & ?)|(? & ? & K1)]; [discriminate|].
    now inversion K1. }
  apply bind_inv in H as [(e & H & _)|([] & h1 & K2 & H)].
  { destruct over; inversion H. }
  assert (L : logs h1 = logs h \/ logs h1 = logs h ++ [overflow_warning]).
  { destruct over; inversion K2; auto. }
  apply bind_lift_inv in H as [(? & _ & -> & _)|(? & ? & H)]; [assumption|].
  apply bind_lift_inv in H as [(? & _ & -> & _)|(? & ? & H)]; [assumption|].
  inversion H; subst. assumption.
Qed.

(** X13.  [quantize_data] changes no tensor and no buffer; it adds nothing
    to the log but, at most, the overflow warning; and the array it returns
    has as many elements as the data. *)
Theorem quantize_data_effect data s z b h :
  let h' := fst (quantize_data data s z b h) in
  tensors h' = tensors h /\ buffers h' = buffers h /\
  (logs h' = logs h \/ logs h' = logs h ++ [overflow_warning]) /\
  (forall q, snd (quantize_data data s z b h) = Return q ->
     length q = length data).
Proof.
  destruct (quantize_data data s z b h) as [h' o] eqn:H. cbn [fst snd].
  pose proof (quantize_data_same_store _ _ _ _ _ _ _ H) as [ST SB].
  split; [exact ST|]. split; [exact SB|]. split.
  - unfold quantize_data in H.
    apply bind_lift_inv in H as [(? & _ & -> & _)|(zp & _ & H)]; [auto|].
    eapply clip_range_logs, H.
  - intros q ->. eapply quantize_data_length, H.
Qed.

Lemma ltb_nan_l x y : is_nan x = true -> (x <? y)%float = false.
Proof.
  intros N. destruct (x <? y)%float eqn:E; [|reflexivity].
  apply ltb_not_nan in E as [E _]. congruence.
Qed.

Lemma ltb_nan_r x y : is_nan y = true -> (x <? y)%float = false.
Proof.
  intros N. destruct (x <? y)%float eqn:E; [|reflexivity].
  apply ltb_not_nan in E as [_ E]. congruence.
Qed.

Lemma leb_nan_l x y : is_nan x = true -> (x <=? y)%float = false.
Proof.
  intros N. destruct (x <=? y)%float eqn:E; [|reflexivity].
  apply leb_not_nan in E as [E _]. congruence.
Qed.

Lemma leb_nan_r x y : is_nan y = true -> (x <=? y)%float = false.
Proof.
  intros N. destruct (x <=? y)%float eqn:E; [|reflexivity].
  apply leb_not_nan in E as [_ E]. congruence.
Qed.

(** Clipping a clipped value changes nothing. *)
Lemma np_clip1_idem lo hi x :
  is_nan lo = false -> is_nan hi = false ->
  np_clip1 lo hi (np_clip1 lo hi x) = np_clip1 lo hi x.
Proof.
  intros Nlo Nhi. unfold np_clip1.
  destruct (is_nan x) eqn:Nx.
  { rewrite Nx, Nx. now rewrite Nx. }
  destruct (lo <? x)%float eqn:L1.
  - rewrite Nx. destruct (x <? hi)%float eqn:L2.
    + now rewrite Nx, L1, Nx, L2.
    + rewrite Nhi. destruct (lo <? hi)%float eqn:L3.
      * rewrite Nhi. rewrite ltb_key in * by assumption.
        destruct (Z.ltb_spec (key hi) (key hi)); [lia|reflexivity].
      * rewrite Nlo. rewrite L3. reflexivity.
  - rewrite Nlo. destruct (lo <? hi)%float eqn:L3.
    + rewrite Nlo. rewrite (ltb_key lo lo) by assumption.
      destruct (Z.ltb_spec (key lo) (key lo)); [lia|].
      now rewrite Nlo, L3.
    + rewrite Nhi. rewrite L3, Nlo, L3. reflexivity.
Qed.

Lemma np_clip1_nan lo hi x : is_nan x = true -> np_clip1 lo hi x = x.
Proof. intros N. unfold np_clip1. now rewrite N, N. Qed.

Lemma fold_np_maximum_nan l : forall x,
  is_nan x = true \/ Exists (fun v => is_nan v = true) l ->
  is_nan (fold_left np_maximum l x) = true.
Proof.
  induction l as [|a l IH]; intros x H; cbn [fold_left].
  - destruct H as [H|H]; [exact H|inversion H].
  - apply IH. unfold np_maximum.
    destruct (is_nan x) eqn:Nx.
    { left. now rewrite orb_true_r. }
    rewrite orb_false_r.
    destruct H as [H|H]; [discriminate|].
    inversion H as [? ? Na|? ? Hl]; subst.
    + left. now rewrite (leb_nan_l a x Na).
    + right. exact Hl.
Qed.

Lemma fold_np_minimum_nan l : forall x,
  is_nan x = true \/ Exists (fun v => is_nan v = true) l ->
  is_nan (fold_left np_minimum l x) = true.
Proof.
  induction l as [|a l IH]; intros x H; cbn [fold_left].
  - destruct H as [H|H]; [exact H|inversion H].
  - apply IH. unfold np_minimum.
    destruct (is_nan x) eqn:Nx.
    { left. now rewrite orb_true_r. }
    rewrite orb_false_r.
    destruct H as [H|H]; [discriminate|].
    inversion H as [? ? Na|? ? Hl]; subst.
    + left. now rewrite (leb_nan_r x a Na).
    + right. exact Hl.
Qed.

(** With a NaN in the array [clip_range] sees no overflow. *)
Lemma overflows_nan lo hi vals :
  Exists (fun v => is_nan v = true) vals -> overflows lo hi vals = false.
Proof.
  intros H. unfold overflows, np_max, np_min.
  destruct vals as [|x l]; [reflexivity|].
  assert (H' : is_nan x = true \/ Exists (fun v => is_nan v = true) l)
    by (inversion H; auto).
  rewrite (ltb_nan_r _ _ (fold_np_maximum_nan l x H')).
  rewrite (ltb_nan_l _ _ (fold_np_minimum_nan l x H')). reflexivity.
Qed.

Lemma overflows_clipped lo hi vals :
  (lo <=? hi)%float = true ->
  overflows lo hi (map (np_clip1 lo hi) vals) = false.
Proof.
  intros Hle. destruct (leb_not_nan _ _ Hle) as [Nlo Nhi].
  destruct (List.Exists_dec (fun v => is_nan v = true) vals
              (fun v => bool_dec (is_nan v) true)) as [E|NE].
  - apply overflows_nan. apply List.Exists_exists in E as (v & Hv & Nv).
    apply List.Exists_exists. exists (np_clip1 lo hi v). split.
    + apply in_map, Hv.
    + now rewrite np_clip1_nan.
  - assert (F : Forall (fun v => is_nan v = false) vals).
    { apply List.Forall_forall. intros v Hv.
      destruct (is_nan v) eqn:N; [|reflexivity].
      exfalso. apply NE, List.Exists_exists. eauto. }
    assert (R : Forall (fun r => (lo <=? r)%float = true /\
                                 (r <=? hi)%float = true)
                  (map (np_clip1 lo hi) vals)).
    { apply Forall_map. eapply Forall_impl; [exact F|].
      intros v Nv. cbn beta in *. now apply np_clip1_range. }
    rewrite overflows_spec; [|assumption..|].
    + clear F NE. induction R as [|r l [R1 R2] _ IH]; [reflexivity|].
      cbn [existsb]. rewrite IH, orb_false_r.
      destruct (leb_not_nan _ _ R1) as [_ Nr].
      rewrite leb_key in R1, R2 by assumption.
      rewrite !ltb_key by assumption.
      apply Z.leb_le in R1, R2. apply orb_false_iff.
      split; apply Z.ltb_ge; assumption.
    + eapply Forall_impl; [exact R|]. intros r [R1 _]. cbn beta.
      now destruct (leb_not_nan _ _ R1).
Qed.

(** X14.  [clip_range] is idempotent: for a non-empty array and a bit
    width from 1 to 54, it returns an array that a second call returns
    unchanged, without a warning, whatever the array holds (NaN
    included). *)
Theorem clip_range_idempotent vals b h :
  vals <> [] -> 1 <= b <= 54 ->
  exists h1 q,
    clip_range vals b h = (h1, Return q) /\
    forall h2, clip_range q b h2 = (h2, Return q).
Proof.
  intros Hne Hb.
  destruct (exact_bounds_spec b (exact_bounds_54 b Hb)) as (_ & _ & Hle).
  destruct (as_float64_bounds b ltac:(lia)) as [Alo Ahi].
  destruct (leb_not_nan _ _ Hle) as [Nlo Nhi].
  rewrite (clip_range_ok vals b _ _ h Hne Alo Ahi).
  do 2 eexists. split; [reflexivity|]. intros h2.
  erewrite clip_range_ok;
    [|destruct vals; [contradiction|discriminate]|exact Alo|exact Ahi].
  rewrite overflows_clipped by exact Hle. f_equal. f_equal.
  rewrite map_map. apply map_ext. intros x. now apply np_clip1_idem.
Qed.

(** An array with a value out of the 8-bit range. *)
Lemma clip_range_idempotent_witness :
  exists h1 q,
    clip_range [1000%float; 3%float] 8 empty_heap = (h1, Return q) /\
    forall h2, clip_range q 8 h2 = (h2, Return q).
Proof.
  apply (clip_range_idempotent [1000%float; 3%float] 8 empty_heap);
    [discriminate|lia].
Defined.

(** Rounding keeps the sign it is given. *)
Lemma binary_round_aux_sign sx mx ex lx :
  match binary_round_aux prec emax sx mx ex lx with
  | S754_zero s | S754_infinity s | S754_finite s _ _ => s = sx
  | S754_nan => True
  end.
Proof.
  unfold binary_round_aux.
  destruct (shr_fexp prec emax mx ex lx) as [mrs' e'].
  destruct (shr_fexp prec emax _ e' loc_Exact) as [mrs'' e''].
  destruct (shr_m mrs''); [reflexivity| |exact I].
  destruct (e'' <=? emax - prec); reflexivity.
Qed.

Lemma SFltb_zero_nonneg x :
  match x with
  | S754_zero _ | S754_nan => True
  | S754_infinity s | S754_finite s _ _ => s = false
  end ->
  SFltb x (S754_zero false) = false.
Proof. destruct x as [s|s| |s m e]; try reflexivity; intros ->; reflexivity. Qed.

Lemma SFabs_sign x :
  match SFabs x with
  | S754_zero _ | S754_nan => True
  | S754_infinity s | S754_finite s _ _ => s = false
  end.
Proof. destruct x; cbn; auto. Qed.

Lemma py_max_abs_sign u v :
  match Prim2SF (py_max (abs u) (abs v)) with
  | S754_zero _ | S754_nan => True
  | S754_infinity s | S754_finite s _ _ => s = false
  end.
Proof.
  unfold py_max. destruct (abs u <? abs v)%float;
    rewrite abs_spec; apply SFabs_sign.
Qed.

(** The 16-bit scale is never negative, whatever the sign of the 8-bit
    scale. *)
Lemma scale_8to16_nonneg s z : (scale_8to16 s z <? 0)%float = false.
Proof.
  unfold scale_8to16. rewrite FloatAxioms.ltb_spec, div_spec.
  change (Prim2SF 0) with (S754_zero false).
  apply SFltb_zero_nonneg.
  pose proof (py_max_abs_sign (s * Z2float (128 - z)) (s * Z2float (-128 - z))) as P.
  assert (E : Prim2SF 32767 = S754_finite false 9006924376834048 (-38))
    by (vm_compute; reflexivity).
  rewrite E.
  destruct (Prim2SF (py_max _ _)) as [sx|sx| |sx mx ex]; cbn [SFdiv];
    [exact I|subst sx; reflexivity|exact I|].
  subst sx. unfold SF64div, SFdiv.
  match goal with
  | |- context [SFdiv_core_binary ?p ?m ?a ?b ?c ?d] =>
      destruct (SFdiv_core_binary p m a b c d) as [[mz ez] lz]
  end.
  pose proof (binary_round_aux_sign (xorb false false) mz ez lz) as S.
  destruct (binary_round_aux _ _ _ _ _ _); auto.
Qed.

(** Retyping an activation leaves the tensors that are not 8-bit, and those
    at other positions, as they are. *)
Lemma change_activation_tensor_8to16_preserves r h h' o r' t' :
  change_activation_tensor_8to16 r h = (h', o) ->
  tensors h !! r' = Some t' ->
  r' <> r \/ type t' <> INT8 ->
  tensors h' !! r' = Some t' /\ length (tensors h') = length (tensors h).
Proof.
  intros H Ht' Hd. apply change_activation_tensor_8to16_inv in H.
  destruct o as [[]|e]; [|subst; auto].
  destruct H as [[-> _]|(t & q & Ht & Hty & ->)]; [auto|].
  cbn [heap_log heap_set_tensor tensors]. rewrite length_insert.
  split; [|reflexivity].
  rewrite list_lookup_insert_ne; [exact Ht'|].
  intros ->. destruct Hd as [Hd|Hd]; [congruence|].
  rewrite Ht in Ht'. injection Ht' as <-. contradiction.
Qed.

Lemma for_each_app {A} (l1 l2 : list A) body h :
  for_each (l1 ++ l2) body h = (for_each l1 body;; for_each l2 body) h.
Proof.
  revert h. induction l1 as [|a l1 IH]; intros h; cbn [app for_each].
  - reflexivity.
  - unfold bind. destruct (body a h) as [h1 [[]|e]]; [|reflexivity].
    rewrite IH. reflexivity.
Qed.

Lemma lstm_bias_step_inv op input_tensor wi bi h1 h2 :
  (fun ids : Z * Z =>
     let* iw := lift (getitem (inputs op) (fst ids)) in
     let* weight_tensor := tensors_getitem iw in
     let* ib := lift (getitem (inputs op) (snd ids)) in
     let* bias_tensor := tensors_getitem ib in
     set_bias_type_int64 input_tensor weight_tensor bias_tensor)
    (wi, bi) h1 = (h2, Return tt) ->
  exists iw rw ib rb,
    getitem (inputs op) wi = inr iw /\
    py_index (length (tensors h1)) iw = Some rw /\
    getitem (inputs op) bi = inr ib /\
    py_index (length (tensors h1)) ib = Some rb /\
    set_bias_type_int64 input_tensor rw rb h1 = (h2, Return tt).
Proof.
  cbn [fst snd]. intros H.
  apply bind_lift_inv in H as [(? & _ & _ & [=])|(iw & Hiw & H)].
  apply bind_inv in H as [(e & _ & [=])|(rw & h3 & K & H)].
  apply tensors_getitem_inv in K as [-> Hrw].
  apply bind_lift_inv in H as [(? & _ & _ & [=])|(ib & Hib & H)].
  apply bind_inv in H as [(e & _ & [=])|(rb & h3 & K & H)].
  apply tensors_getitem_inv in K as [-> Hrb].
  exists iw, rw, ib, rb. auto.
Qed.

(** The loop over the biases changes no tensor but the biases it names. *)
Lemma lstm_biases_tensors op input_tensor l : forall h1 h',
  for_each l
    (fun ids : Z * Z =>
     let* iw := lift (getitem (inputs op) (fst ids)) in
     let* weight_tensor := tensors_getitem iw in
     let* ib := lift (getitem (inputs op) (snd ids)) in
     let* bias_tensor := tensors_getitem ib in
     set_bias_type_int64 input_tensor weight_tensor bias_tensor)
    h1 = (h', Return tt) ->
  length (tensors h') = length (tensors h1) /\
  forall r,
    (forall p x, In p l -> getitem (inputs op) (snd p) = inr x ->
       py_index (length (tensors h1)) x <> Some r) ->
    tensors h' !! r = tensors h1 !! r.
Proof.
  induction l as [|[wi bi] l IH]; intros h1 h' H; cbn [for_each] in H.
  - inversion H. auto.
  - apply bind_inv in H as [(e & _ & [=])|([] & h2 & K & H)].
    apply lstm_bias_step_inv in K as (iw & rw & ib & rb & _ & _ & Hib & Hrb & K).
    apply set_bias_type_int64_frame in K as (L1 & _ & F3 & _).
    destruct (IH _ _ H) as [L2 F]. split; [congruence|].
    intros r Hr. rewrite F.
    + apply F3. intros <-. eapply (Hr (wi, bi)); [left; reflexivity| |];
        eassumption.
    + intros p x Hp Hx. rewrite L1. apply (Hr p x); [right|]; assumption.
Qed.

Lemma lstm_bias_result op input_tensor l wi bi iw rw ib rb ti tw si sis sw sws :
  forall h1 h',
  NoDup (map snd l) -> In (wi, bi) l ->
  for_each l
    (fun ids : Z * Z =>
     let* iw := lift (getitem (inputs op) (fst ids)) in
     let* weight_tensor := tensors_getitem iw in
     let* ib := lift (getitem (inputs op) (snd ids)) in
     let* bias_tensor := tensors_getitem ib in
     set_bias_type_int64 input_tensor weight_tensor bias_tensor)
    h1 = (h', Return tt) ->
  getitem (inputs op) wi = inr iw ->
  py_index (length (tensors h1)) iw = Some rw ->
  getitem (inputs op) bi = inr ib ->
  py_index (length (tensors h1)) ib = Some rb ->
  tensors h1 !! input_tensor = Some ti ->
  scale (quantization ti) = si :: sis ->
  tensors h1 !! rw = Some tw ->
  scale (quantization tw) = sw :: sws ->
  (forall i x, In i (map snd l) -> getitem (inputs op) i = inr x ->
     py_index (length (tensors h1)) x <> Some input_tensor) ->
  (forall i x, In i (map snd l) -> getitem (inputs op) i = inr x ->
     py_index (length (tensors h1)) x <> Some rw) ->
  (forall i x, In i (map snd l) -> i <> bi -> getitem (inputs op) i = inr x ->
     py_index (length (tensors h1)) x <> Some rb) ->
  exists tb, tensors h' !! rb = Some tb /\
    type tb = INT64 /\
    scale (quantization tb) = [(si * sw)%float] /\
    zeroPoint (quantization tb) = [0].
Proof.
  induction l as [|[wp bp] l IH];
    intros h1 h' ND Hin H Hiw Hrw Hib Hrb Hti Hsi Htw Hsw Ni Nw Nb;
    [inversion Hin|].
  cbn [for_each] in H. cbn [map snd] in ND. apply NoDup_cons in ND as [Nbp ND].
  apply bind_inv in H as [(e & _ & [=])|([] & h2 & K & H)].
  apply lstm_bias_step_inv in K
    as (iw' & rw' & ib' & rb' & Hiw' & Hrw' & Hib' & Hrb' & K).
  destruct Hin as [[= -> ->]|Hin].
  - rewrite Hiw in Hiw'. injection Hiw' as <-.
    rewrite Hib in Hib'. injection Hib' as <-.
    rewrite Hrw in Hrw'. injection Hrw' as <-.
    rewrite Hrb in Hrb'. injection Hrb' as <-.
    apply set_bias_type_int64_inv in K
      as (tb & pb & sb & zb & buf & q & deq & ti2 & si2 & tw2 & sw2 & h3 & qd
          & Htb & _ & _ & _ & _ & _ & _ & Hti2 & Esi & Htw2 & Esw & Q & ->).
    rewrite Hti in Hti2. injection Hti2 as <-.
    rewrite Htw in Htw2. injection Htw2 as <-.
    rewrite Hsi in Esi. rewrite Hsw in Esw. cbn in Esi, Esw.
    injection Esi as <-. injection Esw as <-.
    pose proof (quantize_data_same_store _ _ _ _ _ _ _ Q) as [KT _].
    destruct (lstm_biases_tensors _ _ _ _ _ H) as [_ F].
    eexists. split.
    + rewrite F.
      * cbn [heap_log heap_set_tensor heap_set_buffer tensors].
        apply list_lookup_insert_eq. rewrite KT. eapply lookup_lt_Some, Htb.
      * intros [wq bq] x Hq Hx. cbn [snd] in Hx.
        cbn [heap_log heap_set_tensor heap_set_buffer tensors].
        rewrite length_insert, KT.
        apply (Nb bq x); [right; apply (in_map snd _ _ Hq)| |exact Hx].
        intros ->. apply Nbp. apply list_elem_of_In.
        apply (in_map snd _ _ Hq).
    + auto.
  - pose proof K as K'.
    apply set_bias_type_int64_frame in K' as (L1 & _ & F3 & _).
    assert (Dp_i : rb' <> input_tensor).
    { intros ->. eapply (Ni bp); [left; reflexivity|exact Hib'|exact Hrb']. }
    assert (Dp_w : rb' <> rw).
    { intros ->. eapply (Nw bp); [left; reflexivity|exact Hib'|exact Hrb']. }
    apply (IH h2 h' ND Hin H Hiw); rewrite ?L1; try assumption.
    + rewrite F3 by congruence. exact Hti.
    + rewrite F3 by congruence. exact Htw.
    + intros i x Hi. apply Ni. right. exact Hi.
    + intros i x Hi. apply Nw. right. exact Hi.
    + intros i x Hi. apply Nb. right. exact Hi.
Qed.

(** The loop over the recurrent weights only looks them up. *)
Lemma lstm_recurrent_weights op l : forall h h' o,
  for_each l (fun weight_id =>
    let* iw := lift (getitem (inputs op) weight_id) in
    let* weight_tensor := tensors_getitem iw in
    ret tt) h = (h', o) -> h' = h.
Proof.
  induction l as [|a l IH]; intros h h' o H; cbn [for_each] in H.
  - now inversion H.
  - apply bind_inv in H as [(e & H & _)|([] & h1 & K & H)].
    + apply bind_lift_inv in H as [(? & _ & -> & _)|(iw & _ & H)];
        [reflexivity|].
      apply bind_inv in H as [(e' & H & _)|(rw & h1 & K & H)];
        [now apply tensors_getitem_inv in H as [-> _]|].
      inversion H.
    + apply bind_lift_inv in K as [(? & _ & _ & [=])|(iw & _ & K)].
      apply bind_inv in K as [(e' & _ & [=])|(rw & h2 & K' & K)].
      apply tensors_getitem_inv in K' as [-> _].
      inversion K; subst. eapply IH, H.
Qed.

(** X15.  When the conversion of an LSTM operator with an 8-bit input
    (scale [s], zero point [z]) returns, each bias (inputs 12 to 15) has
    the 64-bit code, zero point [0], and for its scale the product of the
    scale of the converted input, [scale_8to16 s z], and the scale of its
    input weight (inputs 1 to 4), the tensors being distinct. *)
Theorem lstm_bias_scale
    op h h' i0 ri ti s ss z zs wi bi iw rw ib rb tw sw sws :
  requantize_unidirectional_sequence_lstm op h = (h', Return tt) ->
  getitem (inputs op) 0 = inr i0 ->
  py_index (length (tensors h)) i0 = Some ri ->
  tensors h !! ri = Some ti ->
  type ti = INT8 ->
  quantizedDimension (quantization ti) = 0 ->
  scale (quantization ti) = s :: ss ->
  zeroPoint (quantization ti) = z :: zs ->
  in_int 64 z = true ->
  In (wi, bi) [(1, 12); (2, 13); (3, 14); (4, 15)] ->
  getitem (inputs op) wi = inr iw ->
  py_index (length (tensors h)) iw = Some rw ->
  tensors h !! rw = Some tw ->
  scale (quantization tw) = sw :: sws ->
  getitem (inputs op) bi = inr ib ->
  py_index (length (tensors h)) ib = Some rb ->
  (forall i x, In i [0; 18; 12; 13; 14; 15] ->
     getitem (inputs op) i = inr x ->
     py_index (length (tensors h)) x <> Some rw) ->
  (forall x, getitem (outputs op) 0 = inr x ->
     py_index (length (tensors h)) x <> Some rw) ->
  (forall i x, In i [12; 13; 14; 15] -> getitem (inputs op) i = inr x ->
     py_index (length (tensors h)) x <> Some ri) ->
  (forall i x, In i [12; 13; 14; 15] -> i <> bi ->
     getitem (inputs op) i = inr x ->
     py_index (length (tensors h)) x <> Some rb) ->
  exists tb, tensors h' !! rb = Some tb /\
    type tb = INT64 /\
    scale (quantization tb) = [(scale_8to16 s z * sw)%float] /\
    zeroPoint (quantization tb) = [0].
Proof.
  intros H Hi0 Hri Hti Hty Hd Hs Hz Hzr Hin Hiw Hrw Htw Hsw Hib Hrb
    Nw Nwo Ni Nb.
  unfold requantize_unidirectional_sequence_lstm in H.
  rewrite (bind_lift_eq _ _ _ _ Hi0) in H.
  rewrite (bind_eq _ _ _ _ _ (tensors_getitem_ok _ _ _ Hri)) in H.
  apply bind_lift_inv in H as [(? & _ & _ & [=])|(i18 & Hi18 & H)].
  apply bind_inv in H as [(e & _ & [=])|(r18 & h0 & K & H)].
  apply tensors_getitem_inv in K as [-> Hr18].
  apply bind_lift_inv in H as [(? & _ & _ & [=])|(o0 & Ho0 & H)].
  apply bind_inv in H as [(e & _ & [=])|(ro & h0 & K & H)].
  apply tensors_getitem_inv in K as [-> Hro].
  assert (Dwi : rw <> ri).
  { intros ->. eapply (Nw 0); [left; reflexivity|exact Hi0|exact Hri]. }
  assert (Dw18 : rw <> r18).
  { intros ->. eapply (Nw 18); [right; left; reflexivity|exact Hi18|exact Hr18]. }
  assert (Dwo : rw <> ro).
  { intros ->. eapply Nwo; [exact Ho0|exact Hro]. }
  erewrite bind_eq in H
    by (eapply change_activation_tensor_8to16_ok; eassumption).
  set (ti' := {| type := INT16; buffer := buffer ti; name := name ti;
                 quantization := {| scale := [scale_8to16 s z];
                                    zeroPoint := [0];
                                    quantizedDimension := 0 |} |}) in *.
  set (h1 := heap_log _ (heap_set_tensor ri ti' h)) in *.
  assert (L1 : length (tensors h1) = length (tensors h))
    by apply length_insert.
  assert (Hti1 : tensors h1 !! ri = Some ti').
  { apply list_lookup_insert_eq. eapply lookup_lt_Some, Hti. }
  assert (Htw1 : tensors h1 !! rw = Some tw).
  { cbn. rewrite list_lookup_insert_ne by congruence. exact Htw. }
  clearbody h1.
  apply bind_inv in H as [(e & _ & [=])|([] & h2 & K & H)].
  destruct (change_activation_tensor_8to16_preserves _ _ _ _ ri ti' K Hti1)
    as [Hti2 L2]; [right; discriminate|].
  destruct (change_activation_tensor_8to16_preserves _ _ _ _ rw tw K Htw1)
    as [Htw2 _]; [left; exact Dw18|].
  clear K.
  apply bind_inv in H as [(e & _ & [=])|([] & h3 & K & H)].
  destruct (change_activation_tensor_8to16_preserves _ _ _ _ ri ti' K Hti2)
    as [Hti3 L3]; [right; discriminate|].
  destruct (change_activation_tensor_8to16_preserves _ _ _ _ rw tw K Htw2)
    as [Htw3 _]; [left; exact Dwo|].
  clear K.
  assert (L : length (tensors h3) = length (tensors h)) by congruence.
  apply bind_inv in H as [(e & _ & [=])|([] & h4 & K & H)].
  apply lstm_recurrent_weights in H as ->.
  cbn [zip] in K.
  eapply (lstm_bias_result op ri _ wi bi iw rw ib rb ti' tw) in K;
    try rewrite L; try eassumption; try reflexivity.
  - cbn [map snd]. apply NoDup_ListNoDup.
    repeat (constructor;
            [cbn; intros Hc; decompose [or] Hc; discriminate || contradiction|]).
    constructor.
  - intros i x Hi. apply Nw. cbn [map snd] in Hi. cbn in Hi |- *. tauto.
Qed.

(** The bias of the cell gate (input 14) of an LSTM. *)
Lemma lstm_bias_scale_witness :
  exists tb,
    tensors (fst (requantize_unidirectional_sequence_lstm lstm_op lstm_example))
      !! 7%nat = Some tb /\
    type tb = INT64 /\
    scale (quantization tb) = [(scale_8to16 0.5 10 * 0.4)%float] /\
    zeroPoint (quantization tb) = [0].
Proof.
  apply (lstm_bias_scale lstm_op lstm_example _ 0 0%nat
           (layer_tensor INT8 0 "input" 0.5 10 0) 0.5 [] 10 []
           3 14 3 3%nat 7 7%nat
           (layer_tensor INT8 0 "w_c" 0.4 0 0) 0.4 []);
    try reflexivity.
  - cbn. tauto.
  - intros i x Hi Hx. cbn in Hi. decompose [or] Hi; subst; try contradiction;
      vm_compute in Hx; injection Hx as <-; discriminate.
  - intros x Hx. vm_compute in Hx. injection Hx as <-. discriminate.
  - intros i x Hi Hx. cbn in Hi. decompose [or] Hi; subst; try contradiction;
      vm_compute in Hx; injection Hx as <-; discriminate.
  - intros i x Hi Ne Hx. cbn in Hi. decompose [or] Hi; subst;
      try contradiction; try (vm_compute in Hx; injection Hx as <-; discriminate).
Defined.

(** X16.  The scale activation retyping stores is never negative,
    whatever the sign of the 8-bit scale. *)
Theorem activation_scale_nonneg h r t s ss z zs :
  tensors h !! r = Some t ->
  type t = INT8 ->
  quantizedDimension (quantization t) = 0 ->
  scale (quantization t) = s :: ss ->
  zeroPoint (quantization t) = z :: zs ->
  in_int 64 z = true ->
  exists t' s16,
    tensors (fst (change_activation_tensor_8to16 r h)) !! r = Some t' /\
    scale (quantization t') = [s16] /\
    (s16 <? 0)%float = false.
Proof.
  intros Ht Hty Hd Hs Hz Hr.
  rewrite (change_activation_tensor_8to16_ok _ _ _ _ _ _ _ Ht Hty Hd Hs Hz Hr).
  cbn [fst heap_log heap_set_tensor tensors].
  do 2 eexists. split; [|split].
  - apply list_lookup_insert_eq. eapply lookup_lt_Some, Ht.
  - reflexivity.
  - apply scale_8to16_nonneg.
Qed.

(** The activation with scale 0.5 and zero point 10. *)
Lemma activation_scale_nonneg_witness :
  exists t' s16,
    tensors (fst (change_activation_tensor_8to16 0 activation_example)) !! 0%nat
      = Some t' /\
    scale (quantization t') = [s16] /\
    (s16 <? 0)%float = false.
Proof.
  apply (activation_scale_nonneg activation_example 0
           (layer_tensor INT8 0 "activation" 0.5 10 0) 0.5 [] 10 []);
    reflexivity.
Defined.

Lemma eqb_zero x : (x =? 0)%float = true -> exists sx, Prim2SF x = S754_zero sx.
Proof.
  rewrite FloatAxioms.eqb_spec. change (Prim2SF 0) with (S754_zero false).
  destruct (Prim2SF x) as [sx|sx| |sx mx ex]; [eauto|..];
    try destruct sx; discriminate.
Qed.

Lemma zero_eqb x sx : Prim2SF x = S754_zero sx -> (x =? 0)%float = true.
Proof.
  intros E. rewrite FloatAxioms.eqb_spec, E. reflexivity.
Qed.

(** A zero divided by a scale that is neither zero nor a NaN, rounded and
    moved by the zero point, is the zero point. *)
Lemma quantize_zero s z x :
  (0 <? abs s)%float = true -> Z.abs z < 2 ^ 53 ->
  (x =? 0)%float = true ->
  (np_round (x / s) + Z2float z)%float = Z2float z.
Proof.
  intros Hs Hz Hx. apply eqb_zero in Hx as [sx Ex].
  rewrite FloatAxioms.ltb_spec, abs_spec in Hs.
  change (Prim2SF 0) with (S754_zero false) in Hs.
  assert (Eq : exists sq, Prim2SF (x / s) = S754_zero sq).
  { rewrite div_spec, Ex.
    destruct (Prim2SF s) as [ss|ss| |ss ms es]; try discriminate Hs;
      cbn; eauto. }
  destruct Eq as [sq Eq].
  assert (Er : np_round (x / s) = (x / s)%float).
  { unfold np_round. now rewrite Eq. }
  rewrite Er. apply Prim2SF_inj.
  rewrite add_spec, Eq, Z2float_canon by assumption.
  destruct z as [|p|p]; [destruct sq|..]; reflexivity.
Qed.

(** X17.  The real zero is quantized to the zero point: for a scale that
    is neither zero nor a NaN, a bit width from 1 to 53 and a zero point of
    its range, [quantize_data] maps an array of zeros (of either sign) to
    the zero point, without a warning. *)
Theorem quantize_data_zero data s z b h :
  data <> [] -> 1 <= b <= 53 -> in_int b z = true ->
  (0 <? abs s)%float = true ->
  Forall (fun x => (x =? 0)%float = true) data ->
  quantize_data data s z b h = (h, Return (map (fun _ => Z2float z) data)).
Proof.
  intros Hne Hb Hz Hs Hd. pose proof Hz as Hz'. apply in_int_spec in Hz'.
  assert (P : 1 <= 2 ^ (b - 1) <= 2 ^ 52).
  { split; [apply (Z.pow_le_mono_r 2 0); lia|apply Z.pow_le_mono_r; lia]. }
  unfold quantize_data.
  rewrite (bind_lift_eq _ _ _ (Z2float z)).
  2:{ apply py_float_ok.
      assert (2 ^ 52 <= 2 ^ 1000) by (apply Z.pow_le_mono_r; lia). lia. }
  assert (E : map (fun x => (np_round (x / s) + Z2float z)%float) data
              = map Z2float (map (fun _ => z) data)).
  { rewrite map_map. apply map_ext_Forall.
    eapply Forall_impl; [exact Hd|]. intros x Hx. cbn beta in Hx |- *.
    apply quantize_zero; [assumption|lia|assumption]. }
  rewrite E, clip_range_Z2float.
  - now rewrite map_map.
  - destruct data; [contradiction|discriminate].
  - exact Hb.
  - apply Forall_map. apply List.Forall_forall. intros x _. exact Hz.
Qed.

(** Both zeros, at scale 0.05 and zero point -3. *)
Lemma quantize_data_zero_witness :
  quantize_data [0%float; (-0)%float] 0.05 (-3) 8 empty_heap
    = (empty_heap,
       Return (map (fun _ => Z2float (-3)) [0%float; (-0)%float])).
Proof.
  apply (quantize_data_zero [0%float; (-0)%float] 0.05 (-3) 8 empty_heap).
  - discriminate.
  - lia.
  - reflexivity.
  - reflexivity.
  - repeat constructor.
Defined.

(** X18.  A stored value equal to the zero point is dequantized to zero:
    for a finite scale and a 32-bit zero point, [dequantize_data] maps an
    [int32] array of values equal to the zero point to an array of
    zeros. *)
Theorem dequantize_data_zero_point q s z :
  in_int 32 z = true ->
  (abs s <? infinity)%float = true ->
  Forall (fun n => n = z) q ->
  exists deq,
    dequantize_data (NdInt32 q) s z = inr deq /\
    length deq = length q /\
    Forall (fun x => (x =? 0)%float = true) deq.
Proof.
  intros Hz Hs Hq. unfold dequantize_data, sub_zero_point. rewrite Hz.
  eexists. split; [reflexivity|]. split; [now rewrite !length_map|].
  rewrite map_map. apply Forall_map.
  eapply Forall_impl; [exact Hq|]. intros n ->. cbn beta.
  rewrite Z.sub_diag. change (Z2float (wrap 32 0)) with 0%float.
  rewrite FloatAxioms.ltb_spec, abs_spec in Hs.
  change (Prim2SF infinity) with (S754_infinity false) in Hs.
  apply (zero_eqb _ (xorb (match Prim2SF s with
                           | S754_zero b | S754_infinity b
                           | S754_finite b _ _ => b | _ => false end) false)).
  rewrite mul_spec. change (Prim2SF 0) with (S754_zero false).
  destruct (Prim2SF s) as [ss|ss| |ss ms es]; try discriminate Hs;
    reflexivity.
Qed.

(** Two values equal to the zero point 7. *)
Lemma dequantize_data_zero_point_witness :
  exists deq,
    dequantize_data (NdInt32 [7; 7]) 0.05 7 = inr deq /\
    length deq = length [7; 7] /\
    Forall (fun x => (x =? 0)%float = true) deq.
Proof.
  apply (dequantize_data_zero_point [7; 7] 0.05 7).
  - reflexivity.
  - reflexivity.
  - repeat constructor.
Defined.

(** At bit width 64 [quantize_data] raises on the empty array only, and
    before it logs anything. *)
Lemma quantize_data_64_raise data s h h' e :
  quantize_data data s 0 64 h = (h', Raise e) ->
  h' = h /\ data = [] /\ e = ValueError.
Proof.
  intros H. destruct data as [|x data].
  - vm_compute in H. now inversion H.
  - exfalso.
    destruct (as_float64_bounds 64 ltac:(lia)) as [Alo Ahi].
    erewrite quantize_data_ok in H;
      [discriminate H|discriminate|reflexivity|exact Alo|exact Ahi].
Qed.

(** X19.  Bias retyping is atomic: when it raises, whatever the error, the
    model is exactly as it was; the buffer and the tensor are written only
    once nothing can fail any more. *)
Theorem bias_retyping_atomic i w b h e :
  snd (set_bias_type_int64 i w b h) = Raise e ->
  fst (set_bias_type_int64 i w b h) = h.
Proof.
  destruct (set_bias_type_int64 i w b h) as [h' o] eqn:H. cbn [fst snd].
  intros ->. unfold set_bias_type_int64 in H.
  apply bind_inv in H as [(e' & H & _)|(tb & h1 & K & H)];
    [now apply tensor_read_inv in H as [-> _]|].
  apply tensor_read_inv in K as [-> Htb].
  apply bind_inv in H as [(e' & H & _)|(pb & h1 & K & H)];
    [now apply buffers_getitem_inv in H as [-> _]|].
  apply buffers_getitem_inv in K as [-> Hpb].
  apply bind_lift_inv in H as [(? & _ & -> & _)|(bias_scale & _ & H)];
    [reflexivity|].
  apply bind_lift_inv in H as [(? & _ & -> & _)|(bias_zero_pt & _ & H)];
    [reflexivity|].
  apply bind_inv in H as [(e' & H & _)|(buf & h1 & K & H)];
    [now apply buffer_read_inv in H as [-> _]|].
  apply buffer_read_inv in K as [-> Hbuf].
  apply bind_lift_inv in H as [(? & _ & -> & _)|(data & _ & H)];
    [reflexivity|].
  apply bind_lift_inv in H as [(? & _ & -> & _)|(deq & _ & H)];
    [reflexivity|].
  apply bind_inv in H as [(e' & H & _)|(ti & h1 & K & H)];
    [now apply tensor_read_inv in H as [-> _]|].
  apply tensor_read_inv in K as [-> Hti].
  apply bind_lift_inv in H as [(? & _ & -> & _)|(si & _ & H)];
    [reflexivity|].
  apply bind_inv in H as [(e' & H & _)|(tw & h1 & K & H)];
    [now apply tensor_read_inv in H as [-> _]|].
  apply tensor_read_inv in K as [-> Htw].
  apply bind_lift_inv in H as [(? & _ & -> & _)|(sw & _ & H)];
    [reflexivity|].
  apply bind_inv in H as [(e' & H & _)|(q & h1 & K & H)];
    [now apply quantize_data_64_raise in H as [-> _]|].
  exfalso.
  pose proof (quantize_data_same_store _ _ _ _ _ _ _ K) as [KT KB].
  erewrite bind_eq in H
    by (eapply buffer_write_ok; rewrite KB; exact Hbuf).
  rewrite (bind_lift_eq _ _ _ _ TENSOR_TYPE_CODE_int64) in H.
  set (h2 := heap_set_buffer pb _ h1) in *.
  assert (Htb2 : tensors h2 !! b = Some tb) by (cbn; congruence).
  erewrite bind_eq in H by (eapply tensor_update_ok; eassumption).
  erewrite bind_eq in H
    by (eapply tensor_update_ok, heap_set_tensor_lookup; eassumption).
  rewrite heap_set_tensor_twice in H.
  erewrite bind_eq in H
    by (eapply tensor_update_ok, heap_set_tensor_lookup; eassumption).
  rewrite heap_set_tensor_twice in H.
  erewrite bind_eq in H
    by (eapply tensor_read_ok, heap_set_tensor_lookup; eassumption).
  rewrite logging_info_eq in H. discriminate H.
Qed.

(** A bias whose buffer is empty. *)
Lemma bias_retyping_atomic_witness :
  fst (set_bias_type_int64 0 1 2 empty_bias_example) = empty_bias_example.
Proof.
  apply (bias_retyping_atomic 0 1 2 empty_bias_example ValueError).
  reflexivity.
Defined.

(** X20.  The conversion of a softmax operator is atomic: when it raises,
    the model is exactly as it was; nothing can fail once the input has
    been converted. *)
Theorem softmax_atomic op h e :
  snd (requantize_softmax op h) = Raise e ->
  fst (requantize_softmax op h) = h.
Proof.
  destruct (requantize_softmax op h) as [h' o] eqn:H. cbn [fst snd].
  intros ->. unfold requantize_softmax in H.
  apply bind_lift_inv in H as [(? & _ & -> & _)|(i0 & Hi0 & H)];
    [reflexivity|].
  apply bind_inv in H as [(e' & H & _)|(ri & h1 & K & H)];
    [now apply tensors_getitem_inv in H as [-> _]|].
  apply tensors_getitem_inv in K as [-> Hri].
  apply bind_lift_inv in H as [(? & _ & -> & _)|(o0 & Ho0 & H)];
    [reflexivity|].
  apply bind_inv in H as [(e' & H & _)|(ro & h1 & K & H)];
    [now apply tensors_getitem_inv in H as [-> _]|].
  apply tensors_getitem_inv in K as [-> Hro].
  apply bind_inv in H as [(e' & H & _)|([] & h1 & K & H)];
    [now apply change_activation_tensor_8to16_inv in H|].
  exfalso.
  apply change_activation_tensor_8to16_frame in K as (L1 & _).
  assert (Hlt : (ro < length (tensors h1))%nat).
  { rewrite L1. unfold py_index in Hro.
    destruct ((0 <=? o0) && (o0 <? Z.of_nat (length (tensors h))))%bool eqn:C.
    - injection Hro as <-. apply andb_true_iff in C as [C1 C2].
      apply Z.leb_le in C1. apply Z.ltb_lt in C2. lia.
    - destruct ((- Z.of_nat (length (tensors h)) <=? o0) && (o0 <? 0))%bool eqn:C';
        [|discriminate].
      injection Hro as <-. apply andb_true_iff in C' as [C1 C2].
      apply Z.leb_le in C1. apply Z.ltb_lt in C2. lia. }
  destruct (lookup_lt_is_Some_2 _ _ Hlt) as [t Ht].
  rewrite (bind_eq _ _ _ _ _ (tensor_read_ok _ _ _ Ht)) in H.
  rewrite (bind_lift_eq _ _ _ _ TENSOR_TYPE_CODE_int8) in H.
  destruct (decide (type t = INT8)) as [Ety|Nty]; [|discriminate H].
  erewrite bind_eq in H by (eapply tensor_update_ok; eassumption).
  erewrite bind_eq in H
    by (eapply tensor_update_ok, heap_set_tensor_lookup; eassumption).
  rewrite heap_set_tensor_twice in H.
  rewrite (bind_lift_eq _ _ _ _ TENSOR_TYPE_CODE_int16) in H.
  erewrite bind_eq in H
    by (eapply tensor_update_ok, heap_set_tensor_lookup; eassumption).
  rewrite heap_set_tensor_twice in H.
  erewrite bind_eq in H
    by (eapply tensor_read_ok, heap_set_tensor_lookup; eassumption).
  rewrite logging_info_eq in H. discriminate H.
Qed.

(** An operator whose output index is out of range. *)
Lemma softmax_atomic_witness :
  fst (requantize_softmax softmax_op per_channel_example) = per_channel_example.
Proof.
  apply (softmax_atomic softmax_op per_channel_example IndexError).
  reflexivity.
Defined.

(** X21.  For an activation tensor whose declared type is the 8-bit signed
    code and whose [quantizedDimension] is not 0, activation retyping
    raises the fatal error and leaves the model, and so the tensor,
    unmutated. *)
Theorem activation_retyping_per_channel h r t :
  tensors h !! r = Some t -> type t = INT8 ->
  quantizedDimension (quantization t) <> 0 ->
  change_activation_tensor_8to16 r h = (h, Raise per_channel_error).
Proof.
  intros Ht Hty Hd. unfold change_activation_tensor_8to16.
  rewrite (bind_eq _ _ _ _ _ (tensor_read_ok _ _ _ Ht)).
  erewrite bind_lift_eq by reflexivity.
  rewrite Hty, decide_True by reflexivity.
  erewrite bind_raise; [reflexivity|].
  unfold change_quantization_settings_8to16.
  rewrite (bind_eq _ _ _ _ _ (tensor_read_ok _ _ _ Ht)).
  destruct (Z.eqb_spec (quantizedDimension (quantization t)) 0); [contradiction|].
  reflexivity.
Qed.

(** An 8-bit activation quantized per channel. *)
Lemma activation_retyping_per_channel_witness :
  change_activation_tensor_8to16 0 per_channel_example
    = (per_channel_example, Raise per_channel_error).
Proof.
  apply (activation_retyping_per_channel per_channel_example 0 _ eq_refl eq_refl).
  discriminate.
Defined.
